(** * quizbot: the quiz dialogue of [core/reply_factory.py]

    A shallow embedding of the four functions of [reply_factory.py]
    ([generate_bot_responses], [record_current_answer], [get_next_question],
    [generate_final_response]) and the properties of the quiz state machine.

    Python values are modelled as follows.
    - [int] is [Z] (unbounded).
    - [str] is a list of Unicode code points; [str.strip()] removes the code
      points Python classifies as whitespace.
    - [float] is IEEE 754 binary64, with the operations of [SpecFloat]
      (precision 53, [emax] 1024, round to nearest even).
    - a value that is [str] or [None] is [option str].
    - the session dictionary is a record of the two keys the code uses; a key
      can be absent, hold [None], or hold a value.
    - exceptions are an explicit outcome; the session state at the point of
      the exception is kept.
    The two constants of [core/constants.py], [BOT_WELCOME_MESSAGE] and
    [PYTHON_QUESTION_LIST], are section variables. *)

From Stdlib Require Import ZArith QArith Qabs List Bool Lia String Ascii.
From Stdlib Require Import DecimalString SpecFloat.
Import ListNotations.

Local Open Scope Z_scope.

(** ** Strings *)

(** A Python [str]: the sequence of its code points. *)
Definition str := list N.

(** An ASCII literal of the source, as a [str]. *)
Definition lit (s : string) : str := map N_of_ascii (list_ascii_of_string s).

(** The one-character string "\n". *)
Definition nl : str := [10%N].

(** [str.__eq__]: code point by code point, case-sensitive. *)
Fixpoint str_eqb (a b : str) : bool :=
  match a, b with
  | [], [] => true
  | x :: a', y :: b' => N.eqb x y && str_eqb a' b'
  | _, _ => false
  end.

(** [Py_UNICODE_ISSPACE]: the code points [str.strip()] removes. *)
Definition isspace (c : N) : bool :=
  ((9 <=? c) && (c <=? 13) || (28 <=? c) && (c <=? 32) || (c =? 133)
   || (c =? 160) || (c =? 5760) || (8192 <=? c) && (c <=? 8202)
   || (c =? 8232) || (c =? 8233) || (c =? 8239) || (c =? 8287)
   || (c =? 12288))%N.

Fixpoint lstrip (s : str) : str :=
  match s with
  | [] => []
  | c :: r => if isspace c then lstrip r else s
  end.

Definition rstrip (s : str) : str := rev (lstrip (rev s)).

(** [s.strip()] *)
Definition strip (s : str) : str := rstrip (lstrip s).

(** [str(n)] and [f"{n}"] for an [int]. *)
Definition str_of_int (n : Z) : str := lit (NilZero.string_of_int (Z.to_int n)).

(** ** Floats: binary64 *)

Definition prec : Z := 53.
Definition emax : Z := 1024.

Definition float := spec_float.

(** An [int] as an unrounded binary number: mantissa [|n|], exponent 0. *)
Definition exact_int (n : Z) : float :=
  match n with
  | Z0 => S754_zero false
  | Zpos p => S754_finite false p 0
  | Zneg p => S754_finite true p 0
  end.

(** [float(n)]: the [int] operand of a mixed operation or comparison, rounded
    to the nearest float (100, 80 and 60 are exact). *)
Definition float_of_int (n : Z) : float := binary_normalize prec emax n 0 false.

Definition float_mul (x y : float) : float := SFmul prec emax x y.
Definition float_eqb (x y : float) : bool := SFeqb x y.
Definition float_leb (x y : float) : bool := SFleb x y.

(** The integer nearest to [n / d], ties to even ([d > 0], [n >= 0]). *)
Definition div_half_even (n d : Z) : Z :=
  let q := n / d in
  let r := n mod d in
  match 2 * r ?= d with
  | Lt => q
  | Gt => q + 1
  | Eq => if Z.even q then q else q + 1
  end.

(** The number of hundredths nearest to the magnitude of a finite float: the
    digits that [format(x, ".2f")] prints (correctly rounded, ties to even). *)
Definition hundredths (m : positive) (e : Z) : Z :=
  match e with
  | Zneg k => div_half_even (100 * Zpos m) (2 ^ Zpos k)
  | _ => 100 * Zpos m * 2 ^ e
  end.

Definition two_digits (n : Z) : str :=
  str_of_int (n / 10) ++ str_of_int (n mod 10).

Definition sign_prefix (s : bool) : str := if s then lit "-" else [].

(** [f"{x:.2f}"] *)
Definition format_2f (x : float) : str :=
  match x with
  | S754_zero s => sign_prefix s ++ lit "0.00"
  | S754_finite s m e =>
      let h := hundredths m e in
      sign_prefix s ++ str_of_int (h / 100) ++ lit "." ++ two_digits (h mod 100)
  | S754_infinity s => sign_prefix s ++ lit "inf"
  | S754_nan => lit "nan"
  end.

(** ** Exceptions *)

Inductive exn : Type :=
| IndexError
| ZeroDivisionError
| OverflowError.

Inductive outcome (A : Type) : Type :=
| Ok (a : A)
| Raise (e : exn).
Arguments Ok {A} a.
Arguments Raise {A} e.

Definition obind {A B : Type} (c : outcome A) (k : A -> outcome B) : outcome B :=
  match c with
  | Ok a => k a
  | Raise e => Raise e
  end.

(** [l[i]] on a Python list: a negative index counts from the end, an index
    out of range raises [IndexError]. *)
Definition list_getitem {A : Type} (l : list A) (i : Z) : outcome A :=
  let n := Z.of_nat (List.length l) in
  let j := if i <? 0 then i + n else i in
  if (j <? 0) || (n <=? j) then Raise IndexError
  else match nth_error l (Z.to_nat j) with
       | Some x => Ok x
       | None => Raise IndexError
       end.

(** [a / b] on two [int]s: the quotient of the exact integers, rounded once. *)
Definition int_truediv (a b : Z) : outcome float :=
  if b =? 0 then Raise ZeroDivisionError
  else match SFdiv prec emax (exact_int a) (exact_int b) with
       | S754_infinity _ => Raise OverflowError
       | q => Ok q
       end.

(** ** Data model *)

(** An entry of [PYTHON_QUESTION_LIST]. *)
Record Question : Type := {
  question_text : str;
  options : list str;
  answer : str
}.

(** An entry of [session['quiz_answers']]. *)
Record QuizAnswerRecord : Type := {
  question_id : Z;
  user_answer : str;
  correct_answer : str;
  is_correct : bool
}.

(** The value under [session["current_question_id"]]. *)
Inductive id_slot : Type :=
| Absent
| IsNone
| IsInt (z : Z).

(** The session dictionary, restricted to the keys the code uses. *)
Record SessionData : Type := {
  current_question_id : id_slot;
  quiz_answers : option (list QuizAnswerRecord)
}.

(** The session object: the dictionary in memory, and the snapshots written by
    [session.save()], newest first. *)
Record Session : Type := {
  data : SessionData;
  saved : list SessionData
}.

(** ** The monad of session-mutating code *)

Definition M (A : Type) : Type := Session -> outcome A * Session.

Definition ret {A : Type} (a : A) : M A := fun s => (Ok a, s).

Definition bind {A B : Type} (c : M A) (k : A -> M B) : M B :=
  fun s =>
    match c s with
    | (Ok a, s') => k a s'
    | (Raise e, s') => (Raise e, s')
    end.

Definition lift {A : Type} (c : outcome A) : M A := fun s => (c, s).

Declare Scope py_scope.
Delimit Scope py_scope with py.
Notation "x <- c ;; k" := (bind c (fun x => k))
  (at level 100, c at next level, right associativity) : py_scope.
Notation "' p <- c ;; k" := (bind c (fun x => match x with p => k end))
  (at level 100, p pattern, c at next level, right associativity) : py_scope.
Notation "c ;; k" := (bind c (fun _ => k))
  (at level 100, right associativity) : py_scope.
Local Open Scope py_scope.

(** [session.get("current_question_id")] *)
Definition session_get_current_question_id : M (option Z) :=
  fun s =>
    (Ok match current_question_id (data s) with
        | IsInt z => Some z
        | _ => None
        end, s).

(** [session["current_question_id"] = v] *)
Definition session_set_current_question_id (v : id_slot) : M unit :=
  fun s =>
    (Ok tt, {| data := {| current_question_id := v;
                          quiz_answers := quiz_answers (data s) |};
               saved := saved s |}).

(** [session['quiz_answers']] as the code reads it after the membership test. *)
Definition session_quiz_answers : M (option (list QuizAnswerRecord)) :=
  fun s => (Ok (quiz_answers (data s)), s).

Definition session_set_quiz_answers (l : list QuizAnswerRecord) : M unit :=
  fun s =>
    (Ok tt, {| data := {| current_question_id := current_question_id (data s);
                          quiz_answers := Some l |};
               saved := saved s |}).

(** [session.save()] *)
Definition session_save : M unit :=
  fun s => (Ok tt, {| data := data s; saved := data s :: saved s |}).

(** Truth value of a [str] or [None]. *)
Definition truthy (v : option str) : bool :=
  match v with
  | Some (_ :: _) => true
  | _ => false
  end.

(** ** The scenario of the specification

    A welcome message and the one-question list of the scenario of the
    specification; the properties are checked on them. *)

Definition scenario_welcome : str := lit "Welcome to the Python quiz!".

Definition scenario_question : Question :=
  {| question_text := lit "2+2?";
     options := [lit "3"; lit "4"];
     answer := lit "4" |}.

Definition scenario_questions : list Question := [scenario_question].

(** A session whose stored id, 1, is past the end of the one-question list. *)
Definition stale_session : Session :=
  {| data := {| current_question_id := IsInt 1; quiz_answers := None |};
     saved := [] |}.

(** The records of 160 passes of the scenario, 23 of them with the right
    answer: the exact percentage, 14.375, lies halfway between two
    hundredths. *)
Definition tied_answers : list QuizAnswerRecord :=
  repeat {| question_id := 0; user_answer := lit "4";
            correct_answer := lit "4"; is_correct := true |} 23
  ++ repeat {| question_id := 0; user_answer := lit "3";
               correct_answer := lit "4"; is_correct := false |} 137.

(** The session that holds them when the last summary is computed. *)
Definition tied_session : Session :=
  {| data := {| current_question_id := IsInt 0; quiz_answers := Some tied_answers |};
     saved := [] |}.

(** ** The functions of [reply_factory.py] *)

Section ReplyFactory.

Variable BOT_WELCOME_MESSAGE : str.
Variable PYTHON_QUESTION_LIST : list Question.

Definition len {A : Type} (l : list A) : Z := Z.of_nat (List.length l).

(** The loop [for i, option in enumerate(options, 1): question_text += ...],
    from the index [i] on. *)
Fixpoint add_options (question_text : str) (i : Z) (opts : list str) : str :=
  match opts with
  | [] => question_text
  | option :: rest =>
      add_options (question_text ++ str_of_int i ++ lit ". " ++ option ++ nl)
                  (i + 1) rest
  end.

(** The fetcher: a pure function, which can only raise through the list index. *)
Definition get_next_question (current_question_id : option Z)
  : outcome (option str * Z) :=
  let current_question_id :=
    match current_question_id with
    | None => -1
    | Some z => z
    end in
  let next_question_id := current_question_id + 1 in
  if next_question_id <? len PYTHON_QUESTION_LIST then
    obind (list_getitem PYTHON_QUESTION_LIST next_question_id)
      (fun next_question =>
         let question_text :=
           question_text next_question ++ nl ++ nl ++ lit "Options:" ++ nl in
         let question_text := add_options question_text 1 (options next_question) in
         Ok (Some question_text, next_question_id))
  else Ok (None, -1).

(** The recorder; [answer_] is the parameter [answer] of the source, and the
    returned pair is (success, error message). *)
Definition record_current_answer (answer_ : str) (current_question_id : option Z)
  : M (bool * str) :=
  match current_question_id with
  | None => ret (false, lit "No active question")
  | Some cid =>
      if cid <? 0 then ret (false, lit "No active question")
      else if len PYTHON_QUESTION_LIST <=? cid then
        ret (false, lit "Invalid question ID")
      else
        q <- lift (list_getitem PYTHON_QUESTION_LIST cid) ;;
        let correct_answer := answer q in
        let is_correct := str_eqb (strip answer_) (strip correct_answer) in
        present <- session_quiz_answers ;;
        (match present with
         | None => session_set_quiz_answers []
         | Some _ => ret tt
         end) ;;
        l <- session_quiz_answers ;;
        session_set_quiz_answers
          (match l with Some l => l | None => [] end
           ++ [{| question_id := cid;
                  user_answer := answer_;
                  correct_answer := correct_answer;
                  is_correct := is_correct |}]) ;;
        ret (true, [])
  end.

(** [sum(1 for answer in quiz_answers if answer['is_correct'])] *)
Definition count_correct (l : list QuizAnswerRecord) : Z :=
  len (filter is_correct l).

(** [(correct_answers / total_questions) * 100] *)
Definition score_percentage (correct_answers total_questions : Z) : outcome float :=
  obind (int_truediv correct_answers total_questions)
    (fun q => Ok (float_mul q (float_of_int 100))).

(** The remark: [if score_percentage == 100 ... elif score_percentage >= 80 ...
    elif score_percentage >= 60 ... else ...]. *)
Definition performance (score_percentage : float) : str :=
  if float_eqb score_percentage (float_of_int 100) then
    lit "Excellent! Perfect score!"
  else if float_leb (float_of_int 80) score_percentage then
    lit "Great job! You have a strong understanding of Python."
  else if float_leb (float_of_int 60) score_percentage then
    lit "Good effort. You're on the right track with Python."
  else
    lit "Keep studying. There's room for improvement in your Python skills.".

(** The check mark U+2713 and the ballot cross U+2717. *)
Definition glyph (ok : bool) : str := if ok then [10003%N] else [10007%N].

(** The loop [for i, answer in enumerate(quiz_answers, 1): result_message += ...],
    from the index [i] on. *)
Fixpoint add_breakdown (result_message : str) (i : Z) (l : list QuizAnswerRecord)
  : str :=
  match l with
  | [] => result_message
  | a :: rest =>
      add_breakdown
        (result_message ++ nl ++ lit "Q" ++ str_of_int i ++ lit ": "
           ++ glyph (is_correct a) ++ lit " Your answer: " ++ user_answer a)
        (i + 1) rest
  end.

(** The body of [generate_final_response], which only reads
    [session['quiz_answers']]: [None] stands for a missing key. *)
Definition final_response (present : option (list QuizAnswerRecord)) : outcome str :=
  match present with
  | None => Ok (lit "No quiz answers found. Please complete the quiz.")
  | Some [] => Ok (lit "No quiz answers found. Please complete the quiz.")
  | Some answers =>
      let correct_answers := count_correct answers in
      let total_questions := len answers in
      obind (score_percentage correct_answers total_questions)
        (fun score_percentage =>
           let result_message := lit "Quiz Completed!" ++ nl ++ nl in
           let result_message :=
             result_message ++ lit "Your Score: " ++ str_of_int correct_answers
               ++ lit "/" ++ str_of_int total_questions ++ lit " ("
               ++ format_2f score_percentage ++ lit "%)" ++ nl ++ nl in
           let result_message := result_message ++ performance score_percentage in
           let result_message :=
             result_message ++ nl ++ nl ++ lit "Detailed Breakdown:" in
           Ok (add_breakdown result_message 1 answers))
  end.

Definition generate_final_response : M str :=
  present <- session_quiz_answers ;;
  lift (final_response present).

(** The dispatcher. A response is a [str], or [None] when the fetcher had no
    question to give on the cold start. *)
Definition generate_bot_responses (message : str) : M (list (option str)) :=
  let bot_responses : list (option str) := [] in
  current_question_id <- session_get_current_question_id ;;
  match current_question_id with
  | None =>
      let bot_responses := bot_responses ++ [Some BOT_WELCOME_MESSAGE] in
      ' (first_question, first_question_id) <- lift (get_next_question None) ;;
      let bot_responses := bot_responses ++ [first_question] in
      session_set_current_question_id (IsInt first_question_id) ;;
      session_save ;;
      ret bot_responses
  | Some cid =>
      ' (success, error) <- record_current_answer message (Some cid) ;;
      if negb success then ret [Some error]
      else
        ' (next_question, next_question_id) <- lift (get_next_question (Some cid)) ;;
        bot_responses <-
          (if truthy next_question then
             session_set_current_question_id (IsInt next_question_id) ;;
             ret (bot_responses ++ [next_question])
           else
             final_response <- generate_final_response ;;
             session_set_current_question_id IsNone ;;
             ret (bot_responses ++ [Some final_response])) ;;
        session_save ;;
        ret bot_responses
  end.

(** A conversation: the turns are played in order on the same session; an
    exception ends it. The responses of the turns are collected in order. *)
Fixpoint run_turns (messages : list str) : M (list (list (option str))) :=
  match messages with
  | [] => ret []
  | m :: rest =>
      r <- generate_bot_responses m ;;
      rs <- run_turns rest ;;
      ret (r :: rs)
  end.

(** ** Definitions used to state the properties *)

(** The session of a first request: an empty dictionary, never saved. *)
Definition fresh_session : Session :=
  {| data := {| current_question_id := Absent; quiz_answers := None |};
     saved := [] |}.

(** The empty string. *)
Definition empty_str : str := [].

(** [enumerate(l, i)] as a list. *)
Fixpoint enumerate {A : Type} (i : Z) (l : list A) : list (Z * A) :=
  match l with
  | [] => []
  | x :: rest => (i, x) :: enumerate (i + 1) rest
  end.

(** One numbered option of a displayed question. *)
Definition option_line (io : Z * str) : str :=
  str_of_int (fst io) ++ lit ". " ++ snd io ++ nl.

(** The display text of a question, as the specification words it: the
    question text, the separator, and one line per option in list order. *)
Definition rendered_text (q : Question) : str :=
  question_text q ++ nl ++ nl ++ lit "Options:" ++ nl
    ++ List.concat (map option_line (enumerate 1 (options q))).

(** One line of the breakdown of the final summary. *)
Definition breakdown_line (ia : Z * QuizAnswerRecord) : str :=
  nl ++ lit "Q" ++ str_of_int (fst ia) ++ lit ": " ++ glyph (is_correct (snd ia))
    ++ lit " Your answer: " ++ user_answer (snd ia).

(** The recorded answers, a missing key read as no answers. *)
Definition answers_of (d : SessionData) : list QuizAnswerRecord :=
  match quiz_answers d with
  | Some l => l
  | None => []
  end.

(** The record that answering question [cid], which is [q], with [answer_]
    leaves in the session. *)
Definition answer_record (cid : Z) (q : Question) (answer_ : str) : QuizAnswerRecord :=
  {| question_id := cid;
     user_answer := answer_;
     correct_answer := answer q;
     is_correct := str_eqb (strip answer_) (strip (answer q)) |}.

(** The records of answering the questions [qs], numbered from [cid], with the
    messages [ms] in order. *)
Fixpoint answer_records (cid : Z) (qs : list Question) (ms : list str)
  : list QuizAnswerRecord :=
  match qs, ms with
  | q :: qs', m :: ms' => answer_record cid q m :: answer_records (cid + 1) qs' ms'
  | _, _ => []
  end.

(** The [correct_count] of the specification: the number of records whose
    [is_correct] holds, counted record by record. *)
Fixpoint spec_correct_count (records : list QuizAnswerRecord) : Z :=
  match records with
  | [] => 0
  | r :: rest => (if is_correct r then 1 else 0) + spec_correct_count rest
  end.

(** The dictionary with [current_question_id] set to [v]. *)
Definition with_id (v : id_slot) (d : SessionData) : SessionData :=
  {| current_question_id := v; quiz_answers := quiz_answers d |}.

(** The dictionary with [r] appended to [quiz_answers]. *)
Definition with_answer (r : QuizAnswerRecord) (d : SessionData) : SessionData :=
  {| current_question_id := current_question_id d;
     quiz_answers := Some (answers_of d ++ [r]) |}.

(** The session whose dictionary has become [d] and has then been saved. *)
Definition saving (d : SessionData) (s : Session) : Session :=
  {| data := d; saved := d :: saved s |}.

(** The call that took the session from [s] to [s'] wrote a snapshot. *)
Definition persisted_by_call (s s' : Session) : Prop :=
  saved s' = data s' :: saved s.

(** The stored id is missing, [None], or the index of a question. *)
Definition valid_id (v : id_slot) : Prop :=
  match v with
  | IsInt z => 0 <= z < len PYTHON_QUESTION_LIST
  | _ => True
  end.

(** The mantissas of the floats [1.0] (exponent -52) and [100.0]
    (exponent -46). *)
Definition mant_1 : positive := 4503599627370496.
Definition mant_100 : positive := 7036874417766400.

(** A float that is [+0], or a canonical positive finite float at most
    [Bm * 2 ^ Be]. *)
Definition bounded_by (Bm : positive) (Be : Z) (x : float) : Prop :=
  x = S754_zero false
  \/ exists m e,
       x = S754_finite false m e
       /\ e = fexp prec emax (Zpos (digits2_pos m) + e)
       /\ e <= Be
       /\ Zpos m <= Zpos Bm * 2 ^ (Be - e).

(** The location [l] places the fraction [a / b] of [[0, 1)] with respect to
    one half. *)
Definition loc_describes (l : location) (a b : Z) : Prop :=
  match l with
  | loc_Exact => a = 0
  | loc_Inexact Lt => 0 < a /\ 2 * a < b
  | loc_Inexact Eq => 0 < a /\ 2 * a = b
  | loc_Inexact Gt => b < 2 * a
  end.

(** The value of a float of [[0, +inf)] times [2 ^ 1120], an integer for
    every exponent from -1120 up. *)
Definition scaled (x : float) : Z :=
  match x with
  | S754_finite false m e => Zpos m * 2 ^ (e + 1120)
  | _ => 0
  end.

(** The rational number a float stands for. *)
Definition float_value (x : float) : Q :=
  match x with
  | S754_finite s m e =>
      let v := match e with
               | Zneg k => Zpos m # (2 ^ k)%positive
               | _ => inject_Z (Zpos m * 2 ^ e)
               end in
      if s then Qopp v else v
  | _ => 0%Q
  end.

(** The mantissas of the floats [80.0] (exponent -46) and [60.0]
    (exponent -47). *)
Definition mant_80 : positive := 5629499534213120.
Definition mant_60 : positive := 8444249301319680.

(** The comparison of two positive canonical floats with the same sign:
    exponents first, then mantissas. *)
Definition compare_finite (m1 : positive) (e1 : Z) (m2 : positive) (e2 : Z) : comparison :=
  match Z.compare e1 e2 with
  | Eq => Pos.compare m1 m2
  | Lt => Lt
  | Gt => Gt
  end.

(** A record agrees with the question list: its id is the index of a
    question, it carries the canonical answer of that question, and its mark
    is the comparison of the stripped answers. *)
Definition record_consistent (r : QuizAnswerRecord) : Prop :=
  0 <= question_id r
  /\ exists q,
       nth_error PYTHON_QUESTION_LIST (Z.to_nat (question_id r)) = Some q
       /\ correct_answer r = answer q
       /\ is_correct r = str_eqb (strip (user_answer r)) (strip (answer q)).

(** The records follow the questions in rounds: record [i] answers question
    [i mod N], and the stored id is the place reached in the current round. *)
Definition in_step (d : SessionData) : Prop :=
  (forall i r, nth_error (answers_of d) i = Some r ->
               question_id r = Z.of_nat i mod len PYTHON_QUESTION_LIST)
  /\ valid_id (current_question_id d)
  /\ len (answers_of d) mod len PYTHON_QUESTION_LIST
     = match current_question_id d with
       | IsInt k => k
       | Absent | IsNone => 0
       end.

(** One line of the breakdown for the answer [m], numbered [i], with the mark
    of [ok]. *)
Definition marked_line (ok : bool) (im : Z * str) : str :=
  nl ++ lit "Q" ++ str_of_int (fst im) ++ lit ": " ++ glyph ok
    ++ lit " Your answer: " ++ snd im.

(** The summary of a pass in which every record has the mark [ok]: score line
    [score], remark [remark], and one marked line per answer. *)
Definition uniform_summary (ok : bool) (score remark : str) (answers : list str) : str :=
  lit "Quiz Completed!" ++ nl ++ nl
    ++ lit "Your Score: " ++ score ++ nl ++ nl
    ++ remark
    ++ nl ++ nl ++ lit "Detailed Breakdown:"
    ++ List.concat (map (marked_line ok) (enumerate 1 answers)).

(** ** Binary64 rounding *)

Lemma fexp_eq (e : Z) : fexp prec emax e = Z.max (e - 53) (-1074).
Proof. reflexivity. Qed.

Lemma digits2_pos_bounds (p : positive) :
  2 ^ (Zpos (digits2_pos p) - 1) <= Zpos p < 2 ^ Zpos (digits2_pos p).
Proof.
  induction p as [p IH | p IH | ]; cbn [digits2_pos].
  - rewrite Pos2Z.inj_succ.
    replace (Z.succ (Zpos (digits2_pos p)) - 1) with (Z.succ (Zpos (digits2_pos p) - 1)) by lia.
    rewrite !Z.pow_succ_r by lia. lia.
  - rewrite Pos2Z.inj_succ.
    replace (Z.succ (Zpos (digits2_pos p)) - 1) with (Z.succ (Zpos (digits2_pos p) - 1)) by lia.
    rewrite !Z.pow_succ_r by lia. lia.
  - cbn. lia.
Qed.

Lemma Zdigits2_bounds (m : Z) :
  0 < m -> 2 ^ (Zdigits2 m - 1) <= m < 2 ^ Zdigits2 m.
Proof.
  destruct m as [ | p | p ]; try lia. intros _. apply digits2_pos_bounds.
Qed.

Lemma Zdigits2_nonneg (m : Z) : 0 <= Zdigits2 m.
Proof. destruct m; cbn; lia. Qed.

Lemma Zdigits2_pos (m : Z) : 0 < m -> 0 < Zdigits2 m.
Proof. destruct m; cbn; lia. Qed.

Lemma Zdigits2_unique (m k : Z) :
  0 < m -> 2 ^ (k - 1) <= m < 2 ^ k -> Zdigits2 m = k.
Proof.
  intros Hm [Hlo Hhi].
  pose proof (Zdigits2_bounds m Hm) as [Dlo Dhi].
  pose proof (Zdigits2_pos m Hm) as Dpos.
  assert (0 < k).
  { destruct (Z_lt_le_dec 0 k) as [ | Hk]; [assumption | exfalso].
    assert (2 ^ k <= 2 ^ 0) by (apply Z.pow_le_mono_r; lia).
    change (2 ^ 0) with 1 in *. lia. }
  assert (k - 1 < Zdigits2 m).
  { apply (Z.pow_lt_mono_r_iff 2); lia. }
  assert (Zdigits2 m - 1 < k).
  { apply (Z.pow_lt_mono_r_iff 2); lia. }
  lia.
Qed.

(** A number below [2 ^ k] has at most [k] digits. *)
Lemma Zdigits2_le (m k : Z) : 0 <= m -> 0 <= k -> m < 2 ^ k -> Zdigits2 m <= k.
Proof.
  intros Hm0 Hk Hm.
  destruct (Z_lt_le_dec 0 m) as [Hpos | Hneg].
  - pose proof (Zdigits2_bounds m Hpos) as [Dlo _].
    assert (Zdigits2 m - 1 < k) by (apply (Z.pow_lt_mono_r_iff 2); lia).
    lia.
  - assert (m = 0) by lia. subst m. cbn. lia.
Qed.

(** A number at least [2 ^ k] has more than [k] digits. *)
Lemma Zdigits2_gt (m k : Z) : 0 <= k -> 2 ^ k <= m -> k < Zdigits2 m.
Proof.
  intros Hk Hm.
  assert (0 < m) by (pose proof (Z.pow_pos_nonneg 2 k); lia).
  pose proof (Zdigits2_bounds m H) as [_ Dhi].
  apply (Z.pow_lt_mono_r_iff 2); [lia | | lia].
  pose proof (Zdigits2_pos m H). lia.
Qed.

Lemma iter_pos_nat {A : Type} (f : A -> A) (p : positive) (x : A) :
  iter_pos f p x = Nat.iter (Pos.to_nat p) f x.
Proof.
  revert x. induction p as [p IH | p IH | ]; intros x; cbn [iter_pos].
  - rewrite !IH, <- Nat.iter_add, Pos2Nat.inj_xI.
    replace (S (2 * Pos.to_nat p))%nat with ((Pos.to_nat p + Pos.to_nat p) + 1)%nat by lia.
    rewrite (Nat.iter_add (Pos.to_nat p + Pos.to_nat p) 1). reflexivity.
  - rewrite !IH, <- Nat.iter_add, Pos2Nat.inj_xO.
    f_equal. lia.
  - reflexivity.
Qed.

Lemma shr_1_spec (r : shr_record) :
  0 <= shr_m r ->
  shr_m (shr_1 r) = shr_m r / 2
  /\ shr_r (shr_1 r) = Z.odd (shr_m r)
  /\ shr_s (shr_1 r) = shr_r r || shr_s r.
Proof.
  destruct r as [m rb sb]. cbn [shr_m shr_r shr_s]. intros Hm.
  destruct m as [ | [p | p | ] | p ]; cbn [shr_1 shr_m shr_r shr_s].
  - split; [ reflexivity | split; reflexivity ].
  - split; [ | split; reflexivity ].
    rewrite Pos2Z.inj_xI. apply (Z.div_unique _ _ _ 1); lia.
  - split; [ | split; reflexivity ].
    rewrite Pos2Z.inj_xO. apply (Z.div_unique _ _ _ 0); lia.
  - split; [ reflexivity | split; reflexivity ].
  - lia.
Qed.

Lemma loc_of_shr_record_exact (r : shr_record) :
  loc_of_shr_record r = loc_Exact <-> shr_r r = false /\ shr_s r = false.
Proof.
  destruct r as [m [|] [|]]; cbn; split; intros H; try discriminate;
    try (destruct H; discriminate); auto.
Qed.

Lemma loc_of_shr_record_of_loc (m : Z) (l : location) :
  loc_of_shr_record (shr_record_of_loc m l) = l.
Proof. destruct l as [ | [ | | ] ]; reflexivity. Qed.

Lemma shr_m_of_loc (m : Z) (l : location) : shr_m (shr_record_of_loc m l) = m.
Proof. destruct l as [ | [ | | ] ]; reflexivity. Qed.

(** [k] steps of [shr_1] divide the mantissa by [2 ^ k]; the location stays
    exact exactly when nothing was lost. *)
Lemma shr_iter_spec (m : Z) (l : location) (k : nat) :
  0 <= m ->
  shr_m (Nat.iter k shr_1 (shr_record_of_loc m l)) = m / 2 ^ Z.of_nat k
  /\ (loc_of_shr_record (Nat.iter k shr_1 (shr_record_of_loc m l)) = loc_Exact
      <-> m mod 2 ^ Z.of_nat k = 0 /\ l = loc_Exact).
Proof.
  intros Hm. induction k as [ | k IH ].
  - cbn [Nat.iter nat_rect]. rewrite shr_m_of_loc, loc_of_shr_record_of_loc.
    change (2 ^ Z.of_nat 0) with 1. rewrite Z.div_1_r, Z.mod_1_r. tauto.
  - destruct IH as [IHm IHl].
    rewrite !Nat.iter_succ.
    set (r := Nat.iter k shr_1 (shr_record_of_loc m l)) in *.
    assert (Hpow : 0 < 2 ^ Z.of_nat k) by (apply Z.pow_pos_nonneg; lia).
    assert (Hr : 0 <= shr_m r) by (rewrite IHm; apply Z.div_pos; lia).
    destruct (shr_1_spec r Hr) as (Sm & Sr & Ss).
    rewrite Nat2Z.inj_succ, Z.pow_succ_r by lia.
    split.
    + rewrite Sm, IHm, Z.div_div by lia. f_equal. lia.
    + rewrite loc_of_shr_record_exact, Sr, Ss, orb_false_iff.
      rewrite <- loc_of_shr_record_exact, IHl, IHm.
      pose proof (Z.div_mod m (2 ^ Z.of_nat k) ltac:(lia)) as E1.
      pose proof (Z.mod_pos_bound m (2 ^ Z.of_nat k) Hpow) as B1.
      pose proof (Z.div_mod m (2 * 2 ^ Z.of_nat k) ltac:(lia)) as E2.
      pose proof (Z.mod_pos_bound m (2 * 2 ^ Z.of_nat k) ltac:(lia)) as B2.
      set (q := m / 2 ^ Z.of_nat k) in *.
      rewrite <- Z.negb_even, negb_false_iff, Z.even_spec.
      split.
      * intros [[c Hc] [Hmod Hl]]. split; [ | assumption ].
        rewrite Hc, Hmod in E1.
        symmetry. apply (Z.mod_unique_pos _ _ c); lia.
      * intros [Hmod Hl].
        rewrite Hmod, Z.add_0_r in E2.
        destruct (Z.div_mod_unique (2 ^ Z.of_nat k) q
                    (2 * (m / (2 * 2 ^ Z.of_nat k)))
                    (m mod 2 ^ Z.of_nat k) 0) as [Hq Hr0]; try lia.
        split; [ eexists; exact Hq | split; [ exact Hr0 | exact Hl ] ].
Qed.

Lemma Zdigits2_mono (a b : Z) : 0 <= a <= b -> Zdigits2 a <= Zdigits2 b.
Proof.
  intros [Ha Hab].
  destruct (Z.eq_dec b 0) as [-> | Hb].
  - assert (a = 0) by lia. subst a. lia.
  - apply Zdigits2_le; [ assumption | apply Zdigits2_nonneg | ].
    pose proof (Zdigits2_bounds b ltac:(lia)). lia.
Qed.

Lemma Zdigits2_div_pow2 (m n : Z) :
  0 <= n -> 0 < m / 2 ^ n -> Zdigits2 (m / 2 ^ n) = Zdigits2 m - n.
Proof.
  intros Hn Hq.
  assert (Hp : 0 < 2 ^ n) by (apply Z.pow_pos_nonneg; lia).
  assert (Hm : 2 ^ n <= m).
  { destruct (Z_lt_le_dec m (2 ^ n)) as [Hlt | ]; [ exfalso | assumption ].
    destruct (Z_lt_le_dec m 0) as [Hneg | Hnn].
    - pose proof (Z.div_lt_upper_bound m (2 ^ n) 0 Hp ltac:(lia)). lia.
    - rewrite Z.div_small in Hq by lia. lia. }
  pose proof (Zdigits2_bounds m ltac:(lia)) as [Dlo Dhi].
  pose proof (Zdigits2_gt m n Hn Hm) as Dn.
  apply Zdigits2_unique; [ assumption | split ].
  - apply Z.div_le_lower_bound; [ assumption | ].
    rewrite <- Z.pow_add_r by lia.
    replace (n + (Zdigits2 m - n - 1)) with (Zdigits2 m - 1) by lia. assumption.
  - apply Z.div_lt_upper_bound; [ assumption | ].
    rewrite <- Z.pow_add_r by lia.
    replace (n + (Zdigits2 m - n)) with (Zdigits2 m) by lia. assumption.
Qed.

Lemma fexp_mono (a b : Z) : a <= b -> fexp prec emax a <= fexp prec emax b.
Proof. rewrite !fexp_eq. lia. Qed.

(** The first component of [shr_fexp]: the mantissa is cut down to the
    exponent [fexp] asks for. *)
Lemma shr_fexp_spec (m e : Z) (l : location) :
  0 <= m -> e <= fexp prec emax (Zdigits2 m + e) ->
  exists r,
    shr_fexp prec emax m e l = (r, fexp prec emax (Zdigits2 m + e))
    /\ shr_m r = m / 2 ^ (fexp prec emax (Zdigits2 m + e) - e)
    /\ (loc_of_shr_record r = loc_Exact
        <-> m mod 2 ^ (fexp prec emax (Zdigits2 m + e) - e) = 0 /\ l = loc_Exact).
Proof.
  intros Hm He. unfold shr_fexp, shr.
  set (e1 := fexp prec emax (Zdigits2 m + e)) in *.
  change (Z.sub e1 e) with (e1 - e).
  destruct (e1 - e) as [ | p | p ] eqn:En; try lia.
  - exists (shr_record_of_loc m l).
    replace e1 with e by lia.
    rewrite shr_m_of_loc, loc_of_shr_record_of_loc.
    change (2 ^ 0) with 1. rewrite Z.div_1_r, Z.mod_1_r.
    repeat split; tauto.
  - exists (iter_pos shr_1 p (shr_record_of_loc m l)).
    change (Z.add e (Zpos p)) with (e + Zpos p).
    replace (e + Zpos p) with e1 by lia.
    rewrite iter_pos_nat.
    pose proof (shr_iter_spec m l (Pos.to_nat p) Hm) as H.
    rewrite positive_nat_Z in H. split; [ reflexivity | exact H ].
Qed.

Lemma round_nearest_even_bounds (m : Z) (l : location) :
  m <= round_nearest_even m l <= m + 1
  /\ (l = loc_Exact -> round_nearest_even m l = m).
Proof.
  destruct l as [ | [ | | ] ]; cbn [round_nearest_even];
    try destruct (Z.even m);
    (split; [ change (Zpos 1) with 1; lia | intros; congruence ]).
Qed.

(** Rounding to nearest never crosses a float: a nonnegative number at most a
    canonical float [B] rounds to a float at most [B]. The number is
    [mx * 2 ^ ex] plus the fraction of [2 ^ ex] that [lx] describes. *)
Lemma round_below (mx ex : Z) (lx : location) (Bm : positive) (Be : Z) :
  0 <= mx ->
  ex <= fexp prec emax (Zdigits2 mx + ex) ->
  ex <= Be ->
  Be = fexp prec emax (Zpos (digits2_pos Bm) + Be) ->
  Be <= emax - prec ->
  mx < Zpos Bm * 2 ^ (Be - ex) \/ (mx = Zpos Bm * 2 ^ (Be - ex) /\ lx = loc_Exact) ->
  bounded_by Bm Be (binary_round_aux prec emax false mx ex lx).
Proof.
  intros Hmx Hex HexB Bcan Bmax Hbelow.
  destruct (shr_fexp_spec mx ex lx Hmx Hex) as (r1 & E1 & Hm1 & Hl1).
  set (e1 := fexp prec emax (Zdigits2 mx + ex)) in *.
  set (n := e1 - ex) in *.
  assert (Hn : 0 <= n) by (unfold n; lia).
  assert (Hpn : 0 < 2 ^ n) by (apply Z.pow_pos_nonneg; lia).
  pose proof (digits2_pos_bounds Bm) as [_ BmHi].
  set (dB := Zpos (digits2_pos Bm)) in *.
  assert (HdB : 0 < dB) by (unfold dB; lia).
  (* the target exponent is at most the exponent of the bound *)
  assert (He1B : e1 <= Be).
  { destruct (Z.eq_dec mx 0) as [Hz | Hnz].
    - unfold e1 in *. rewrite Hz in *. cbn [Zdigits2] in *.
      rewrite fexp_eq in *. lia.
    - pose proof (Zdigits2_bounds mx ltac:(lia)) as [Dlo _].
      assert (Hp : 0 < 2 ^ (Be - ex)) by (apply Z.pow_pos_nonneg; lia).
      assert (2 ^ (Zdigits2 mx - 1) < 2 ^ (dB + (Be - ex))).
      { rewrite Z.pow_add_r by lia. nia. }
      assert (Zdigits2 mx - 1 < dB + (Be - ex)).
      { apply (Z.pow_lt_mono_r_iff 2); lia. }
      rewrite Bcan. unfold e1. apply fexp_mono. lia. }
  set (K := Be - e1).
  assert (HK : 0 <= K) by (unfold K; lia).
  assert (HpK : 0 < 2 ^ K) by (apply Z.pow_pos_nonneg; lia).
  assert (Hsplit : 2 ^ (Be - ex) = 2 ^ K * 2 ^ n).
  { rewrite <- Z.pow_add_r by lia. f_equal. unfold K, n. lia. }
  rewrite Hsplit in Hbelow.
  set (m1 := shr_m r1) in *.
  assert (Hm1nn : 0 <= m1) by (rewrite Hm1; apply Z.div_pos; lia).
  assert (Hm1B : m1 <= Zpos Bm * 2 ^ K).
  { rewrite Hm1. apply Z.div_le_upper_bound; [ assumption | ]. nia. }
  pose proof (round_nearest_even_bounds m1 (loc_of_shr_record r1)) as [Hm2 Hexact].
  set (m2 := round_nearest_even m1 (loc_of_shr_record r1)) in *.
  assert (Hm2B : m2 <= Zpos Bm * 2 ^ K).
  { destruct (Z.eq_dec m1 (Zpos Bm * 2 ^ K)) as [Heq | Hne]; [ | lia ].
    pose proof (Z.mul_div_le mx (2 ^ n) Hpn) as Hle. rewrite <- Hm1, Heq in Hle.
    assert (Hmxeq : mx = Zpos Bm * (2 ^ K * 2 ^ n)) by nia.
    destruct Hbelow as [Hlt | [_ Hlx]]; [ lia | ].
    rewrite Hexact; [ lia | ].
    apply Hl1. split; [ | assumption ].
    rewrite Hmxeq, Z.mul_assoc. apply Z_mod_mult. }
  (* the rounded mantissa still fits the exponent, or needs one more shift *)
  assert (He1' : e1 <= fexp prec emax (Zdigits2 m2 + e1)).
  { destruct (Z.eq_dec m1 0) as [Hz | Hnz].
    - assert (e1 = -1074); [ | rewrite fexp_eq; lia ].
      destruct (Z.eq_dec mx 0) as [Hz' | Hnz'].
      + unfold e1 in *. rewrite Hz' in *. cbn [Zdigits2] in *.
        rewrite fexp_eq in *. lia.
      + pose proof (Zdigits2_bounds mx ltac:(lia)) as [Dlo _].
        assert (mx < 2 ^ n).
        { destruct (Z_lt_le_dec mx (2 ^ n)) as [ | Hge ]; [ assumption | exfalso ].
          assert (1 <= mx / 2 ^ n).
          { apply Z.div_le_lower_bound; lia. }
          lia. }
        assert (Zdigits2 mx - 1 < n) by (apply (Z.pow_lt_mono_r_iff 2); lia).
        unfold n, e1 in *. rewrite fexp_eq in *. lia.
    - assert (Zdigits2 m1 = Zdigits2 mx - n).
      { rewrite Hm1. apply Zdigits2_div_pow2; [ assumption | ].
        rewrite <- Hm1. lia. }
      assert (Zdigits2 m1 <= Zdigits2 m2) by (apply Zdigits2_mono; lia).
      replace e1 with (fexp prec emax (Zdigits2 m1 + e1)) at 1.
      + apply fexp_mono. lia.
      + unfold e1 at 2. f_equal. unfold n in *. lia. }
  assert (Hm2nn : 0 <= m2) by lia.
  destruct (shr_fexp_spec m2 e1 loc_Exact Hm2nn He1') as (r2 & E2 & Hm3 & _).
  unfold binary_round_aux. rewrite E1.
  fold m1. fold m2. rewrite E2.
  set (e3 := fexp prec emax (Zdigits2 m2 + e1)) in *.
  set (n2 := e3 - e1) in *.
  assert (Hn2 : 0 <= n2) by (unfold n2; lia).
  assert (Hpn2 : 0 < 2 ^ n2) by (apply Z.pow_pos_nonneg; lia).
  destruct (shr_m r2) as [ | m3 | m3 ] eqn:Em3.
  - left. reflexivity.
  - right.
    assert (Hm2pos : 0 < m2).
    { destruct (Z.eq_dec m2 0) as [Hz | ]; [ | lia ].
      rewrite Hz, Z.div_0_l in Hm3 by lia. lia. }
    assert (He3B : e3 <= Be).
    { rewrite Bcan. unfold e3. apply fexp_mono.
      assert (Zdigits2 m2 <= dB + K); [ | unfold K; lia ].
      apply Zdigits2_le; [ lia | lia | ].
      rewrite Z.pow_add_r by lia. nia. }
    replace (Z.leb e3 (Z.sub emax prec)) with true
      by (symmetry; apply Z.leb_le; change (Z.sub emax prec) with (emax - prec); lia).
    exists m3, e3. split; [ reflexivity | ]. split; [ | split; [ assumption | ] ].
    + change (Zpos (digits2_pos m3)) with (Zdigits2 (Zpos m3)).
      rewrite Hm3. rewrite Zdigits2_div_pow2 by lia.
      unfold e3 at 1. f_equal. unfold n2. lia.
    + rewrite Hm3. apply Z.div_le_upper_bound; [ assumption | ].
      assert (2 ^ K = 2 ^ (Be - e3) * 2 ^ n2).
      { rewrite <- Z.pow_add_r by lia. f_equal. unfold K, n2. lia. }
      nia.
  - exfalso.
    assert (0 <= m2 / 2 ^ n2) by (apply Z.div_pos; lia).
    lia.
Qed.

Lemma float_of_int_100 : float_of_int 100 = S754_finite false mant_100 (-46).
Proof. vm_compute. reflexivity. Qed.

Lemma float_of_int_0 : float_of_int 0 = S754_zero false.
Proof. reflexivity. Qed.

Lemma new_location_0 (nb : Z) : new_location nb 0 = loc_Exact.
Proof.
  unfold new_location, new_location_even, new_location_odd.
  destruct (Z.even nb); reflexivity.
Qed.

Lemma div_eucl_div_mod (a b : Z) : Z.div_eucl a b = (a / b, a mod b).
Proof. unfold Z.div, Z.modulo. destruct (Z.div_eucl a b). reflexivity. Qed.

(** The quotient of two positive integers, before rounding: enough digits for
    the precision, and the location of the exact quotient past them. *)
Lemma SFdiv_core_binary_int (c t : positive) :
  let e' := Z.min (fexp prec emax (Zdigits2 (Zpos c) - Zdigits2 (Zpos t))) 0 in
  SFdiv_core_binary prec emax (Zpos c) 0 (Zpos t) 0
  = ((Zpos c * 2 ^ (- e')) / Zpos t, e',
     new_location (Zpos t) ((Zpos c * 2 ^ (- e')) mod Zpos t)).
Proof.
  intros e'. unfold SFdiv_core_binary.
  change (Z.sub (Z.add (Zdigits2 (Zpos c)) 0) (Z.add (Zdigits2 (Zpos t)) 0))
    with (Zdigits2 (Zpos c) + 0 - (Zdigits2 (Zpos t) + 0)).
  change (Z.sub 0 0) with 0.
  replace (Zdigits2 (Zpos c) + 0 - (Zdigits2 (Zpos t) + 0))
    with (Zdigits2 (Zpos c) - Zdigits2 (Zpos t)) by lia.
  fold e'.
  change (Z.sub 0 e') with (0 - e').
  replace (0 - e') with (- e') by lia.
  assert (He : e' <= 0) by (unfold e'; lia).
  assert (Hm : match - e' with
               | Zpos _ => Z.shiftl (Zpos c) (- e')
               | Z0 => Zpos c
               | Zneg _ => Z0
               end = Zpos c * 2 ^ (- e')).
  { destruct (- e') as [ | p | p ] eqn:E.
    - change (2 ^ 0) with 1. lia.
    - rewrite Z.shiftl_mul_pow2 by lia. reflexivity.
    - lia. }
  rewrite Hm, div_eucl_div_mod. reflexivity.
Qed.

(** [c / t] for [0 <= c <= t], [t > 0]: no exception, and a float in [0, 1]. *)
Lemma int_truediv_le_1 (c t : Z) :
  0 <= c <= t -> 0 < t ->
  exists q, int_truediv c t = Ok q /\ bounded_by mant_1 (-52) q.
Proof.
  intros [Hc Hct] Ht. unfold int_truediv.
  replace (t =? 0) with false by (symmetry; apply Z.eqb_neq; lia).
  destruct t as [ | pt | pt ]; try lia.
  destruct c as [ | pc | pc ]; try lia.
  - exists (S754_zero false). split; [ reflexivity | left; reflexivity ].
  - cbn [exact_int SFdiv]. rewrite SFdiv_core_binary_int. cbv zeta.
    set (d1 := Zdigits2 (Zpos pc)). set (d2 := Zdigits2 (Zpos pt)).
    set (e' := Z.min (fexp prec emax (d1 - d2)) 0).
    set (N := Zpos pc * 2 ^ (- e')).
    assert (Hd : d1 <= d2) by (apply Zdigits2_mono; lia).
    assert (He : e' <= -53) by (unfold e'; rewrite fexp_eq; lia).
    assert (Hp : 0 < 2 ^ (- e')) by (apply Z.pow_pos_nonneg; lia).
    pose proof (Z.div_mod N (Zpos pt) ltac:(lia)) as EN.
    pose proof (Z.mod_pos_bound N (Zpos pt) ltac:(lia)) as BN.
    assert (Hq : 0 <= N / Zpos pt) by (apply Z.div_pos; unfold N; lia).
    assert (Hb : bounded_by mant_1 (-52)
                   (binary_round_aux prec emax false (N / Zpos pt) e'
                      (new_location (Zpos pt) (N mod Zpos pt)))).
    { apply round_below;
        [ assumption | | lia | reflexivity | change (emax - prec) with 971; lia | ].
      - (* the quotient has the digits the precision needs *)
        apply Z.le_trans with (fexp prec emax (d1 - d2)); [ unfold e'; lia | ].
        apply fexp_mono.
        assert (d1 - d2 - e' <= Zdigits2 (N / Zpos pt)); [ | lia ].
        pose proof (Zdigits2_nonneg (N / Zpos pt)).
        destruct (Z_le_gt_dec (d1 - d2 - e') 0) as [ | Hk ]; [ lia | ].
        assert (d1 - d2 - e' - 1 < Zdigits2 (N / Zpos pt)); [ | lia ].
        apply Zdigits2_gt; [ lia | ].
        apply Z.div_le_lower_bound; [ lia | ].
        pose proof (Zdigits2_bounds (Zpos pc) ltac:(lia)) as [Clo _].
        pose proof (Zdigits2_bounds (Zpos pt) ltac:(lia)) as [_ Thi].
        fold d1 in Clo. fold d2 in Thi.
        assert (0 < d1) by (apply Zdigits2_pos; lia).
        assert (E : 2 ^ d2 * 2 ^ (d1 - d2 - e' - 1) = 2 ^ (d1 - 1) * 2 ^ (- e')).
        { rewrite <- !Z.pow_add_r by lia. f_equal. lia. }
        assert (0 < 2 ^ (d1 - d2 - e' - 1)) by (apply Z.pow_pos_nonneg; lia).
        unfold N. nia.
      - assert (E : Zpos mant_1 * 2 ^ (-52 - e') = 2 ^ (- e')).
        { change (Zpos mant_1) with (2 ^ 52). rewrite <- Z.pow_add_r by lia.
          f_equal. lia. }
        rewrite E.
        assert (HN : N <= Zpos pt * 2 ^ (- e')) by (unfold N; nia).
        destruct (Z_lt_le_dec (N / Zpos pt) (2 ^ (- e'))) as [ | Hge ];
          [ left; assumption | right ].
        assert (N / Zpos pt = 2 ^ (- e') /\ N mod Zpos pt = 0) as [E1 E2] by nia.
        split; [ assumption | ]. rewrite E2. apply new_location_0. }
    change (xorb false false) with false.
    destruct Hb as [Hz | (m & e & Hf & Hrest)].
    + rewrite Hz. exists (S754_zero false). split; [ reflexivity | left; reflexivity ].
    + rewrite Hf. eexists. split; [ reflexivity | ].
      right. exists m, e. split; [ reflexivity | assumption ].
Qed.

(** Multiplying a float of [0, 1] by [100.0] gives a float of [0, 100]. *)
Lemma float_mul_100_le_100 (q : float) :
  bounded_by mant_1 (-52) q ->
  bounded_by mant_100 (-46) (float_mul q (float_of_int 100)).
Proof.
  intros [Hz | (m & e & Hf & Hcan & He & Hm)]; rewrite float_of_int_100.
  - rewrite Hz. left. reflexivity.
  - rewrite Hf. unfold float_mul. cbn [SFmul xorb].
    change (Z.add e (-46)) with (e + -46).
    assert (Hp : 0 < 2 ^ (-52 - e)) by (apply Z.pow_pos_nonneg; lia).
    assert (E : Zpos mant_1 * 2 ^ (-52 - e) = 2 ^ (- e)).
    { change (Zpos mant_1) with (2 ^ 52). rewrite <- Z.pow_add_r by lia.
      f_equal. lia. }
    rewrite E in Hm.
    apply round_below;
      [ lia | | lia | reflexivity | change (emax - prec) with 971; lia | ].
    + pose proof (Zdigits2_bounds (Zpos m) ltac:(lia)) as [Mlo _].
      pose proof (Zdigits2_pos (Zpos m) ltac:(lia)) as Mpos.
      assert (Zdigits2 (Zpos m) + 51 < Zdigits2 (Zpos (m * mant_100))).
      { apply Zdigits2_gt; [ lia | ].
        rewrite Z.pow_add_r by lia. rewrite Pos2Z.inj_mul.
        assert (2 ^ 51 <= Zpos mant_100) by (vm_compute; discriminate).
        assert (0 < 2 ^ (Zdigits2 (Zpos m) - 1)) by (apply Z.pow_pos_nonneg; lia).
        replace (2 ^ Zdigits2 (Zpos m)) with (2 * 2 ^ (Zdigits2 (Zpos m) - 1)).
        - assert (2 * 2 ^ 51 <= Zpos mant_100) by (vm_compute; discriminate).
          nia.
        - rewrite <- Z.pow_succ_r by lia. f_equal. lia. }
      rewrite fexp_eq. lia.
    + replace (-46 - (e + -46)) with (- e) by lia.
      rewrite Pos2Z.inj_mul.
      destruct (Z.eq_dec (Zpos m) (2 ^ (- e))) as [Heq | Hne].
      * right. split; [ rewrite Heq; lia | reflexivity ].
      * left. nia.
Qed.

(** A canonical float bounded by [B] compares below [B], and above zero. *)
Lemma bounded_by_leb (Bm : positive) (Be : Z) (x : float) :
  bounded_by Bm Be x ->
  float_leb (S754_zero false) x = true
  /\ float_leb x (S754_finite false Bm Be) = true.
Proof.
  intros [Hz | (m & e & Hf & _ & He & Hm)].
  - rewrite Hz. split; reflexivity.
  - rewrite Hf. split; [ reflexivity | ].
    unfold float_leb, SFleb. cbn [SFcompare].
    destruct (Z.compare_spec e Be) as [Heq | Hlt | Hgt]; [ | reflexivity | lia ].
    subst e. rewrite Z.sub_diag in Hm. change (2 ^ 0) with 1 in Hm.
    fold (Pos.compare m Bm).
    destruct (Pos.compare_spec m Bm) as [ | | Hgt ]; try reflexivity. lia.
Qed.

(** The percentage of [c] correct answers out of [t]: computed without an
    exception, and a float between 0 and 100. *)
Lemma score_percentage_range (c t : Z) :
  0 <= c <= t -> 0 < t ->
  exists p,
    score_percentage c t = Ok p
    /\ float_leb (float_of_int 0) p = true
    /\ float_leb p (float_of_int 100) = true.
Proof.
  intros Hc Ht.
  destruct (int_truediv_le_1 c t Hc Ht) as (q & Eq & Hq).
  exists (float_mul q (float_of_int 100)).
  unfold score_percentage. rewrite Eq. cbn [obind].
  split; [ reflexivity | ].
  rewrite float_of_int_0. rewrite float_of_int_100 at 2.
  apply bounded_by_leb, float_mul_100_le_100, Hq.
Qed.

(** A number that is a canonical float rounds to itself. *)
Lemma round_exact (mx ex : Z) (Bm : positive) (Be : Z) :
  ex <= Be ->
  Be = fexp prec emax (Zpos (digits2_pos Bm) + Be) ->
  Be <= emax - prec ->
  mx = Zpos Bm * 2 ^ (Be - ex) ->
  binary_round_aux prec emax false mx ex loc_Exact = S754_finite false Bm Be.
Proof.
  intros HexB Bcan Bmax Hmx.
  assert (Hp : 0 < 2 ^ (Be - ex)) by (apply Z.pow_pos_nonneg; lia).
  pose proof (digits2_pos_bounds Bm) as [BmLo BmHi].
  set (dB := Zpos (digits2_pos Bm)) in *.
  assert (Hd : Zdigits2 mx = dB + (Be - ex)).
  { apply Zdigits2_unique; [ nia | ].
    replace (dB + (Be - ex) - 1) with ((dB - 1) + (Be - ex)) by lia.
    rewrite !Z.pow_add_r by (unfold dB; lia). nia. }
  assert (He1 : fexp prec emax (Zdigits2 mx + ex) = Be).
  { rewrite Hd. replace (dB + (Be - ex) + ex) with (dB + Be) by lia.
    symmetry. exact Bcan. }
  destruct (shr_fexp_spec mx ex loc_Exact ltac:(nia) ltac:(lia)) as (r1 & E1 & Hm1 & Hl1).
  rewrite He1 in E1, Hm1, Hl1.
  assert (Hr1 : shr_m r1 = Zpos Bm) by (rewrite Hm1, Hmx; apply Z.div_mul; lia).
  assert (Hx1 : loc_of_shr_record r1 = loc_Exact).
  { apply Hl1. split; [ | reflexivity ]. rewrite Hmx. apply Z_mod_mult. }
  assert (He2 : fexp prec emax (Zdigits2 (Zpos Bm) + Be) = Be) by (symmetry; exact Bcan).
  destruct (shr_fexp_spec (Zpos Bm) Be loc_Exact ltac:(lia) ltac:(lia)) as (r2 & E2 & Hm2 & _).
  rewrite He2 in E2, Hm2. rewrite Z.sub_diag in Hm2. change (2 ^ 0) with 1 in Hm2.
  rewrite Z.div_1_r in Hm2.
  unfold binary_round_aux. rewrite E1, Hr1, Hx1. cbn [round_nearest_even].
  rewrite E2, Hm2.
  replace (Z.leb Be (Z.sub emax prec)) with true
    by (symmetry; apply Z.leb_le; exact Bmax).
  reflexivity.
Qed.

(** [t / t] is [1.0]. *)
Lemma int_truediv_same (t : Z) :
  0 < t -> int_truediv t t = Ok (S754_finite false mant_1 (-52)).
Proof.
  intros Ht. unfold int_truediv.
  replace (t =? 0) with false by (symmetry; apply Z.eqb_neq; lia).
  destruct t as [ | pt | pt ]; try lia.
  cbn [exact_int SFdiv]. rewrite SFdiv_core_binary_int. cbv zeta.
  rewrite Z.sub_diag.
  change (Z.min (fexp prec emax 0) 0) with (-53).
  change (- -53) with 53.
  assert (Hp : 0 < 2 ^ 53) by (apply Z.pow_pos_nonneg; lia).
  rewrite (Z.mul_comm (Zpos pt)), Z.div_mul, Z_mod_mult, new_location_0 by lia.
  change (xorb false false) with false.
  rewrite (round_exact (2 ^ 53) (-53) mant_1 (-52)); try reflexivity; try lia.
  change (emax - prec) with 971. lia.
Qed.

(** All answers correct: the percentage is [100.0]; none correct: [0.0]. *)
Lemma score_percentage_all (t : Z) :
  0 < t -> score_percentage t t = Ok (float_of_int 100).
Proof.
  intros Ht. unfold score_percentage. rewrite int_truediv_same by assumption.
  cbn [obind]. f_equal.
Qed.

Lemma score_percentage_none (t : Z) :
  0 < t -> score_percentage 0 t = Ok (float_of_int 0).
Proof.
  intros Ht. unfold score_percentage, int_truediv.
  replace (t =? 0) with false by (symmetry; apply Z.eqb_neq; lia).
  destruct t as [ | pt | pt ]; try lia. reflexivity.
Qed.

Lemma score_percentage_bounded (c t : Z) :
  0 <= c <= t -> 0 < t ->
  exists p, score_percentage c t = Ok p /\ bounded_by mant_100 (-46) p.
Proof.
  intros Hc Ht.
  destruct (int_truediv_le_1 c t Hc Ht) as (q & Eq & Hq).
  exists (float_mul q (float_of_int 100)).
  unfold score_percentage. rewrite Eq. cbn [obind].
  split; [ reflexivity | apply float_mul_100_le_100, Hq ].
Qed.

Lemma div_half_even_bounds (n d : Z) :
  0 < d -> n / d <= div_half_even n d <= n / d + 1
           /\ (n mod d = 0 -> div_half_even n d = n / d).
Proof.
  intros Hd. unfold div_half_even.
  pose proof (Z.mod_pos_bound n d Hd).
  destruct (Z.compare_spec (2 * (n mod d)) d); try destruct (Z.even (n / d));
    (split; [ lia | intros; lia ]).
Qed.

(** A percentage of [0, 100] is printed as a number of hundredths from 0 to
    10000: the integer part, a point, and two digits. *)
Lemma format_2f_two_decimals (p : float) :
  bounded_by mant_100 (-46) p ->
  exists h,
    0 <= h <= 10000
    /\ format_2f p
       = str_of_int (h / 100) ++ lit "."
           ++ str_of_int (h mod 100 / 10) ++ str_of_int (h mod 100 mod 10).
Proof.
  intros [Hz | (m & e & Hf & _ & He & Hm)].
  - exists 0. rewrite Hz. split; [ lia | reflexivity ].
  - exists (hundredths m e). rewrite Hf. split; [ | reflexivity ].
    destruct e as [ | pe | pe ]; try lia.
    cbn [hundredths].
    assert (Hd : 0 < 2 ^ Zpos pe) by (apply Z.pow_pos_nonneg; lia).
    assert (E : 2 ^ (-46 - Zneg pe) * 2 ^ 46 = 2 ^ Zpos pe).
    { rewrite <- Z.pow_add_r by lia. f_equal. lia. }
    assert (HN : 100 * Zpos m <= 10000 * 2 ^ Zpos pe).
    { rewrite <- E. change (Zpos mant_100) with (100 * 2 ^ 46) in Hm. nia. }
    pose proof (div_half_even_bounds (100 * Zpos m) (2 ^ Zpos pe) Hd) as [[Hlo Hhi] Hex].
    assert (0 <= 100 * Zpos m / 2 ^ Zpos pe) by (apply Z.div_pos; lia).
    split; [ lia | ].
    pose proof (Z.div_mod (100 * Zpos m) (2 ^ Zpos pe) ltac:(lia)) as EN.
    pose proof (Z.mod_pos_bound (100 * Zpos m) (2 ^ Zpos pe) Hd) as BN.
    destruct (Z_lt_le_dec (100 * Zpos m / 2 ^ Zpos pe) 10000) as [ | Hge ]; [ lia | ].
    rewrite Hex; nia.
Qed.

Lemma format_2f_100 : format_2f (float_of_int 100) = lit "100.00".
Proof. vm_compute. reflexivity. Qed.

Lemma format_2f_0 : format_2f (float_of_int 0) = lit "0.00".
Proof. reflexivity. Qed.

Lemma performance_100 : performance (float_of_int 100) = lit "Excellent! Perfect score!".
Proof. vm_compute. reflexivity. Qed.

Lemma performance_0 :
  performance (float_of_int 0)
  = lit "Keep studying. There's room for improvement in your Python skills.".
Proof. vm_compute. reflexivity. Qed.

(** *** Rounding error *)

Lemma new_location_describes (nb k : Z) :
  0 <= k < nb -> loc_describes (new_location nb k) k nb.
Proof.
  intros Hk. unfold new_location, new_location_even, new_location_odd.
  destruct (Z.even nb) eqn:Ev; destruct (Z.eqb_spec k 0) as [ -> | Hk0 ];
    try reflexivity.
  - change (Z.mul (Zpos 2) k) with (2 * k).
    destruct (Z.compare_spec (2 * k) nb); cbn [loc_describes]; lia.
  - change (Z.add (Z.mul (Zpos 2) k) (Zpos 1)) with (2 * k + 1).
    assert (Hodd : Z.odd nb = true) by (rewrite <- Z.negb_even, Ev; reflexivity).
    apply Z.odd_spec in Hodd. destruct Hodd as [h Hh].
    destruct (Z.compare_spec (2 * k + 1) nb); cbn [loc_describes]; lia.
Qed.

(** The round bit after [k + 1] steps is bit [k] of the mantissa; the sticky
    bit is clear exactly when nothing below it was lost. *)
Lemma shr_iter_round (m : Z) (l : location) (k : nat) :
  0 <= m ->
  shr_r (Nat.iter (S k) shr_1 (shr_record_of_loc m l)) = Z.odd (m / 2 ^ Z.of_nat k)
  /\ (shr_s (Nat.iter (S k) shr_1 (shr_record_of_loc m l)) = false
      <-> m mod 2 ^ Z.of_nat k = 0 /\ l = loc_Exact).
Proof.
  intros Hm. rewrite Nat.iter_succ.
  destruct (shr_iter_spec m l k Hm) as [Im Il].
  set (r := Nat.iter k shr_1 (shr_record_of_loc m l)) in *.
  assert (Hp : 0 < 2 ^ Z.of_nat k) by (apply Z.pow_pos_nonneg; lia).
  assert (Hr : 0 <= shr_m r) by (rewrite Im; apply Z.div_pos; lia).
  destruct (shr_1_spec r Hr) as (_ & Sr & Ss).
  rewrite Sr, Ss, Im. split; [ reflexivity | ].
  rewrite orb_false_iff, <- loc_of_shr_record_exact. exact Il.
Qed.

(** The location after the shift of [shr_fexp] places the lost part of the
    number: the [n] low bits of the mantissa followed by the fraction [a / b]
    that the location before the shift placed. *)
Lemma shr_location (m : Z) (l : location) (a b : Z) (n : nat) :
  0 <= m -> 0 <= a < b -> loc_describes l a b ->
  loc_describes (loc_of_shr_record (Nat.iter n shr_1 (shr_record_of_loc m l)))
    (m mod 2 ^ Z.of_nat n * b + a) (2 ^ Z.of_nat n * b).
Proof.
  intros Hm Hab Hl.
  destruct n as [ | k ].
  - cbn [Nat.iter nat_rect]. rewrite loc_of_shr_record_of_loc.
    change (2 ^ Z.of_nat 0) with 1. rewrite Z.mod_1_r.
    replace (0 * b + a) with a by lia. replace (1 * b) with b by lia. exact Hl.
  - destruct (shr_iter_round m l k Hm) as [Hr Hs].
    set (r := Nat.iter (S k) shr_1 (shr_record_of_loc m l)) in *.
    rewrite Nat2Z.inj_succ, Z.pow_succ_r by lia.
    set (P := 2 ^ Z.of_nat k) in *.
    assert (HP : 0 < P) by (apply Z.pow_pos_nonneg; lia).
    pose proof (Z.div_mod m P ltac:(lia)) as E1.
    pose proof (Z.mod_pos_bound m P HP) as B1.
    pose proof (Z.div_mod m (2 * P) ltac:(lia)) as E2.
    pose proof (Z.mod_pos_bound m (2 * P) ltac:(lia)) as B2.
    pose proof (Z.div_mod (m / P) 2 ltac:(lia)) as E3.
    pose proof (Z.mod_pos_bound (m / P) 2 ltac:(lia)) as B3.
    assert (HR : m mod (2 * P) = (m / P) mod 2 * P + m mod P).
    { symmetry. apply (Z.mod_unique_pos _ _ (m / P / 2)); [ nia | ].
      rewrite E1 at 1. rewrite E3 at 1. ring. }
    assert (Hbit : Z.odd (m / P) = true <-> (m / P) mod 2 = 1).
    { rewrite Zmod_odd. destruct (Z.odd (m / P)); split; intros; congruence || lia. }
    assert (Hexact : l = loc_Exact -> a = 0) by (intros ->; exact Hl).
    assert (Hinexact : l <> loc_Exact -> 0 < a).
    { destruct l as [ | [ | | ] ]; cbn [loc_describes] in Hl; intros; try congruence; lia. }
    rewrite HR.
    destruct r as [rm rr rs]. cbn [shr_r shr_s loc_of_shr_record] in *.
    destruct rr, rs; cbn [loc_describes].
    + (* more than one half *)
      assert ((m / P) mod 2 = 1) by (apply Hbit; auto).
      assert (0 < m mod P \/ 0 < a).
      { destruct (Z.eq_dec (m mod P) 0) as [Hz | ]; [ right | lia ].
        apply Hinexact. intros Hx. destruct Hs as [_ Hs]. discriminate Hs. auto. }
      nia.
    + (* one half *)
      assert ((m / P) mod 2 = 1) by (apply Hbit; auto).
      destruct Hs as [Hs _]. destruct (Hs eq_refl) as [Hz Hx].
      rewrite Hz, (Hexact Hx). nia.
    + (* less than one half *)
      assert ((m / P) mod 2 = 0).
      { destruct (Z.eq_dec ((m / P) mod 2) 1) as [H1 | ]; [ | lia ].
        apply Hbit in H1. congruence. }
      assert (0 < m mod P \/ 0 < a).
      { destruct (Z.eq_dec (m mod P) 0) as [Hz | ]; [ right | lia ].
        apply Hinexact. intros Hx. destruct Hs as [_ Hs]. discriminate Hs. auto. }
      nia.
    + (* nothing lost *)
      assert ((m / P) mod 2 = 0).
      { destruct (Z.eq_dec ((m / P) mod 2) 1) as [H1 | ]; [ | lia ].
        apply Hbit in H1. congruence. }
      destruct Hs as [Hs _]. destruct (Hs eq_refl) as [Hz Hx].
      rewrite Hz, (Hexact Hx). nia.
Qed.

(** Rounding to nearest moves a mantissa by at most half a unit. *)
Lemma round_nearest_even_error (m : Z) (l : location) (a b : Z) :
  0 <= a < b -> loc_describes l a b ->
  2 * Z.abs (round_nearest_even m l * b - (m * b + a)) <= b.
Proof.
  intros Hab Hl.
  destruct l as [ | [ | | ] ]; cbn [round_nearest_even loc_describes] in *;
    try destruct (Z.even m); change (Zpos 1) with 1; nia.
Qed.

Lemma shr_fexp_location (m e : Z) (l : location) (a b : Z) :
  0 <= m -> e <= fexp prec emax (Zdigits2 m + e) ->
  0 <= a < b -> loc_describes l a b ->
  exists r,
    shr_fexp prec emax m e l = (r, fexp prec emax (Zdigits2 m + e))
    /\ shr_m r = m / 2 ^ (fexp prec emax (Zdigits2 m + e) - e)
    /\ loc_describes (loc_of_shr_record r)
         (m mod 2 ^ (fexp prec emax (Zdigits2 m + e) - e) * b + a)
         (2 ^ (fexp prec emax (Zdigits2 m + e) - e) * b).
Proof.
  intros Hm He Hab Hl. unfold shr_fexp, shr.
  set (e1 := fexp prec emax (Zdigits2 m + e)) in *.
  change (Z.sub e1 e) with (e1 - e).
  destruct (e1 - e) as [ | p | p ] eqn:En; try lia.
  - exists (shr_record_of_loc m l).
    replace e1 with e by lia.
    pose proof (shr_location m l a b 0 Hm Hab Hl) as H.
    cbn [Nat.iter nat_rect] in H. change (Z.of_nat 0) with 0 in H.
    rewrite shr_m_of_loc. change (2 ^ 0) with 1 in *. rewrite Z.div_1_r.
    split; [ reflexivity | split; [ reflexivity | exact H ] ].
  - exists (iter_pos shr_1 p (shr_record_of_loc m l)).
    change (Z.add e (Zpos p)) with (e + Zpos p).
    replace (e + Zpos p) with e1 by lia.
    rewrite iter_pos_nat.
    pose proof (shr_iter_spec m l (Pos.to_nat p) Hm) as [H1 _].
    pose proof (shr_location m l a b (Pos.to_nat p) Hm Hab Hl) as H2.
    rewrite positive_nat_Z in H1, H2.
    split; [ reflexivity | split; assumption ].
Qed.

(** The value of a rounded number: the mantissa [m2] at the exponent [fexp]
    asks for, within half a unit of the number [(mx + a / b) * 2 ^ ex]. The
    float returned holds that value, or is the infinity when it is out of
    range. *)
Lemma binary_round_aux_value (mx ex : Z) (lx : location) (a b : Z) :
  0 <= mx ->
  ex <= fexp prec emax (Zdigits2 mx + ex) ->
  0 <= a < b -> loc_describes lx a b ->
  exists m2,
    0 <= m2
    /\ 2 * Z.abs (m2 * (2 ^ (fexp prec emax (Zdigits2 mx + ex) - ex) * b) - (mx * b + a))
       <= 2 ^ (fexp prec emax (Zdigits2 mx + ex) - ex) * b
    /\ (binary_round_aux prec emax false mx ex lx = S754_zero false /\ m2 = 0
        \/ exists m3 e3,
             (binary_round_aux prec emax false mx ex lx = S754_finite false m3 e3
              \/ binary_round_aux prec emax false mx ex lx = S754_infinity false)
             /\ fexp prec emax (Zdigits2 mx + ex) <= e3
             /\ Zpos m3 * 2 ^ (e3 - fexp prec emax (Zdigits2 mx + ex)) = m2).
Proof.
  intros Hmx Hex Hab Hlx.
  destruct (shr_fexp_location mx ex lx a b Hmx Hex Hab Hlx) as (r1 & E1 & Hm1 & Hl1).
  set (e1 := fexp prec emax (Zdigits2 mx + ex)) in *.
  set (n := e1 - ex) in *.
  assert (Hn : 0 <= n) by (unfold n; lia).
  assert (Hpn : 0 < 2 ^ n) by (apply Z.pow_pos_nonneg; lia).
  pose proof (Z.div_mod mx (2 ^ n) ltac:(lia)) as EN.
  pose proof (Z.mod_pos_bound mx (2 ^ n) Hpn) as BN.
  set (m1 := shr_m r1) in *.
  assert (Hm1nn : 0 <= m1) by (rewrite Hm1; apply Z.div_pos; lia).
  assert (Hab' : 0 <= mx mod 2 ^ n * b + a < 2 ^ n * b) by nia.
  pose proof (round_nearest_even_error m1 _ _ _ Hab' Hl1) as Herr.
  pose proof (round_nearest_even_bounds m1 (loc_of_shr_record r1)) as [Hm2 _].
  set (m2 := round_nearest_even m1 (loc_of_shr_record r1)) in *.
  replace (m1 * (2 ^ n * b) + (mx mod 2 ^ n * b + a)) with (mx * b + a) in Herr
    by (rewrite Hm1; rewrite EN at 1; ring).
  exists m2. split; [ lia | ]. split; [ exact Herr | ].
  (* the second shift: none, or one bit off a power of two *)
  assert (Hn2 : e1 <= fexp prec emax (Zdigits2 m2 + e1)
                /\ (2 ^ (fexp prec emax (Zdigits2 m2 + e1) - e1) | m2)).
  { destruct (Z.eq_dec m1 0) as [Hz | Hnz].
    - assert (He1 : e1 = -1074).
      { destruct (Z.eq_dec mx 0) as [Hz' | Hnz'].
        + unfold e1 in *. rewrite Hz' in *. cbn [Zdigits2] in *.
          rewrite fexp_eq in *. lia.
        + pose proof (Zdigits2_bounds mx ltac:(lia)) as [Dlo _].
          assert (mx < 2 ^ n).
          { destruct (Z_lt_le_dec mx (2 ^ n)) as [ | Hge ]; [ assumption | exfalso ].
            assert (1 <= mx / 2 ^ n) by (apply Z.div_le_lower_bound; lia).
            lia. }
          assert (Zdigits2 mx - 1 < n) by (apply (Z.pow_lt_mono_r_iff 2); lia).
          unfold n, e1 in *. rewrite fexp_eq in *. lia. }
      assert (Zdigits2 m2 <= 1).
      { apply Zdigits2_le; [ lia | lia | change (2 ^ 1) with 2; lia ]. }
      pose proof (Zdigits2_nonneg m2).
      rewrite fexp_eq, He1.
      replace (Z.max (Zdigits2 m2 + -1074 - 53) (-1074) - -1074) with 0 by lia.
      split; [ lia | apply Z.divide_1_l ].
    - assert (D1 : Zdigits2 m1 = Zdigits2 mx - n).
      { rewrite Hm1. apply Zdigits2_div_pow2; [ assumption | ].
        rewrite <- Hm1. lia. }
      assert (Efix : fexp prec emax (Zdigits2 m1 + e1) = e1).
      { unfold e1 at 2. f_equal. unfold n in *. lia. }
      pose proof (Zdigits2_bounds m1 ltac:(lia)) as [_ M1hi].
      pose proof (Zdigits2_pos m1 ltac:(lia)) as D1pos.
      destruct (Z_lt_le_dec m2 (2 ^ Zdigits2 m1)) as [Hlt | Hge].
      + assert (Zdigits2 m2 = Zdigits2 m1).
        { apply Z.le_antisymm.
          - apply Zdigits2_le; lia.
          - apply Zdigits2_mono. lia. }
        replace (Zdigits2 m2) with (Zdigits2 m1). rewrite Efix, Z.sub_diag.
        split; [ lia | apply Z.divide_1_l ].
      + assert (Em2 : m2 = 2 ^ Zdigits2 m1) by lia.
        assert (Zdigits2 m2 = Zdigits2 m1 + 1).
        { apply Zdigits2_unique; [ lia | ].
          replace (Zdigits2 m1 + 1 - 1) with (Zdigits2 m1) by lia.
          rewrite Z.pow_add_r by lia. change (2 ^ 1) with 2. lia. }
        replace (Zdigits2 m2) with (Zdigits2 m1 + 1).
        rewrite fexp_eq in Efix |- *.
        assert (Hcase : Z.max (Zdigits2 m1 + 1 + e1 - 53) (-1074) - e1 = 0
                        \/ Z.max (Zdigits2 m1 + 1 + e1 - 53) (-1074) - e1 = 1) by lia.
        split; [ lia | ].
        destruct Hcase as [-> | ->]; [ apply Z.divide_1_l | ].
        rewrite Em2. exists (2 ^ (Zdigits2 m1 - 1)).
        change (2 ^ 1) with 2. rewrite Z.mul_comm, <- Z.pow_succ_r by lia.
        f_equal. lia. }
  destruct Hn2 as [He1' Hdiv].
  destruct (shr_fexp_spec m2 e1 loc_Exact ltac:(lia) He1') as (r2 & E2 & Hm3 & _).
  unfold binary_round_aux. rewrite E1. fold m1. fold m2. rewrite E2.
  set (e3 := fexp prec emax (Zdigits2 m2 + e1)) in *.
  assert (Hp2 : 0 < 2 ^ (e3 - e1)) by (apply Z.pow_pos_nonneg; lia).
  assert (Hback : shr_m r2 * 2 ^ (e3 - e1) = m2).
  { rewrite Hm3. destruct Hdiv as [k Hk]. rewrite Hk at 1.
    rewrite Z.div_mul by lia. symmetry. exact Hk. }
  destruct (shr_m r2) as [ | m3 | m3 ] eqn:Em3.
  - left. split; [ reflexivity | lia ].
  - right. exists m3, e3. split; [ | split; [ assumption | exact Hback ] ].
    destruct (Z.leb e3 (Z.sub emax prec)); [ left | right ]; reflexivity.
  - exfalso. nia.
Qed.

(** *** The percentage as a number *)

(** [c / t] is within [2 ^ -53] of the quotient. *)
Lemma int_truediv_error (c t : Z) (q : float) :
  0 <= c <= t -> 0 < t ->
  int_truediv c t = Ok q ->
  Z.abs (scaled q * t - c * 2 ^ 1120) * 2 ^ 53 <= t * 2 ^ 1120.
Proof.
  intros [Hc Hct] Ht Eq.
  assert (HS : 0 < 2 ^ 1120) by (apply Z.pow_pos_nonneg; lia).
  destruct (int_truediv_le_1 c t (conj Hc Hct) Ht) as (q' & Eq' & Hq).
  assert (q' = q) by congruence. subst q'. clear Eq'.
  unfold int_truediv in Eq.
  replace (t =? 0) with false in Eq by (symmetry; apply Z.eqb_neq; lia).
  destruct t as [ | pt | pt ]; try lia.
  destruct c as [ | pc | pc ]; try lia.
  - cbn in Eq. injection Eq as <-. cbn [scaled]. nia.
  - cbn [exact_int SFdiv] in Eq. rewrite SFdiv_core_binary_int in Eq. cbv zeta in Eq.
    change (xorb false false) with false in Eq.
    set (d1 := Zdigits2 (Zpos pc)) in *. set (d2 := Zdigits2 (Zpos pt)) in *.
    set (e' := Z.min (fexp prec emax (d1 - d2)) 0) in *.
    set (N := Zpos pc * 2 ^ (- e')) in *.
    assert (Hd : d1 <= d2) by (apply Zdigits2_mono; lia).
    assert (He : -1074 <= e' <= -53) by (unfold e'; rewrite fexp_eq; lia).
    assert (Hp : 0 < 2 ^ (- e')) by (apply Z.pow_pos_nonneg; lia).
    pose proof (Z.div_mod N (Zpos pt) ltac:(lia)) as EN.
    pose proof (Z.mod_pos_bound N (Zpos pt) ltac:(lia)) as BN.
    assert (Hq0 : 0 <= N / Zpos pt) by (apply Z.div_pos; unfold N; lia).
    set (mx := N / Zpos pt) in *.
    set (e1 := fexp prec emax (Zdigits2 mx + e')).
    (* the target exponent *)
    assert (Hmx : mx <= 2 ^ (- e')).
    { apply Z.div_le_upper_bound; [ lia | ]. unfold N. nia. }
    assert (Hdig : Zdigits2 mx <= - e' + 1).
    { apply Zdigits2_le; [ lia | lia | ].
      rewrite Z.pow_add_r by lia. change (2 ^ 1) with 2. lia. }
    assert (Hlow : e' <= e1).
    { unfold e1.
      apply Z.le_trans with (fexp prec emax (d1 - d2)); [ unfold e'; lia | ].
      apply fexp_mono.
      assert (d1 - d2 - e' <= Zdigits2 mx); [ | lia ].
      pose proof (Zdigits2_nonneg mx).
      destruct (Z_le_gt_dec (d1 - d2 - e') 0) as [ | Hk ]; [ lia | ].
      assert (d1 - d2 - e' - 1 < Zdigits2 mx); [ | lia ].
      apply Zdigits2_gt; [ lia | ].
      apply Z.div_le_lower_bound; [ lia | ].
      pose proof (Zdigits2_bounds (Zpos pc) ltac:(lia)) as [Clo _].
      pose proof (Zdigits2_bounds (Zpos pt) ltac:(lia)) as [_ Thi].
      fold d1 in Clo. fold d2 in Thi.
      assert (0 < d1) by (apply Zdigits2_pos; lia).
      assert (E : 2 ^ d2 * 2 ^ (d1 - d2 - e' - 1) = 2 ^ (d1 - 1) * 2 ^ (- e')).
      { rewrite <- !Z.pow_add_r by lia. f_equal. lia. }
      assert (0 < 2 ^ (d1 - d2 - e' - 1)) by (apply Z.pow_pos_nonneg; lia).
      unfold N. nia. }
    assert (Hhigh : e1 <= -52) by (unfold e1; rewrite fexp_eq; lia).
    destruct (binary_round_aux_value mx e' (new_location (Zpos pt) (N mod Zpos pt))
                (N mod Zpos pt) (Zpos pt) Hq0 Hlow BN
                (new_location_describes _ _ BN))
      as (m2 & Hm2 & Herr & Hres).
    fold e1 in Herr, Hres.
    replace (mx * Zpos pt + N mod Zpos pt) with N in Herr by (unfold mx; lia).
    (* the float holds [m2 * 2 ^ e1] *)
    assert (Hval : scaled q = m2 * 2 ^ (e1 + 1120)).
    { destruct Hres as [[Hz ->] | (m3 & e3 & Hr & He3 & Hm3)].
      - rewrite Hz in Eq. injection Eq as <-. reflexivity.
      - destruct Hr as [Hr | Hr]; rewrite Hr in Eq; [ | discriminate ].
        injection Eq as <-. cbn [scaled]. rewrite <- Hm3, <- Z.mul_assoc.
        rewrite <- Z.pow_add_r by lia. do 2 f_equal. lia. }
    rewrite Hval.
    set (n := e1 - e') in *.
    assert (Hn : 0 <= n) by (unfold n; lia).
    assert (Hpn : 0 < 2 ^ n) by (apply Z.pow_pos_nonneg; lia).
    set (w := 2 ^ (1120 + e')).
    assert (Hw : 0 < w) by (apply Z.pow_pos_nonneg; lia).
    assert (E1 : 2 ^ (e1 + 1120) = 2 ^ n * w).
    { unfold w. rewrite <- Z.pow_add_r by lia. f_equal. unfold n. lia. }
    assert (E2 : 2 ^ 1120 = 2 ^ (- e') * w).
    { unfold w. rewrite <- Z.pow_add_r by lia. f_equal. lia. }
    assert (E3 : 2 ^ 1120 = 2 ^ (e1 + 1120) * 2 ^ (- e1)).
    { rewrite <- Z.pow_add_r by lia. f_equal. lia. }
    assert (E4 : 2 ^ (- e1) = 2 ^ 52 * 2 ^ (- e1 - 52)).
    { rewrite <- Z.pow_add_r by lia. f_equal. lia. }
    assert (0 < 2 ^ (- e1 - 52)) by (apply Z.pow_pos_nonneg; lia).
    replace (m2 * 2 ^ (e1 + 1120) * Zpos pt - Zpos pc * 2 ^ 1120)
      with ((m2 * (2 ^ n * Zpos pt) - N) * w)
      by (rewrite E1, E2; unfold N; ring).
    rewrite Z.abs_mul, (Z.abs_eq w) by lia.
    assert (Hmain : 2 * (Z.abs (m2 * (2 ^ n * Zpos pt) - N) * w) <= Zpos pt * 2 ^ (e1 + 1120)).
    { rewrite E1. nia. }
    rewrite E3, E4. change (2 ^ 53) with (2 * 2 ^ 52).
    set (X := Z.abs (m2 * (2 ^ n * Zpos pt) - N) * w) in *.
    set (Y := 2 ^ (e1 + 1120)) in *.
    assert (0 < Y) by (apply Z.pow_pos_nonneg; lia).
    assert (0 <= X) by (unfold X; apply Z.mul_nonneg_nonneg; lia).
    nia.
Qed.

(** The product with [100.0] is within [2 ^ -47] of 100 times the factor. *)
Lemma float_mul_100_error (q : float) :
  bounded_by mant_1 (-52) q ->
  Z.abs (scaled (float_mul q (float_of_int 100)) - 100 * scaled q) * 2 ^ 47 <= 2 ^ 1120.
Proof.
  intros Hq.
  assert (HS : 0 < 2 ^ 1120) by (apply Z.pow_pos_nonneg; lia).
  pose proof (float_mul_100_le_100 q Hq) as Hp.
  destruct Hq as [Hz | (m & e & Hf & Hcan & He & Hm)].
  - rewrite Hz, float_of_int_100. cbn [float_mul SFmul xorb scaled]. lia.
  - rewrite Hf, float_of_int_100 in Hp |- *. unfold float_mul in *.
    cbn [SFmul xorb] in Hp |- *. change (Z.add e (-46)) with (e + -46) in *.
    set (mx := Zpos (m * mant_100)) in *. set (ex := e + -46) in *.
    set (e1 := fexp prec emax (Zdigits2 mx + ex)).
    assert (Hemin : -1074 <= e) by (rewrite Hcan, fexp_eq; lia).
    assert (Hp1 : 0 < 2 ^ (-52 - e)) by (apply Z.pow_pos_nonneg; lia).
    assert (E : Zpos mant_1 * 2 ^ (-52 - e) = 2 ^ (- e)).
    { change (Zpos mant_1) with (2 ^ 52). rewrite <- Z.pow_add_r by lia.
      f_equal. lia. }
    rewrite E in Hm.
    assert (Hmx : mx = 100 * Zpos m * 2 ^ 46).
    { unfold mx. rewrite Pos2Z.inj_mul. change (Zpos mant_100) with (100 * 2 ^ 46). ring. }
    assert (Hlow : ex <= e1).
    { pose proof (Zdigits2_pos (Zpos m) ltac:(lia)) as Mpos.
      pose proof (Zdigits2_bounds (Zpos m) ltac:(lia)) as [Mlo _].
      assert (Zdigits2 (Zpos m) + 51 < Zdigits2 mx).
      { apply Zdigits2_gt; [ lia | ].
        rewrite Z.pow_add_r by lia. rewrite Hmx.
        assert (0 < 2 ^ (Zdigits2 (Zpos m) - 1)) by (apply Z.pow_pos_nonneg; lia).
        replace (2 ^ Zdigits2 (Zpos m)) with (2 * 2 ^ (Zdigits2 (Zpos m) - 1)).
        - change (2 ^ 51) with 2251799813685248.
          change (2 ^ 46) with 70368744177664. nia.
        - rewrite <- Z.pow_succ_r by lia. f_equal. lia. }
      unfold e1, ex. rewrite fexp_eq. lia. }
    assert (Hhigh : e1 <= -46).
    { assert (Zdigits2 mx <= - e + 53); [ | unfold e1, ex; rewrite fexp_eq; lia ].
      apply Zdigits2_le; [ lia | lia | ].
      rewrite Hmx, Z.pow_add_r by lia.
      assert (0 < 2 ^ (- e)) by (apply Z.pow_pos_nonneg; lia).
      change (2 ^ 53) with (128 * 2 ^ 46). change (2 ^ 46) with 70368744177664. nia. }
    destruct (binary_round_aux_value mx ex loc_Exact 0 1 ltac:(lia) Hlow ltac:(lia) eq_refl)
      as (m2 & Hm2 & Herr & Hres).
    fold e1 in Herr, Hres.
    set (p := binary_round_aux prec emax false mx ex loc_Exact) in *.
    assert (Hval : scaled p = m2 * 2 ^ (e1 + 1120)).
    { destruct Hres as [[Hz ->] | (m3 & e3 & Hr & He3 & Hm3)].
      - rewrite Hz. reflexivity.
      - destruct Hr as [Hr | Hr].
        + rewrite Hr. cbn [scaled]. rewrite <- Hm3, <- Z.mul_assoc.
          rewrite <- Z.pow_add_r by lia. do 2 f_equal. lia.
        + destruct Hp as [Hp | (m' & e'' & Hp & _)]; rewrite Hr in Hp; discriminate. }
    rewrite Hval. cbn [scaled].
    set (n := e1 - ex) in *.
    assert (Hn : 0 <= n) by (unfold n; lia).
    set (w := 2 ^ (ex + 1120)).
    assert (Hw : 0 < w) by (apply Z.pow_pos_nonneg; unfold ex; lia).
    assert (E1 : 2 ^ (e1 + 1120) = 2 ^ n * w).
    { unfold w. rewrite <- Z.pow_add_r by (unfold ex; lia). f_equal. unfold n. lia. }
    assert (E2 : 100 * (Zpos m * 2 ^ (e + 1120)) = mx * w).
    { rewrite Hmx. unfold w, ex.
      replace (e + 1120) with (46 + (e + -46 + 1120)) by lia.
      rewrite Z.pow_add_r by lia. ring. }
    rewrite E2, E1.
    replace (m2 * (2 ^ n * w) - mx * w) with ((m2 * (2 ^ n * 1) - (mx * 1 + 0)) * w) by ring.
    rewrite Z.abs_mul, (Z.abs_eq w) by lia.
    assert (E3 : 2 ^ 1120 = 2 ^ (e1 + 1120) * 2 ^ (- e1)).
    { rewrite <- Z.pow_add_r by lia. f_equal. lia. }
    assert (E4 : 2 ^ (- e1) = 2 ^ 46 * 2 ^ (- e1 - 46)).
    { rewrite <- Z.pow_add_r by lia. f_equal. lia. }
    assert (0 < 2 ^ (- e1 - 46)) by (apply Z.pow_pos_nonneg; lia).
    assert (0 < 2 ^ n) by (apply Z.pow_pos_nonneg; lia).
    rewrite E3, E4, E1. change (2 ^ 47) with (2 * 2 ^ 46).
    set (X := Z.abs (m2 * (2 ^ n * 1) - (mx * 1 + 0))) in *.
    assert (0 <= X) by (unfold X; lia).
    assert (2 * (X * w) <= 2 ^ n * w) by nia.
    nia.
Qed.

(** The percentage is within [2 ^ -45] of [100 * c / t]. *)
Lemma score_percentage_error (c t : Z) (p : float) :
  0 <= c <= t -> 0 < t ->
  score_percentage c t = Ok p ->
  Z.abs (scaled p * t - 100 * c * 2 ^ 1120) * 2 ^ 45 <= t * 2 ^ 1120.
Proof.
  intros Hc Ht Ep.
  destruct (int_truediv_le_1 c t Hc Ht) as (q & Eq & Hq).
  assert (Hp : p = float_mul q (float_of_int 100)).
  { unfold score_percentage in Ep. rewrite Eq in Ep. cbn [obind] in Ep. congruence. }
  rewrite Hp. clear Ep Hp p.
  pose proof (int_truediv_error c t q Hc Ht Eq) as H1.
  pose proof (float_mul_100_error q Hq) as H2.
  set (sp := scaled (float_mul q (float_of_int 100))) in *.
  set (sq := scaled q) in *.
  set (S := 2 ^ 1120) in *.
  assert (HS : 0 < S) by (apply Z.pow_pos_nonneg; lia).
  replace (sp * t - 100 * c * S) with ((sp - 100 * sq) * t + 100 * (sq * t - c * S)) by ring.
  set (A := sp - 100 * sq) in *. set (B := sq * t - c * S) in *.
  assert (HT : Z.abs (A * t + 100 * B) <= Z.abs A * t + 100 * Z.abs B).
  { pose proof (Z.abs_triangle (A * t) (100 * B)) as T.
    rewrite (Z.abs_mul A t), (Z.abs_mul 100 B), (Z.abs_eq t), (Z.abs_eq 100) in T by lia.
    exact T. }
  change (2 ^ 47) with (4 * 2 ^ 45) in H2.
  change (2 ^ 53) with (256 * 2 ^ 45) in H1.
  set (P := 2 ^ 45) in *.
  assert (0 < P) by (apply Z.pow_pos_nonneg; lia).
  pose proof (Z.abs_nonneg A). pose proof (Z.abs_nonneg B).
  assert (K3 : Z.abs (A * t + 100 * B) * P <= (Z.abs A * t + 100 * Z.abs B) * P)
    by (apply Z.mul_le_mono_nonneg_r; lia).
  assert (K4 : Z.abs A * (4 * P) * t <= S * t)
    by (apply Z.mul_le_mono_nonneg_r; lia).
  replace ((Z.abs A * t + 100 * Z.abs B) * P)
    with (Z.abs A * P * t + 100 * (Z.abs B * P)) in K3 by ring.
  replace (Z.abs A * (4 * P) * t) with (4 * (Z.abs A * P * t)) in K4 by ring.
  replace (Z.abs B * (256 * P)) with (256 * (Z.abs B * P)) in H1 by ring.
  rewrite (Z.mul_comm S t) in K4.
  lia.
Qed.

(** The percentage differs from the exact [100 * c / t] by at most
    [2 ^ -45], the rounding of the division and of the product. *)
Lemma score_percentage_close (c t : Z) (p : float) :
  0 <= c <= t -> 0 < t ->
  score_percentage c t = Ok p ->
  (Qabs (float_value p - Qmake (100 * c) (Z.to_pos t)) <= Qmake 1 (2 ^ 45))%Q.
Proof.
  intros Hc Ht Ep.
  pose proof (score_percentage_error c t p Hc Ht Ep) as Herr.
  destruct (score_percentage_bounded c t Hc Ht) as (p' & Ep' & Hb).
  assert (p' = p) by congruence. subst p'. clear Ep'.
  assert (HS : 0 < 2 ^ 1120) by (apply Z.pow_pos_nonneg; lia).
  destruct t as [ | pt | pt ]; try lia. cbn [Z.to_pos].
  destruct Hb as [Hz | (m & e & Hf & Hcan & He & _)].
  - rewrite Hz in *. cbn [scaled float_value] in *.
    unfold Qle, Qabs, Qminus, Qplus, Qopp. cbn [Qnum Qden].
    rewrite Pos2Z.inj_pow. change (Zpos 2) with 2. change (Zpos 45) with 45.
    replace (0 * Zpos pt - 100 * c * 2 ^ 1120) with (- (100 * c) * 2 ^ 1120) in Herr by ring.
    rewrite Z.abs_mul, (Z.abs_eq (2 ^ 1120)) in Herr by lia.
    replace (0 * Zpos pt + - (100 * c) * 1) with (- (100 * c)) by ring.
    change (Zpos (1 * pt)) with (Zpos pt).
    assert (0 < 2 ^ 45) by (apply Z.pow_pos_nonneg; lia).
    pose proof (Z.abs_nonneg (- (100 * c))). nia.
  - rewrite Hf in *. cbn [scaled float_value] in *.
    assert (Hemin : -1074 <= e) by (rewrite Hcan, fexp_eq; lia).
    destruct e as [ | k | k ]; try lia.
    unfold Qle, Qabs, Qminus, Qplus, Qopp. cbn [Qnum Qden].
    rewrite Pos2Z.inj_mul, !Pos2Z.inj_pow.
    change (Zpos 2) with 2. change (Zpos 45) with 45.
    set (w := 2 ^ (Zneg k + 1120)) in *.
    assert (Hw : 0 < w) by (apply Z.pow_pos_nonneg; lia).
    assert (Hk : 0 < 2 ^ Zpos k) by (apply Z.pow_pos_nonneg; lia).
    assert (E : 2 ^ 1120 = 2 ^ Zpos k * w).
    { unfold w. rewrite <- Z.pow_add_r by lia. f_equal. lia. }
    rewrite E in Herr.
    replace (Zpos m * w * Zpos pt - 100 * c * (2 ^ Zpos k * w))
      with ((Zpos m * Zpos pt + - (100 * c) * 2 ^ Zpos k) * w) in Herr by ring.
    rewrite Z.abs_mul, (Z.abs_eq w) in Herr by lia.
    set (X := Z.abs (Zpos m * Zpos pt + - (100 * c) * 2 ^ Zpos k)) in *.
    assert (0 < 2 ^ 45) by (apply Z.pow_pos_nonneg; lia).
    set (P := 2 ^ 45) in *.
    assert (X * P * w <= Zpos pt * 2 ^ Zpos k * w) by lia.
    assert (X * P <= Zpos pt * 2 ^ Zpos k) by (apply (Z.mul_le_mono_pos_r _ _ w); assumption).
    lia.
Qed.

Lemma div_half_even_nearest (n d : Z) :
  0 < d -> 2 * Z.abs (div_half_even n d * d - n) <= d.
Proof.
  intros Hd. unfold div_half_even.
  pose proof (Z.div_mod n d ltac:(lia)) as E.
  pose proof (Z.mod_pos_bound n d Hd) as B.
  destruct (Z.compare_spec (2 * (n mod d)) d); try destruct (Z.even (n / d)); nia.
Qed.

(** The two decimals printed are the hundredths nearest to the float. *)
Lemma format_2f_nearest (p : float) :
  bounded_by mant_100 (-46) p ->
  exists h,
    0 <= h <= 10000
    /\ format_2f p
       = str_of_int (h / 100) ++ lit "."
           ++ str_of_int (h mod 100 / 10) ++ str_of_int (h mod 100 mod 10)
    /\ (Qabs (float_value p - (h # 100)) <= 1 # 200)%Q.
Proof.
  intros Hb. destruct (format_2f_two_decimals p Hb) as (h & Hh & Hfmt).
  destruct Hb as [Hz | (m & e & Hf & Hcan & He & Hm)].
  - exists 0. rewrite Hz. split; [ lia | ]. split; [ reflexivity | ].
    cbn [float_value]. unfold Qle. cbn. lia.
  - exists (hundredths m e). rewrite Hf.
    destruct e as [ | k | k ]; try lia.
    assert (Hd : 0 < 2 ^ Zpos k) by (apply Z.pow_pos_nonneg; lia).
    pose proof (div_half_even_nearest (100 * Zpos m) (2 ^ Zpos k) Hd) as Hn.
    pose proof (div_half_even_bounds (100 * Zpos m) (2 ^ Zpos k) Hd) as [[Hlo Hhi] Hex].
    assert (0 <= 100 * Zpos m / 2 ^ Zpos k) by (apply Z.div_pos; lia).
    assert (E : 2 ^ (-46 - Zneg k) * 2 ^ 46 = 2 ^ Zpos k).
    { rewrite <- Z.pow_add_r by lia. f_equal. lia. }
    assert (HN : 100 * Zpos m <= 10000 * 2 ^ Zpos k).
    { rewrite <- E. change (Zpos mant_100) with (100 * 2 ^ 46) in Hm. nia. }
    pose proof (Z.div_mod (100 * Zpos m) (2 ^ Zpos k) ltac:(lia)) as EN.
    pose proof (Z.mod_pos_bound (100 * Zpos m) (2 ^ Zpos k) Hd) as BN.
    cbn [hundredths] in *.
    set (hh := div_half_even (100 * Zpos m) (2 ^ Zpos k)) in *.
    assert (Hrange : 0 <= hh <= 10000).
    { split; [ lia | ].
      destruct (Z_lt_le_dec (100 * Zpos m / 2 ^ Zpos k) 10000) as [ | Hge ]; [ lia | ].
      rewrite Hex; nia. }
    split; [ exact Hrange | ]. split; [ reflexivity | ].
    cbn [float_value]. unfold Qle, Qabs, Qminus, Qplus, Qopp. cbn [Qnum Qden].
    rewrite Pos2Z.inj_mul, Pos2Z.inj_pow. change (Zpos 2) with 2.
    replace (Zpos m * 100 + - hh * 2 ^ Zpos k) with (- (hh * 2 ^ Zpos k - 100 * Zpos m)) by ring.
    rewrite Z.abs_opp. lia.
Qed.

(** A canonical float has at most 53 digits, and exactly 53 above the
    smallest exponent. *)
Lemma canonical_digits (m : positive) (e : Z) :
  e = fexp prec emax (Zpos (digits2_pos m) + e) ->
  Zpos m < 2 ^ 53 /\ (-1074 < e -> 2 ^ 52 <= Zpos m).
Proof.
  intros Hcan. rewrite fexp_eq in Hcan.
  pose proof (digits2_pos_bounds m) as [Lo Hi].
  set (d := Zpos (digits2_pos m)) in *.
  assert (0 < d) by (unfold d; lia).
  split.
  - apply Z.lt_le_trans with (2 ^ d); [ assumption | ].
    apply Z.pow_le_mono_r; lia.
  - intros He. replace 52 with (d - 1) by lia. assumption.
Qed.

Lemma SFcompare_finite (m1 : positive) (e1 : Z) (m2 : positive) (e2 : Z) :
  SFcompare (S754_finite false m1 e1) (S754_finite false m2 e2)
  = Some (compare_finite m1 e1 m2 e2).
Proof. reflexivity. Qed.

Lemma compare_finite_same (m1 m2 : positive) (e : Z) :
  compare_finite m1 e m2 e = Z.compare (Zpos m1) (Zpos m2).
Proof. unfold compare_finite. rewrite Z.compare_refl. reflexivity. Qed.

Lemma compare_finite_lt (m1 : positive) (e1 : Z) (m2 : positive) (e2 : Z) :
  e1 < e2 -> compare_finite m1 e1 m2 e2 = Lt.
Proof. intros H. unfold compare_finite. rewrite (proj2 (Z.compare_lt_iff e1 e2) H). reflexivity. Qed.

Lemma compare_finite_gt (m1 : positive) (e1 : Z) (m2 : positive) (e2 : Z) :
  e2 < e1 -> compare_finite m1 e1 m2 e2 = Gt.
Proof. intros H. unfold compare_finite. rewrite (proj2 (Z.compare_gt_iff e1 e2) H). reflexivity. Qed.

Lemma float_of_int_80 : float_of_int 80 = S754_finite false mant_80 (-46).
Proof. vm_compute. reflexivity. Qed.

Lemma float_of_int_60 : float_of_int 60 = S754_finite false mant_60 (-47).
Proof. vm_compute. reflexivity. Qed.

Lemma mant_100_eq : Zpos mant_100 = 100 * 2 ^ 46.
Proof. vm_compute. reflexivity. Qed.

Lemma mant_80_eq : Zpos mant_80 = 80 * 2 ^ 46.
Proof. vm_compute. reflexivity. Qed.

Lemma mant_60_eq : Zpos mant_60 = 60 * 2 ^ 47.
Proof. vm_compute. reflexivity. Qed.

Lemma float_value_le (n : Z) (m k : positive) :
  (inject_Z n <= float_value (S754_finite false m (Zneg k)))%Q
  <-> n * 2 ^ Zpos k <= Zpos m.
Proof.
  cbn [float_value]. unfold Qle, inject_Z. cbn [Qnum Qden].
  rewrite Pos2Z.inj_pow, Z.mul_1_r. reflexivity.
Qed.

Lemma float_value_eq (n : Z) (m k : positive) :
  (float_value (S754_finite false m (Zneg k)) == inject_Z n)%Q
  <-> Zpos m = n * 2 ^ Zpos k.
Proof.
  cbn [float_value]. unfold Qeq, inject_Z. cbn [Qnum Qden].
  rewrite Pos2Z.inj_pow, Z.mul_1_r. reflexivity.
Qed.

(** On a percentage, the comparisons of the source with 100, 80 and 60 are
    the comparisons of its value. *)
Lemma thresholds_on_value (p : float) :
  bounded_by mant_100 (-46) p ->
  (float_eqb p (float_of_int 100) = true <-> (float_value p == inject_Z 100)%Q)
  /\ (float_leb (float_of_int 80) p = true <-> (inject_Z 80 <= float_value p)%Q)
  /\ (float_leb (float_of_int 60) p = true <-> (inject_Z 60 <= float_value p)%Q).
Proof.
  rewrite float_of_int_100, float_of_int_80, float_of_int_60.
  intros [Hz | (m & e & Hf & Hcan & He & Hm)].
  - rewrite Hz. cbn [float_value].
    split; [ | split ]; (split; [ intros H; discriminate H | ]);
      unfold Qeq, Qle, inject_Z; cbn [Qnum Qden]; lia.
  - rewrite Hf.
    destruct (canonical_digits m e Hcan) as [Hlt Hge].
    destruct e as [ | k | k ]; try lia.
    rewrite float_value_eq, !float_value_le.
    unfold float_eqb, float_leb, SFeqb, SFleb. rewrite !SFcompare_finite.
    assert (E52 : 2 ^ 52 = 64 * 2 ^ 46) by reflexivity.
    assert (E53 : 2 ^ 53 = 128 * 2 ^ 46) by reflexivity.
    assert (E47 : 2 ^ 47 = 2 * 2 ^ 46) by reflexivity.
    assert (E48 : 2 ^ 48 = 4 * 2 ^ 46) by reflexivity.
    assert (HP : 0 < 2 ^ 46) by reflexivity.
    pose proof mant_100_eq as M100. pose proof mant_80_eq as M80.
    pose proof mant_60_eq as M60.
    rewrite E52 in Hge. rewrite E53 in Hlt. rewrite E47 in M60.
    set (P := 2 ^ 46) in *.
    destruct (Z.eq_dec (Zpos k) 46) as [E46 | N46].
    + (* exponent -46: a value from 64 to 100 *)
      assert (k = 46%positive) by lia. subst k. fold P.
      rewrite !compare_finite_same.
      rewrite (compare_finite_lt mant_60 (-47) m (Zneg 46)) by lia.
      specialize (Hge ltac:(lia)).
      split; [ | split ].
      * destruct (Z.compare_spec (Zpos m) (Zpos mant_100));
          (split; [ intros; try discriminate; lia | intros; try reflexivity; lia ]).
      * destruct (Z.compare_spec (Zpos mant_80) (Zpos m));
          (split; [ intros; try discriminate; lia | intros; try reflexivity; lia ]).
      * split; [ intros; lia | reflexivity ].
    + (* a smaller exponent: a value below 64 *)
      assert (H47 : 2 ^ 47 <= 2 ^ Zpos k) by (apply Z.pow_le_mono_r; lia).
      rewrite E47 in H47. fold P in H47.
      rewrite (compare_finite_lt m (Zneg k) mant_100 (-46)) by lia.
      rewrite (compare_finite_gt mant_80 (-46) m (Zneg k)) by lia.
      split; [ | split ].
      * split; [ discriminate | intros; lia ].
      * split; [ discriminate | intros; lia ].
      * destruct (Z.eq_dec (Zpos k) 47) as [E47' | N47].
        -- assert (k = 47%positive) by lia. subst k.
           rewrite compare_finite_same. rewrite E47. fold P.
           destruct (Z.compare_spec (Zpos mant_60) (Zpos m));
             (split; [ intros; try discriminate; lia | intros; try reflexivity; lia ]).
        -- rewrite (compare_finite_gt mant_60 (-47) m (Zneg k)) by lia.
           assert (H48 : 2 ^ 48 <= 2 ^ Zpos k) by (apply Z.pow_le_mono_r; lia).
           rewrite E48 in H48. fold P in H48.
           split; [ discriminate | intros; lia ].
Qed.

(** ** Strings and lists *)

Lemma str_eqb_eq (a b : str) : str_eqb a b = true <-> a = b.
Proof.
  revert b. induction a as [ | x a IH ]; intros [ | y b ]; cbn [str_eqb];
    try (split; [ discriminate | discriminate ]); try tauto.
  rewrite andb_true_iff, N.eqb_eq, IH. split.
  - intros [-> ->]. reflexivity.
  - intros E. injection E. auto.
Qed.

Lemma truthy_app_cons (a : str) (c : N) (b : str) :
  truthy (Some (a ++ c :: b)) = true.
Proof. destruct a; reflexivity. Qed.

Lemma list_getitem_in_range {A : Type} (l : list A) (i : Z) :
  0 <= i < len l ->
  exists x, nth_error l (Z.to_nat i) = Some x /\ list_getitem l i = Ok x.
Proof.
  unfold len. intros Hi.
  destruct (nth_error l (Z.to_nat i)) as [ x | ] eqn:E.
  - exists x. split; [ reflexivity | ].
    unfold list_getitem.
    replace (i <? 0) with false by (symmetry; apply Z.ltb_ge; lia).
    replace (i <? 0) with false by (symmetry; apply Z.ltb_ge; lia).
    replace (Z.of_nat (List.length l) <=? i) with false
      by (symmetry; apply Z.leb_gt; lia).
    cbn [orb]. rewrite E. reflexivity.
  - apply nth_error_None in E. lia.
Qed.

Lemma nth_error_in_range {A : Type} (l : list A) (i : Z) (x : A) :
  0 <= i -> nth_error l (Z.to_nat i) = Some x -> 0 <= i < len l.
Proof.
  intros Hi E. unfold len.
  assert (Z.to_nat i < List.length l)%nat by (apply nth_error_Some; congruence).
  lia.
Qed.

(** ** The question fetcher *)

(** The accumulating loop of the source appends one [option_line] per option. *)
Lemma add_options_concat (text : str) (i : Z) (opts : list str) :
  add_options text i opts
  = text ++ List.concat (map option_line (enumerate i opts)).
Proof.
  revert text i. induction opts as [ | o opts IH ]; intros text i.
  - cbn. rewrite app_nil_r. reflexivity.
  - cbn [add_options enumerate map List.concat]. rewrite IH.
    unfold option_line at 2. cbn [fst snd].
    rewrite <- !app_assoc. reflexivity.
Qed.

Lemma get_next_question_within (cid : Z) (q : Question) :
  -1 <= cid ->
  nth_error PYTHON_QUESTION_LIST (Z.to_nat (cid + 1)) = Some q ->
  get_next_question (Some cid) = Ok (Some (rendered_text q), cid + 1).
Proof.
  intros Hc Hq.
  pose proof (nth_error_in_range PYTHON_QUESTION_LIST (cid + 1) q ltac:(lia) Hq) as Hr.
  destruct (list_getitem_in_range PYTHON_QUESTION_LIST (cid + 1) Hr) as (x & Hx & Hg).
  assert (x = q) by congruence. subst x.
  unfold get_next_question.
  replace (cid + 1 <? len PYTHON_QUESTION_LIST) with true
    by (symmetry; apply Z.ltb_lt; lia).
  rewrite Hg. cbn [obind]. rewrite add_options_concat.
  unfold rendered_text. rewrite <- !app_assoc. reflexivity.
Qed.

Lemma get_next_question_exhausted (cid : Z) :
  len PYTHON_QUESTION_LIST <= cid + 1 ->
  get_next_question (Some cid) = Ok (None, -1).
Proof.
  intros Hc. unfold get_next_question.
  replace (cid + 1 <? len PYTHON_QUESTION_LIST) with false
    by (symmetry; apply Z.ltb_ge; lia).
  reflexivity.
Qed.

Lemma get_next_question_None : get_next_question None = get_next_question (Some (-1)).
Proof. reflexivity. Qed.

Lemma truthy_rendered_text (q : Question) : truthy (Some (rendered_text q)) = true.
Proof. unfold rendered_text, nl. apply truthy_app_cons. Qed.

(** ** The answer recorder *)

Lemma record_current_answer_in_range (answer_ : str) (cid : Z) (q : Question) (s : Session) :
  0 <= cid ->
  nth_error PYTHON_QUESTION_LIST (Z.to_nat cid) = Some q ->
  record_current_answer answer_ (Some cid) s
  = (Ok (true, empty_str),
     {| data := with_answer (answer_record cid q answer_) (data s);
        saved := saved s |}).
Proof.
  intros Hc Hq.
  pose proof (nth_error_in_range _ _ _ Hc Hq) as Hr.
  destruct (list_getitem_in_range PYTHON_QUESTION_LIST cid Hr) as (x & Hx & Hg).
  assert (x = q) by congruence. subst x.
  unfold record_current_answer.
  replace (cid <? 0) with false by (symmetry; apply Z.ltb_ge; lia).
  replace (len PYTHON_QUESTION_LIST <=? cid) with false
    by (symmetry; apply Z.leb_gt; lia).
  unfold bind, lift. rewrite Hg.
  destruct s as [[slot [ l | ]] sv]; reflexivity.
Qed.

Lemma record_current_answer_negative (answer_ : str) (cid : Z) (s : Session) :
  cid < 0 ->
  record_current_answer answer_ (Some cid) s = (Ok (false, lit "No active question"), s).
Proof.
  intros Hc. unfold record_current_answer.
  replace (cid <? 0) with true by (symmetry; apply Z.ltb_lt; lia).
  reflexivity.
Qed.

Lemma record_current_answer_too_large (answer_ : str) (cid : Z) (s : Session) :
  len PYTHON_QUESTION_LIST <= cid ->
  record_current_answer answer_ (Some cid) s = (Ok (false, lit "Invalid question ID"), s).
Proof.
  intros Hc. unfold record_current_answer.
  assert (0 <= len PYTHON_QUESTION_LIST) by (unfold len; lia).
  replace (cid <? 0) with false by (symmetry; apply Z.ltb_ge; lia).
  replace (len PYTHON_QUESTION_LIST <=? cid) with true
    by (symmetry; apply Z.leb_le; lia).
  reflexivity.
Qed.

(** The recorder either refuses and leaves the session as it is, or appends
    one record. *)
Lemma record_current_answer_cases (answer_ : str) (current : option Z) (s : Session) :
  (exists error, record_current_answer answer_ current s = (Ok (false, error), s))
  \/ (exists cid q,
        record_current_answer answer_ current s
        = (Ok (true, empty_str),
           {| data := with_answer (answer_record cid q answer_) (data s);
              saved := saved s |})).
Proof.
  destruct current as [ cid | ]; [ | left; eexists; reflexivity ].
  destruct (Z_lt_le_dec cid 0) as [Hneg | Hnn].
  { left. rewrite record_current_answer_negative by assumption. eexists. reflexivity. }
  destruct (Z_le_gt_dec (len PYTHON_QUESTION_LIST) cid) as [Hbig | Hin].
  { left. rewrite record_current_answer_too_large by assumption. eexists. reflexivity. }
  right.
  destruct (list_getitem_in_range PYTHON_QUESTION_LIST cid ltac:(lia)) as (q & Hq & _).
  exists cid, q. apply record_current_answer_in_range; assumption.
Qed.

Lemma nth_error_enumerate {A : Type} (i : Z) (l : list A) (k : nat) (x : A) :
  nth_error l k = Some x ->
  nth_error (enumerate i l) k = Some (i + Z.of_nat k, x).
Proof.
  revert i k. induction l as [ | y l IH ]; intros i [ | k ] H; try discriminate.
  - cbn in *. injection H as ->. rewrite Z.add_0_r. reflexivity.
  - cbn [enumerate nth_error] in *. rewrite (IH (i + 1) k H).
    f_equal. f_equal. lia.
Qed.

Lemma length_enumerate {A : Type} (i : Z) (l : list A) :
  List.length (enumerate i l) = List.length l.
Proof.
  revert i. induction l as [ | y l IH ]; intros i; cbn; [ | rewrite IH ]; reflexivity.
Qed.

(** ** The scorer *)

Lemma count_correct_range (l : list QuizAnswerRecord) :
  0 <= count_correct l <= len l.
Proof.
  unfold count_correct, len.
  pose proof (filter_length_le is_correct l). lia.
Qed.

(** The count of the source is the count of the specification. *)
Lemma count_correct_spec (l : list QuizAnswerRecord) :
  count_correct l = spec_correct_count l.
Proof.
  unfold count_correct, len. induction l as [ | a l IH ]; [ reflexivity | ].
  cbn [filter spec_correct_count]. rewrite <- IH.
  destruct (is_correct a); cbn [List.length]; lia.
Qed.

(** The accumulating loop of the source appends one [breakdown_line] per
    record. *)
Lemma add_breakdown_concat (text : str) (i : Z) (l : list QuizAnswerRecord) :
  add_breakdown text i l
  = text ++ List.concat (map breakdown_line (enumerate i l)).
Proof.
  revert text i. induction l as [ | a l IH ]; intros text i.
  - cbn. rewrite app_nil_r. reflexivity.
  - cbn [add_breakdown enumerate map List.concat]. rewrite IH.
    unfold breakdown_line at 2. cbn [fst snd].
    rewrite <- !app_assoc. reflexivity.
Qed.

(** The scorer never raises. *)
Lemma final_response_returns (present : option (list QuizAnswerRecord)) :
  exists text, final_response present = Ok text.
Proof.
  destruct present as [ [ | a l ] | ]; try (eexists; reflexivity).
  assert (Ht : 0 < len (a :: l)) by (unfold len; cbn [List.length]; lia).
  destruct (score_percentage_range _ _ (count_correct_range (a :: l)) Ht)
    as (p & Ep & _).
  unfold final_response. rewrite Ep. cbn [obind]. eexists. reflexivity.
Qed.

(** ** The dispatcher, path by path *)

Lemma cold_start_step (message : str) (s : Session) :
  current_question_id (data s) = Absent \/ current_question_id (data s) = IsNone ->
  generate_bot_responses message s
  = match get_next_question None with
    | Ok (first_question, first_question_id) =>
        (Ok [Some BOT_WELCOME_MESSAGE; first_question],
         saving (with_id (IsInt first_question_id) (data s)) s)
    | Raise e => (Raise e, s)
    end.
Proof.
  intros Hs. unfold generate_bot_responses, bind, session_get_current_question_id.
  assert (E : match current_question_id (data s) with
              | IsInt z => Some z
              | _ => None
              end = None) by (destruct Hs as [-> | ->]; reflexivity).
  rewrite E. unfold lift.
  destruct (get_next_question None) as [ [text nid] | e ]; reflexivity.
Qed.

Lemma get_next_question_None_returns :
  exists text nid, get_next_question None = Ok (text, nid).
Proof.
  rewrite get_next_question_None.
  destruct (nth_error PYTHON_QUESTION_LIST (Z.to_nat (-1 + 1))) as [ q | ] eqn:E.
  - rewrite (get_next_question_within (-1) q) by (assumption || lia).
    eexists. eexists. reflexivity.
  - rewrite get_next_question_exhausted.
    + eexists. eexists. reflexivity.
    + apply nth_error_None in E. unfold len. lia.
Qed.

Lemma failure_step (message : str) (s : Session) (cid : Z) :
  current_question_id (data s) = IsInt cid ->
  cid < 0 \/ len PYTHON_QUESTION_LIST <= cid ->
  generate_bot_responses message s
  = (Ok [Some (if cid <? 0 then lit "No active question"
               else lit "Invalid question ID")], s).
Proof.
  intros Hs Hc. unfold generate_bot_responses, bind, session_get_current_question_id.
  rewrite Hs.
  destruct (Z.ltb_spec cid 0) as [Hneg | Hnn].
  - rewrite record_current_answer_negative by assumption. reflexivity.
  - rewrite record_current_answer_too_large by lia. reflexivity.
Qed.

Lemma next_question_step (message : str) (s : Session) (cid : Z) (q q' : Question) :
  current_question_id (data s) = IsInt cid ->
  0 <= cid ->
  nth_error PYTHON_QUESTION_LIST (Z.to_nat cid) = Some q ->
  nth_error PYTHON_QUESTION_LIST (Z.to_nat (cid + 1)) = Some q' ->
  generate_bot_responses message s
  = (Ok [Some (rendered_text q')],
     saving (with_id (IsInt (cid + 1))
               (with_answer (answer_record cid q message) (data s))) s).
Proof.
  intros Hs Hc Hq Hq'.
  unfold generate_bot_responses, bind, session_get_current_question_id.
  rewrite Hs, (record_current_answer_in_range message cid q s Hc Hq).
  cbn [negb]. unfold lift.
  rewrite (get_next_question_within cid q') by (assumption || lia).
  rewrite truthy_rendered_text. reflexivity.
Qed.

Lemma completion_step (message : str) (s : Session) (cid : Z) (q : Question) :
  current_question_id (data s) = IsInt cid ->
  0 <= cid ->
  nth_error PYTHON_QUESTION_LIST (Z.to_nat cid) = Some q ->
  len PYTHON_QUESTION_LIST = cid + 1 ->
  exists summary,
    final_response (Some (answers_of (data s) ++ [answer_record cid q message]))
    = Ok summary
    /\ generate_bot_responses message s
       = (Ok [Some summary],
          saving (with_id IsNone
                    (with_answer (answer_record cid q message) (data s))) s).
Proof.
  intros Hs Hc Hq Hlen.
  destruct (final_response_returns
              (Some (answers_of (data s) ++ [answer_record cid q message])))
    as (summary & Ef).
  exists summary. split; [ exact Ef | ].
  unfold generate_bot_responses, bind, session_get_current_question_id.
  rewrite Hs, (record_current_answer_in_range message cid q s Hc Hq).
  cbn [negb]. unfold lift.
  rewrite get_next_question_exhausted by lia.
  cbn [truthy]. unfold generate_final_response, bind, session_quiz_answers, lift.
  cbn [data with_answer quiz_answers]. rewrite Ef. reflexivity.
Qed.

(** Every stored id falls under exactly one of the four paths. *)
Lemma id_cases (v : id_slot) :
  (v = Absent \/ v = IsNone)
  \/ (exists cid, v = IsInt cid /\ (cid < 0 \/ len PYTHON_QUESTION_LIST <= cid))
  \/ (exists cid q q', v = IsInt cid /\ 0 <= cid
        /\ nth_error PYTHON_QUESTION_LIST (Z.to_nat cid) = Some q
        /\ nth_error PYTHON_QUESTION_LIST (Z.to_nat (cid + 1)) = Some q')
  \/ (exists cid q, v = IsInt cid /\ 0 <= cid
        /\ nth_error PYTHON_QUESTION_LIST (Z.to_nat cid) = Some q
        /\ len PYTHON_QUESTION_LIST = cid + 1).
Proof.
  destruct v as [ | | cid ]; [ left; left; reflexivity | left; right; reflexivity | ].
  right.
  destruct (Z_lt_le_dec cid 0) as [Hneg | Hnn].
  { left. exists cid. split; [ reflexivity | left; assumption ]. }
  destruct (Z_le_gt_dec (len PYTHON_QUESTION_LIST) cid) as [Hbig | Hin].
  { left. exists cid. split; [ reflexivity | right; assumption ]. }
  right.
  destruct (list_getitem_in_range PYTHON_QUESTION_LIST cid ltac:(lia)) as (q & Hq & _).
  destruct (Z_le_gt_dec (len PYTHON_QUESTION_LIST) (cid + 1)) as [Hlast | Hmore].
  - right. exists cid, q. repeat split; try assumption; lia.
  - left.
    destruct (list_getitem_in_range PYTHON_QUESTION_LIST (cid + 1) ltac:(lia))
      as (q' & Hq' & _).
    exists cid, q, q'. repeat split; try assumption; lia.
Qed.

(** ** Conversations *)

Lemma run_turns_cons (m : str) (ms : list str) (s : Session) :
  run_turns (m :: ms) s
  = match generate_bot_responses m s with
    | (Ok r, s1) =>
        match run_turns ms s1 with
        | (Ok rs, s2) => (Ok (r :: rs), s2)
        | (Raise e, s2) => (Raise e, s2)
        end
    | (Raise e, s1) => (Raise e, s1)
    end.
Proof. reflexivity. Qed.

(** One turn never raises, whatever the session holds. *)
Lemma generate_bot_responses_returns (message : str) (s : Session) :
  exists responses s', generate_bot_responses message s = (Ok responses, s').
Proof.
  destruct (id_cases (current_question_id (data s)))
    as [ Hcold | [ (cid & Hs & Hc) | [ (cid & q & q' & Hs & Hc & Hq & Hq')
                                     | (cid & q & Hs & Hc & Hq & Hlen) ] ] ].
  - rewrite cold_start_step by assumption.
    destruct get_next_question_None_returns as (text & nid & E). rewrite E.
    eexists. eexists. reflexivity.
  - rewrite (failure_step message s cid) by assumption. eexists. eexists. reflexivity.
  - rewrite (next_question_step message s cid q q') by assumption.
    eexists. eexists. reflexivity.
  - destruct (completion_step message s cid q Hs Hc Hq Hlen) as (summary & _ & E).
    rewrite E. eexists. eexists. reflexivity.
Qed.

(** A turn keeps every recorded answer and adds at most one. *)
Lemma generate_bot_responses_appends (message : str) (s : Session) :
  exists responses s' added,
    generate_bot_responses message s = (Ok responses, s')
    /\ answers_of (data s') = answers_of (data s) ++ added
    /\ (List.length added <= 1)%nat
    /\ (quiz_answers (data s') = None -> quiz_answers (data s) = None).
Proof.
  destruct (id_cases (current_question_id (data s)))
    as [ Hcold | [ (cid & Hs & Hc) | [ (cid & q & q' & Hs & Hc & Hq & Hq')
                                     | (cid & q & Hs & Hc & Hq & Hlen) ] ] ].
  - rewrite cold_start_step by assumption.
    destruct get_next_question_None_returns as (text & nid & E). rewrite E.
    eexists. eexists. exists []. split; [ reflexivity | ].
    cbn. rewrite app_nil_r. unfold answers_of. cbn. auto.
  - rewrite (failure_step message s cid) by assumption.
    eexists. eexists. exists []. split; [ reflexivity | ].
    rewrite app_nil_r. cbn. auto.
  - rewrite (next_question_step message s cid q q') by assumption.
    eexists. eexists. exists [answer_record cid q message].
    split; [ reflexivity | ]. cbn. split; [ reflexivity | ].
    split; [ lia | discriminate ].
  - destruct (completion_step message s cid q Hs Hc Hq Hlen) as (summary & _ & E).
    rewrite E. eexists. eexists. exists [answer_record cid q message].
    split; [ reflexivity | ]. cbn. split; [ reflexivity | ].
    split; [ lia | discriminate ].
Qed.

(** A turn keeps the stored id valid, when there is a question to ask. *)
Lemma generate_bot_responses_valid_id (message : str) (s : Session) :
  PYTHON_QUESTION_LIST <> [] ->
  valid_id (current_question_id (data s)) ->
  exists responses s',
    generate_bot_responses message s = (Ok responses, s')
    /\ valid_id (current_question_id (data s')).
Proof.
  intros Hne Hv.
  destruct (id_cases (current_question_id (data s)))
    as [ Hcold | [ (cid & Hs & Hc) | [ (cid & q & q' & Hs & Hc & Hq & Hq')
                                     | (cid & q & Hs & Hc & Hq & Hlen) ] ] ].
  - rewrite cold_start_step by assumption.
    destruct PYTHON_QUESTION_LIST as [ | q0 rest ] eqn:EL; [ congruence | ].
    rewrite <- EL in *. rewrite get_next_question_None.
    rewrite (get_next_question_within (-1) q0); [ | lia | rewrite EL; reflexivity ].
    eexists. eexists. split; [ reflexivity | ].
    cbn. rewrite EL. unfold len. cbn [List.length]. lia.
  - rewrite Hs in Hv. cbn in Hv. lia.
  - rewrite (next_question_step message s cid q q') by assumption.
    eexists. eexists. split; [ reflexivity | ]. cbn.
    apply (nth_error_in_range PYTHON_QUESTION_LIST (cid + 1) q'); [ lia | assumption ].
  - destruct (completion_step message s cid q Hs Hc Hq Hlen) as (summary & _ & E).
    rewrite E. eexists. eexists. split; [ reflexivity | ]. exact I.
Qed.

Lemma run_turns_valid_id (messages : list str) (s : Session) :
  PYTHON_QUESTION_LIST <> [] ->
  valid_id (current_question_id (data s)) ->
  exists responses s',
    run_turns messages s = (Ok responses, s')
    /\ valid_id (current_question_id (data s')).
Proof.
  intros Hne. revert s. induction messages as [ | m ms IH ]; intros s Hv.
  - exists [], s. split; [ reflexivity | assumption ].
  - destruct (generate_bot_responses_valid_id m s Hne Hv) as (r & s1 & E1 & Hv1).
    destruct (IH s1 Hv1) as (rs & s2 & E2 & Hv2).
    exists (r :: rs), s2. rewrite run_turns_cons, E1, E2. split; [ reflexivity | assumption ].
Qed.

Lemma run_turns_appends (messages : list str) (s : Session) :
  exists responses s' added,
    run_turns messages s = (Ok responses, s')
    /\ answers_of (data s') = answers_of (data s) ++ added
    /\ (List.length added <= List.length messages)%nat
    /\ (quiz_answers (data s') = None -> quiz_answers (data s) = None).
Proof.
  revert s. induction messages as [ | m ms IH ]; intros s.
  - exists [], s, []. rewrite app_nil_r. cbn. auto.
  - destruct (generate_bot_responses_appends m s) as (r & s1 & a1 & E1 & A1 & L1 & N1).
    destruct (IH s1) as (rs & s2 & a2 & E2 & A2 & L2 & N2).
    exists (r :: rs), s2, (a1 ++ a2). rewrite run_turns_cons, E1, E2.
    split; [ reflexivity | ]. rewrite A2, A1, app_assoc.
    split; [ reflexivity | ]. rewrite length_app. cbn [List.length].
    split; [ lia | auto ].
Qed.

(** From question [cid] on: each answer brings the next question, the answer
    to the last question brings the summary. *)
Lemma run_turns_from (done rest : list Question) (messages : list str) (s : Session) :
  PYTHON_QUESTION_LIST = done ++ rest ->
  rest <> [] ->
  List.length messages = List.length rest ->
  current_question_id (data s) = IsInt (len done) ->
  exists summary s',
    run_turns messages s
    = (Ok (map (fun q => [Some (rendered_text q)]) (tl rest) ++ [[Some summary]]), s')
    /\ final_response
         (Some (answers_of (data s) ++ answer_records (len done) rest messages))
       = Ok summary
    /\ current_question_id (data s') = IsNone
    /\ quiz_answers (data s')
       = Some (answers_of (data s) ++ answer_records (len done) rest messages).
Proof.
  revert done messages s.
  induction rest as [ | q rest IH ]; intros done messages s HL Hne Hlen Hs;
    [ congruence | ].
  destruct messages as [ | m ms ]; [ discriminate | ].
  assert (Hd : 0 <= len done) by (unfold len; lia).
  assert (Hq : nth_error PYTHON_QUESTION_LIST (Z.to_nat (len done)) = Some q).
  { rewrite HL. unfold len. rewrite Nat2Z.id, nth_error_app2 by lia.
    rewrite Nat.sub_diag. reflexivity. }
  destruct rest as [ | q' rest' ].
  - (* the last question *)
    destruct ms; [ | discriminate ].
    assert (HN : len PYTHON_QUESTION_LIST = len done + 1).
    { rewrite HL. unfold len. rewrite length_app. cbn [List.length]. lia. }
    destruct (completion_step m s (len done) q Hs Hd Hq HN) as (summary & Ef & E).
    exists summary. eexists. rewrite run_turns_cons, E. cbn [run_turns ret].
    cbn [answer_records]. split; [ reflexivity | ]. split; [ exact Ef | ].
    split; reflexivity.
  - (* a question follows *)
    assert (Hq' : nth_error PYTHON_QUESTION_LIST (Z.to_nat (len done + 1)) = Some q').
    { rewrite HL. unfold len.
      replace (Z.to_nat (Z.of_nat (List.length done) + 1)) with (S (List.length done)) by lia.
      rewrite nth_error_app2 by lia.
      replace (S (List.length done) - List.length done)%nat with 1%nat by lia.
      reflexivity. }
    pose proof (next_question_step m s (len done) q q' Hs Hd Hq Hq') as E.
    set (s1 := saving (with_id (IsInt (len done + 1))
                         (with_answer (answer_record (len done) q m) (data s))) s) in *.
    destruct (IH (done ++ [q]) ms s1) as (summary & s' & E' & Ef & Hid & Hans).
    + rewrite HL, <- app_assoc. reflexivity.
    + discriminate.
    + cbn [List.length] in Hlen |- *. lia.
    + unfold s1. cbn. f_equal. unfold len. rewrite length_app. cbn [List.length]. lia.
    + assert (Hl : len (done ++ [q]) = len done + 1).
      { unfold len. rewrite length_app. cbn [List.length]. lia. }
      rewrite Hl in Ef, Hans.
      assert (Ha : answers_of (data s1) = answers_of (data s) ++ [answer_record (len done) q m])
        by reflexivity.
      rewrite Ha, <- app_assoc in Ef, Hans.
      exists summary, s'. rewrite run_turns_cons, E, E'.
      cbn [answer_records tl map app] in *.
      split; [ reflexivity | ]. split; [ exact Ef | ]. split; assumption.
Qed.

Lemma cold_start_first_question
  (message : str) (s : Session) (q0 : Question) :
  current_question_id (data s) = Absent \/ current_question_id (data s) = IsNone ->
  nth_error PYTHON_QUESTION_LIST 0 = Some q0 ->
  generate_bot_responses message s
  = (Ok [Some BOT_WELCOME_MESSAGE; Some (rendered_text q0)],
     saving (with_id (IsInt 0) (data s)) s).
Proof.
  intros Hs Hq. rewrite cold_start_step by assumption.
  rewrite get_next_question_None, (get_next_question_within (-1) q0) by (assumption || lia).
  reflexivity.
Qed.

(** ** The properties of the specification *)

(** C1. Cold start: on a session whose [current_question_id] is missing (or
    [None]), whatever the message, the dispatcher returns exactly two
    messages, the welcome message and then question 0 rendered with its
    options, stores 0 as the current question id and saves the session; the
    recorded answers are not touched. Question 0 is the first entry of the
    question list. *)
Theorem cold_start_welcome_then_question_0
  (message : str) (s : Session) (q0 : Question) :
  current_question_id (data s) = Absent \/ current_question_id (data s) = IsNone ->
  nth_error PYTHON_QUESTION_LIST 0 = Some q0 ->
  exists s',
    generate_bot_responses message s
    = (Ok [Some BOT_WELCOME_MESSAGE; Some (rendered_text q0)], s')
    /\ current_question_id (data s') = IsInt 0
    /\ quiz_answers (data s') = quiz_answers (data s)
    /\ persisted_by_call s s'.
Proof.
  intros Hs Hq.
  rewrite (cold_start_first_question message s q0 Hs Hq).
  eexists. split; [ reflexivity | ]. repeat split.
Qed.

(** C2. A full pass: with N >= 1 questions, from a session without a current
    question id (a fresh session in particular), N + 1 turns return, in order,
    the welcome message with question 0, then questions 1 to N - 1 one per
    turn, and on turn N + 1 exactly one message, the final summary of the
    recorded answers; the N answers have been recorded in order, and the
    current question id is reset to [None]. *)
Theorem full_pass_ends_with_summary
  (first : str) (answers : list str) (s : Session) (q0 : Question) (rest : list Question) :
  PYTHON_QUESTION_LIST = q0 :: rest ->
  current_question_id (data s) = Absent \/ current_question_id (data s) = IsNone ->
  List.length answers = List.length PYTHON_QUESTION_LIST ->
  exists summary s',
    run_turns (first :: answers) s
    = (Ok ([Some BOT_WELCOME_MESSAGE; Some (rendered_text q0)]
             :: map (fun q => [Some (rendered_text q)]) rest
             ++ [[Some summary]]), s')
    /\ final_response
         (Some (answers_of (data s) ++ answer_records 0 PYTHON_QUESTION_LIST answers))
       = Ok summary
    /\ current_question_id (data s') = IsNone
    /\ quiz_answers (data s')
       = Some (answers_of (data s) ++ answer_records 0 PYTHON_QUESTION_LIST answers).
Proof.
  intros HL Hs Hlen.
  assert (Hq0 : nth_error PYTHON_QUESTION_LIST 0 = Some q0) by (rewrite HL; reflexivity).
  pose proof (cold_start_first_question first s q0 Hs Hq0) as E.
  set (s1 := saving (with_id (IsInt 0) (data s)) s) in *.
  destruct (run_turns_from [] PYTHON_QUESTION_LIST answers s1) as (summary & s' & E' & Ef & Hid & Hans).
  - reflexivity.
  - rewrite HL. discriminate.
  - assumption.
  - reflexivity.
  - exists summary, s'. rewrite run_turns_cons, E, E'.
    change (len []) with 0 in *.
    assert (Ha : answers_of (data s1) = answers_of (data s)) by reflexivity.
    rewrite Ha in *. rewrite HL in *. cbn [tl].
    split; [ reflexivity | ]. split; [ exact Ef | ]. split; assumption.
Qed.

(** C3. Recording an answer to a question in range: the recorder returns
    success with an empty error text and appends exactly one record to
    [quiz_answers] (starting from the empty list when the key is missing); the
    record holds the given id, the raw answer, the canonical answer of the
    question, and [is_correct], which is true exactly when the stripped answer
    equals the stripped canonical answer, character by character. Nothing else
    in the session changes. *)
Theorem record_current_answer_appends_one_record
  (answer_ : str) (cid : Z) (s : Session) :
  0 <= cid < len PYTHON_QUESTION_LIST ->
  exists q s',
    nth_error PYTHON_QUESTION_LIST (Z.to_nat cid) = Some q
    /\ record_current_answer answer_ (Some cid) s = (Ok (true, empty_str), s')
    /\ quiz_answers (data s')
       = Some (answers_of (data s)
                 ++ [{| question_id := cid;
                        user_answer := answer_;
                        correct_answer := answer q;
                        is_correct := str_eqb (strip answer_) (strip (answer q)) |}])
    /\ (str_eqb (strip answer_) (strip (answer q)) = true
        <-> strip answer_ = strip (answer q))
    /\ current_question_id (data s') = current_question_id (data s)
    /\ saved s' = saved s.
Proof.
  intros Hc.
  destruct (list_getitem_in_range PYTHON_QUESTION_LIST cid Hc) as (q & Hq & _).
  exists q. eexists. split; [ exact Hq | ].
  rewrite (record_current_answer_in_range answer_ cid q s) by (assumption || lia).
  split; [ reflexivity | ]. split; [ reflexivity | ].
  split; [ apply str_eqb_eq | ]. split; reflexivity.
Qed.

(** C4. The question fetcher reads [None] as the id -1 and takes the next id,
    the current id plus 1. If the next id is within the list (from 0 up to the
    length, excluded), the result is the rendered text of that question with
    the next id, where the rendered text is the question text, then
    "\n\nOptions:\n", then one line "{index}. {option}\n" per option,
    numbered from 1 in list order; so the options "A", "B" give a text that
    ends in "Options:\n1. A\n2. B\n". If the next id is past the end of the
    list, the result is [None] with -1. (A negative next id, which no question
    id or [None] produces, is left to [get_next_question_negative_index].) *)
Theorem get_next_question_renders_or_ends (current : option Z) :
  let next_id := match current with None => -1 | Some z => z end + 1 in
  (0 <= next_id < len PYTHON_QUESTION_LIST ->
   exists q,
     nth_error PYTHON_QUESTION_LIST (Z.to_nat next_id) = Some q
     /\ get_next_question current
        = Ok (Some (question_text q ++ nl ++ nl ++ lit "Options:" ++ nl
                      ++ List.concat (map option_line (enumerate 1 (options q)))),
              next_id)
     /\ (forall k o, nth_error (options q) k = Some o ->
         nth_error (map option_line (enumerate 1 (options q))) k
         = Some (str_of_int (Z.of_nat k + 1) ++ lit ". " ++ o ++ nl))
     /\ List.length (map option_line (enumerate 1 (options q)))
        = List.length (options q)
     /\ (options q = [lit "A"; lit "B"] ->
         get_next_question current
         = Ok (Some (question_text q ++ nl ++ nl
                       ++ lit "Options:" ++ nl ++ lit "1. A" ++ nl ++ lit "2. B" ++ nl),
               next_id)))
  /\ (len PYTHON_QUESTION_LIST <= next_id ->
      get_next_question current = Ok (None, -1)).
Proof.
  set (cid := match current with None => -1 | Some z => z end).
  assert (E : get_next_question current = get_next_question (Some cid)).
  { destruct current as [ z | ]; reflexivity. }
  cbv zeta. rewrite E. split.
  - intros Hin.
    destruct (list_getitem_in_range PYTHON_QUESTION_LIST (cid + 1) Hin)
      as (q & Hq & _).
    exists q. split; [ exact Hq | ].
    rewrite (get_next_question_within cid q ltac:(lia) Hq).
    split; [ reflexivity | ]. split; [ | split ].
    + intros k o Hk. rewrite nth_error_map, (nth_error_enumerate 1 (options q) k o Hk).
      cbn [option_map]. unfold option_line. cbn [fst snd].
      replace (1 + Z.of_nat k) with (Z.of_nat k + 1) by lia. reflexivity.
    + rewrite length_map, length_enumerate. reflexivity.
    + intros Ho. unfold rendered_text. rewrite Ho. reflexivity.
  - intros Hout. apply get_next_question_exhausted. assumption.
Qed.

(** C6. The recorder never raises: it always returns a pair of a success flag
    and a message. The id [None] or a negative id gives failure with "No
    active question"; an id at or past the length of the question list gives
    failure with "Invalid question ID"; in both cases the session is left as
    it was. Every other id gives success. So the recorder fails exactly when
    the id is [None], negative or out of range. *)
Theorem record_current_answer_fails_iff_invalid_id
  (answer_ : str) (current : option Z) (s : Session) :
  exists success error s',
    record_current_answer answer_ current s = (Ok (success, error), s')
    /\ (current = None \/ (exists cid, current = Some cid /\ cid < 0) ->
        success = false /\ error = lit "No active question" /\ s' = s)
    /\ (forall cid, current = Some cid -> len PYTHON_QUESTION_LIST <= cid ->
        success = false /\ error = lit "Invalid question ID" /\ s' = s)
    /\ (forall cid, current = Some cid -> 0 <= cid < len PYTHON_QUESTION_LIST ->
        success = true /\ error = empty_str)
    /\ (success = false
        <-> current = None
            \/ exists cid, current = Some cid
                           /\ (cid < 0 \/ len PYTHON_QUESTION_LIST <= cid)).
Proof.
  assert (Hlen : 0 <= len PYTHON_QUESTION_LIST) by (unfold len; lia).
  destruct current as [ cid | ].
  - destruct (Z_lt_le_dec cid 0) as [Hneg | Hnn];
      [ | destruct (Z_le_gt_dec (len PYTHON_QUESTION_LIST) cid) as [Hbig | Hin] ].
    + rewrite record_current_answer_negative by assumption.
      eexists. eexists. eexists. split; [ reflexivity | ].
      split; [ auto | ].
      split; [ intros c Hc; injection Hc as ->; lia | ].
      split; [ intros c Hc; injection Hc as ->; lia | ].
      split; [ intros _; right; exists cid; auto | reflexivity ].
    + rewrite record_current_answer_too_large by assumption.
      eexists. eexists. eexists. split; [ reflexivity | ].
      split; [ intros [Hn | (c & Hc & Hlt)];
               [ discriminate | injection Hc as ->; lia ] | ].
      split; [ auto | ].
      split; [ intros c Hc; injection Hc as ->; lia | ].
      split; [ intros _; right; exists cid; auto | reflexivity ].
    + destruct (list_getitem_in_range PYTHON_QUESTION_LIST cid ltac:(lia))
        as (q & Hq & _).
      rewrite (record_current_answer_in_range answer_ cid q s) by (assumption || lia).
      eexists. eexists. eexists. split; [ reflexivity | ].
      split; [ intros [Hn | (c & Hc & Hlt)];
               [ discriminate | injection Hc as ->; lia ] | ].
      split; [ intros c Hc; injection Hc as ->; lia | ].
      split; [ auto | ].
      split; [ discriminate | ].
      intros [Hn | (c & Hc & Hlt)]; [ discriminate | injection Hc as ->; lia ].
  - eexists. eexists. eexists. split; [ reflexivity | ].
    split; [ auto | ].
    split; [ discriminate | ].
    split; [ discriminate | ].
    split; [ auto | reflexivity ].
Qed.

Lemma final_response_shape (a : QuizAnswerRecord) (l : list QuizAnswerRecord) (p : float) :
  score_percentage (count_correct (a :: l)) (len (a :: l)) = Ok p ->
  final_response (Some (a :: l))
  = Ok (lit "Quiz Completed!" ++ nl ++ nl
          ++ lit "Your Score: " ++ str_of_int (count_correct (a :: l))
          ++ lit "/" ++ str_of_int (len (a :: l))
          ++ lit " (" ++ format_2f p ++ lit "%)" ++ nl ++ nl
          ++ performance p
          ++ nl ++ nl ++ lit "Detailed Breakdown:"
          ++ List.concat (map breakdown_line (enumerate 1 (a :: l)))).
Proof.
  intros Ep. unfold final_response. rewrite Ep. cbn [obind].
  rewrite add_breakdown_concat. rewrite <- !app_assoc. reflexivity.
Qed.

(** C5, as the code has it. The scorer never raises and leaves the session as
    it is. Without recorded answers (key missing, or empty list) it returns
    the fixed "no answers" message. Otherwise, with [c] the number of records
    whose [is_correct] holds and [t] the number of records, the percentage is
    the binary64 float [(c / t) * 100], not the exact [100 * c / t]: it is
    within [2 ^ -45] of it, lies between 0 and 100, and is exactly 100 when all
    answers are correct and exactly 0 when none is. The summary is the header,
    the score line "Your Score: c/t (P%)" where P is that float with two
    decimals (the nearest number of hundredths of the float, from 0.00 to
    100.00, which can differ from the one of the exact percentage), the
    remark chosen by the thresholds (equal to 100: perfect score; else at
    least 80: great; else at least 60: good; else: keep studying; the float
    comparisons of the source are the comparisons of the value of the
    percentage), and, after "Detailed Breakdown:", one line per
    record in record order, "Qk: " with the mark (check or cross) of the
    record and the raw answer of the user. *)
Theorem generate_final_response_summary (s : Session) :
  (quiz_answers (data s) = None \/ quiz_answers (data s) = Some [] ->
   generate_final_response s
   = (Ok (lit "No quiz answers found. Please complete the quiz."), s))
  /\ (forall answers,
        quiz_answers (data s) = Some answers -> answers <> [] ->
        exists p h remark,
          0 <= spec_correct_count answers <= len answers
          /\ score_percentage (spec_correct_count answers) (len answers) = Ok p
          /\ (Qabs (float_value p
                      - Qmake (100 * spec_correct_count answers) (Z.to_pos (len answers)))
               <= Qmake 1 (2 ^ 45))%Q
          /\ float_leb (float_of_int 0) p = true
          /\ float_leb p (float_of_int 100) = true
          /\ (spec_correct_count answers = len answers -> p = float_of_int 100)
          /\ (spec_correct_count answers = 0 -> p = float_of_int 0)
          /\ 0 <= h <= 10000
          /\ (Qabs (float_value p - Qmake h 100) <= Qmake 1 200)%Q
          /\ format_2f p
             = str_of_int (h / 100) ++ lit "."
                 ++ str_of_int (h mod 100 / 10) ++ str_of_int (h mod 100 mod 10)
          /\ generate_final_response s
             = (Ok (lit "Quiz Completed!" ++ nl ++ nl
                      ++ lit "Your Score: " ++ str_of_int (spec_correct_count answers)
                      ++ lit "/" ++ str_of_int (len answers)
                      ++ lit " (" ++ format_2f p ++ lit "%)" ++ nl ++ nl
                      ++ remark
                      ++ nl ++ nl ++ lit "Detailed Breakdown:"
                      ++ List.concat (map breakdown_line (enumerate 1 answers))), s)
          /\ (float_eqb p (float_of_int 100) = true <-> (float_value p == inject_Z 100)%Q)
          /\ (float_leb (float_of_int 80) p = true <-> (inject_Z 80 <= float_value p)%Q)
          /\ (float_leb (float_of_int 60) p = true <-> (inject_Z 60 <= float_value p)%Q)
          /\ (float_eqb p (float_of_int 100) = true ->
              remark = lit "Excellent! Perfect score!")
          /\ (float_eqb p (float_of_int 100) = false ->
              float_leb (float_of_int 80) p = true ->
              remark = lit "Great job! You have a strong understanding of Python.")
          /\ (float_eqb p (float_of_int 100) = false ->
              float_leb (float_of_int 80) p = false ->
              float_leb (float_of_int 60) p = true ->
              remark = lit "Good effort. You're on the right track with Python.")
          /\ (float_eqb p (float_of_int 100) = false ->
              float_leb (float_of_int 80) p = false ->
              float_leb (float_of_int 60) p = false ->
              remark
              = lit "Keep studying. There's room for improvement in your Python skills.")
          /\ List.length (map breakdown_line (enumerate 1 answers)) = List.length answers
          /\ (forall k a, nth_error answers k = Some a ->
              nth_error (map breakdown_line (enumerate 1 answers)) k
              = Some (nl ++ lit "Q" ++ str_of_int (Z.of_nat k + 1) ++ lit ": "
                         ++ (if is_correct a then [10003%N] else [10007%N])
                         ++ lit " Your answer: " ++ user_answer a))).
Proof.
  split.
  - intros [E | E]; unfold generate_final_response, bind, session_quiz_answers, lift;
      rewrite E; reflexivity.
  - intros answers E Hne.
    destruct answers as [ | a l ]; [ congruence | ].
    assert (Ht : 0 < len (a :: l)) by (unfold len; cbn [List.length]; lia).
    pose proof (count_correct_range (a :: l)) as Hc.
    destruct (score_percentage_bounded _ _ Hc Ht) as (p & Ep & Hb).
    destruct (format_2f_nearest p Hb) as (h & Hh & Hfmt & Hnear).
    destruct (bounded_by_leb _ _ _ Hb) as [Hlo Hhi].
    pose proof (score_percentage_close _ _ p Hc Ht Ep) as Hclose.
    assert (Hshape : generate_final_response s
                     = (Ok (lit "Quiz Completed!" ++ nl ++ nl
                              ++ lit "Your Score: " ++ str_of_int (count_correct (a :: l))
                              ++ lit "/" ++ str_of_int (len (a :: l))
                              ++ lit " (" ++ format_2f p ++ lit "%)" ++ nl ++ nl
                              ++ performance p
                              ++ nl ++ nl ++ lit "Detailed Breakdown:"
                              ++ List.concat (map breakdown_line (enumerate 1 (a :: l)))),
                        s)).
    { unfold generate_final_response, bind, session_quiz_answers, lift.
      rewrite E, (final_response_shape a l p Ep). reflexivity. }
    rewrite (count_correct_spec (a :: l)) in Hc, Ep, Hclose, Hshape.
    exists p, h, (performance p).
    split; [ exact Hc | ].
    split; [ exact Ep | ].
    split; [ exact Hclose | ].
    split; [ exact Hlo | ].
    split; [ rewrite float_of_int_100; exact Hhi | ].
    split; [ intros Hall; rewrite Hall, score_percentage_all in Ep by lia; congruence | ].
    split; [ intros Hnone; rewrite Hnone, score_percentage_none in Ep by lia; congruence | ].
    split; [ exact Hh | ].
    split; [ exact Hnear | ].
    split; [ exact Hfmt | ].
    split; [ exact Hshape | ].
    destruct (thresholds_on_value p Hb) as (T100 & T80 & T60).
    split; [ exact T100 | ]. split; [ exact T80 | ]. split; [ exact T60 | ].
    unfold performance.
    split; [ intros ->; reflexivity | ].
    split; [ intros -> ->; reflexivity | ].
    split; [ intros -> -> ->; reflexivity | ].
    split; [ intros -> -> ->; reflexivity | ].
    split; [ rewrite length_map, length_enumerate; reflexivity | ].
    intros k r Hk. rewrite nth_error_map, (nth_error_enumerate 1 (a :: l) k r Hk).
    cbn [option_map]. unfold breakdown_line, glyph. cbn [fst snd].
    replace (1 + Z.of_nat k) with (Z.of_nat k + 1) by lia. reflexivity.
Qed.

(** C7, as the code has it. The message "No active question" comes from the
    recorder, for the id [None] or a negative id, and the recorder then leaves
    the session as it is. The dispatcher never passes [None] to the recorder:
    on a session without a current question id it takes the cold start and
    answers with two messages, the welcome message first, leaving
    [quiz_answers] unchanged. It answers exactly ["No active question"], with
    the session unchanged, when the stored id is a negative integer. *)
Theorem no_active_question_only_from_negative_id (message : str) (s : Session) :
  record_current_answer message None s = (Ok (false, lit "No active question"), s)
  /\ (forall cid, current_question_id (data s) = IsInt cid -> cid < 0 ->
      generate_bot_responses message s = (Ok [Some (lit "No active question")], s))
  /\ (current_question_id (data s) = Absent \/ current_question_id (data s) = IsNone ->
      exists first_question s',
        generate_bot_responses message s
        = (Ok [Some BOT_WELCOME_MESSAGE; first_question], s')
        /\ quiz_answers (data s') = quiz_answers (data s)).
Proof.
  split; [ reflexivity | ]. split.
  - intros cid Hs Hc. rewrite (failure_step message s cid) by auto.
    replace (cid <? 0) with true by (symmetry; apply Z.ltb_lt; lia). reflexivity.
  - intros Hs. rewrite cold_start_step by assumption.
    destruct get_next_question_None_returns as (text & nid & E). rewrite E.
    eexists. eexists. split; reflexivity.
Qed.

(** C8, as the code has it. A turn never raises. On the cold start, the
    next-question path and the completion path, that is whenever the stored id
    is missing, [None] or the index of a question, the session is saved once,
    after the last change. When the recorder fails (the stored id is a
    negative integer or past the end of the list), the dispatcher returns the
    error message at once: the session is not changed and not saved. *)
Theorem session_saved_unless_recorder_fails (message : str) (s : Session) :
  exists responses s',
    generate_bot_responses message s = (Ok responses, s')
    /\ (valid_id (current_question_id (data s)) -> persisted_by_call s s')
    /\ (forall cid, current_question_id (data s) = IsInt cid ->
        cid < 0 \/ len PYTHON_QUESTION_LIST <= cid ->
        s' = s /\ exists error, responses = [Some error]).
Proof.
  destruct (id_cases (current_question_id (data s)))
    as [ Hcold | [ (cid & Hs & Hc) | [ (cid & q & q' & Hs & Hc & Hq & Hq')
                                     | (cid & q & Hs & Hc & Hq & Hlen) ] ] ].
  - rewrite cold_start_step by assumption.
    destruct get_next_question_None_returns as (text & nid & E). rewrite E.
    eexists. eexists. split; [ reflexivity | ].
    split; [ intros _; reflexivity | ].
    intros cid Hs. destruct Hcold; congruence.
  - rewrite (failure_step message s cid) by assumption.
    eexists. eexists. split; [ reflexivity | ].
    split; [ rewrite Hs; cbn; lia | ].
    intros _ _ _. split; [ reflexivity | eexists; reflexivity ].
  - rewrite (next_question_step message s cid q q') by assumption.
    eexists. eexists. split; [ reflexivity | ].
    split; [ intros _; reflexivity | ].
    intros c Hs' Hbad. rewrite Hs in Hs'. injection Hs' as <-.
    pose proof (nth_error_in_range PYTHON_QUESTION_LIST cid q Hc Hq). lia.
  - destruct (completion_step message s cid q Hs Hc Hq Hlen) as (summary & _ & E).
    rewrite E. eexists. eexists. split; [ reflexivity | ].
    split; [ intros _; reflexivity | ].
    intros c Hs' Hbad. rewrite Hs in Hs'. injection Hs' as <-. lia.
Qed.

(** C9. With at least one question, whatever messages are sent to a fresh
    session, no turn raises and the stored [current_question_id] is then
    missing, [None], or the index of a question of the list. *)
Theorem current_question_id_stays_valid (messages : list str) :
  PYTHON_QUESTION_LIST <> [] ->
  exists responses s',
    run_turns messages fresh_session = (Ok responses, s')
    /\ match current_question_id (data s') with
       | IsInt z => 0 <= z < len PYTHON_QUESTION_LIST
       | Absent | IsNone => True
       end.
Proof.
  intros Hne.
  destruct (run_turns_valid_id messages fresh_session Hne I) as (rs & s' & E & Hv).
  exists rs, s'. split; [ exact E | ].
  destruct (current_question_id (data s')); exact Hv.
Qed.

(** C10. Recorded answers are never removed or changed. The recorder leaves
    the list as it is or appends one record; a conversation of any length,
    from any session, across completed passes and new starts, only appends
    records, at most one per turn, so the number of records never decreases,
    and the key, once present, stays. *)
Theorem quiz_answers_only_grow (messages : list str) (s : Session) :
  (forall answer_ current,
     exists added,
       answers_of (data (snd (record_current_answer answer_ current s)))
       = answers_of (data s) ++ added
       /\ (List.length added <= 1)%nat)
  /\ exists responses s' added,
       run_turns messages s = (Ok responses, s')
       /\ answers_of (data s') = answers_of (data s) ++ added
       /\ (List.length added <= List.length messages)%nat
       /\ (List.length (answers_of (data s)) <= List.length (answers_of (data s')))%nat
       /\ (quiz_answers (data s') = None -> quiz_answers (data s) = None).
Proof.
  split.
  - intros answer_ current.
    destruct (record_current_answer_cases answer_ current s)
      as [ (error & E) | (cid & q & E) ]; rewrite E; cbn [snd].
    + exists []. rewrite app_nil_r. split; [ reflexivity | cbn; lia ].
    + exists [answer_record cid q answer_]. split; [ reflexivity | cbn; lia ].
  - destruct (run_turns_appends messages s) as (rs & s' & added & E & A & L & N).
    exists rs, s', added. split; [ exact E | ]. split; [ exact A | ].
    split; [ exact L | ]. split; [ | exact N ].
    rewrite A, length_app. lia.
Qed.

(** ** Further properties of the dispatcher and its helpers *)

Lemma run_turns_app (ms1 ms2 : list str) (s : Session) :
  run_turns (ms1 ++ ms2) s
  = match run_turns ms1 s with
    | (Ok r1, s1) =>
        match run_turns ms2 s1 with
        | (Ok r2, s2) => (Ok (r1 ++ r2), s2)
        | (Raise e, s2) => (Raise e, s2)
        end
    | (Raise e, s1) => (Raise e, s1)
    end.
Proof.
  revert s. induction ms1 as [ | m ms1 IH ]; intros s.
  - cbn [app run_turns ret].
    destruct (run_turns ms2 s) as [[r2 | e] s2]; reflexivity.
  - cbn [app]. rewrite !run_turns_cons.
    destruct (generate_bot_responses m s) as [[r | e] s1]; [ | reflexivity ].
    rewrite IH.
    destruct (run_turns ms1 s1) as [[r1 | e] s2]; [ | reflexivity ].
    destruct (run_turns ms2 s2) as [[r2 | e] s3]; reflexivity.
Qed.

(** X1. A stored id that is negative or past the end of the question list
    blocks the conversation: every further turn, whatever the message, returns
    the same single error message, and the session is neither changed nor
    saved. *)
Theorem invalid_id_blocks_every_turn (messages : list str) (s : Session) (cid : Z) :
  current_question_id (data s) = IsInt cid ->
  cid < 0 \/ len PYTHON_QUESTION_LIST <= cid ->
  run_turns messages s
  = (Ok (map (fun _ => [Some (if cid <? 0 then lit "No active question"
                              else lit "Invalid question ID")]) messages), s).
Proof.
  intros Hs Hc. induction messages as [ | m ms IH ].
  - reflexivity.
  - rewrite run_turns_cons, (failure_step m s cid Hs Hc), IH. reflexivity.
Qed.

(** X2. With an empty question list the quiz never starts: the first turn on
    a session without a current question id returns the welcome message
    followed by [None] in place of a question, stores the id -1 and saves; every
    later turn returns ["No active question"] and leaves the session as the
    first turn left it. *)
Theorem empty_question_list_never_asks (first : str) (messages : list str) (s : Session) :
  PYTHON_QUESTION_LIST = [] ->
  current_question_id (data s) = Absent \/ current_question_id (data s) = IsNone ->
  run_turns (first :: messages) s
  = (Ok ([Some BOT_WELCOME_MESSAGE; None]
           :: map (fun _ => [Some (lit "No active question")]) messages),
     {| data := {| current_question_id := IsInt (-1);
                   quiz_answers := quiz_answers (data s) |};
        saved := {| current_question_id := IsInt (-1);
                    quiz_answers := quiz_answers (data s) |} :: saved s |}).
Proof.
  intros HL Hs.
  assert (E1 : generate_bot_responses first s
               = (Ok [Some BOT_WELCOME_MESSAGE; None],
                  saving (with_id (IsInt (-1)) (data s)) s)).
  { rewrite cold_start_step by assumption.
    rewrite get_next_question_None, get_next_question_exhausted; [ reflexivity | ].
    rewrite HL. unfold len. cbn [List.length]. lia. }
  set (s1 := saving (with_id (IsInt (-1)) (data s)) s) in *.
  assert (E2 : forall ms, run_turns ms s1
               = (Ok (map (fun _ => [Some (lit "No active question")]) ms), s1)).
  { induction ms as [ | m ms IH ]; [ reflexivity | ].
    rewrite run_turns_cons, (failure_step m s1 (-1)); [ | reflexivity | lia ].
    rewrite IH. reflexivity. }
  rewrite run_turns_cons, E1, E2. reflexivity.
Qed.

Lemma get_next_question_negative (cid : Z) :
  cid < -1 ->
  (- len PYTHON_QUESTION_LIST <= cid + 1 ->
   exists q,
     nth_error PYTHON_QUESTION_LIST (Z.to_nat (len PYTHON_QUESTION_LIST + cid + 1)) = Some q
     /\ get_next_question (Some cid) = Ok (Some (rendered_text q), cid + 1))
  /\ (cid + 1 < - len PYTHON_QUESTION_LIST ->
      get_next_question (Some cid) = Raise IndexError).
Proof.
  intros Hc.
  assert (Hlen : 0 <= len PYTHON_QUESTION_LIST) by (unfold len; lia).
  unfold get_next_question.
  replace (cid + 1 <? len PYTHON_QUESTION_LIST) with true
    by (symmetry; apply Z.ltb_lt; lia).
  unfold list_getitem. fold (len PYTHON_QUESTION_LIST).
  replace (cid + 1 <? 0) with true by (symmetry; apply Z.ltb_lt; lia).
  split.
  - intros Hin.
    replace (cid + 1 + len PYTHON_QUESTION_LIST <? 0) with false
      by (symmetry; apply Z.ltb_ge; lia).
    replace (len PYTHON_QUESTION_LIST <=? cid + 1 + len PYTHON_QUESTION_LIST) with false
      by (symmetry; apply Z.leb_gt; lia).
    cbn [orb].
    replace (cid + 1 + len PYTHON_QUESTION_LIST) with (len PYTHON_QUESTION_LIST + cid + 1) by lia.
    destruct (list_getitem_in_range PYTHON_QUESTION_LIST
                (len PYTHON_QUESTION_LIST + cid + 1) ltac:(lia)) as (q & Hq & _).
    exists q. split; [ exact Hq | ]. rewrite Hq. cbn [obind].
    rewrite add_options_concat. unfold rendered_text. rewrite <- !app_assoc. reflexivity.
  - intros Hout.
    replace (cid + 1 + len PYTHON_QUESTION_LIST <? 0) with true
      by (symmetry; apply Z.ltb_lt; lia).
    reflexivity.
Qed.

(** X3. Below -1 the fetcher follows Python's negative indexing: for a
    current id [cid < -1] whose successor still counts a position from the end
    of the list, it returns that question (the one at [len + cid + 1]) with the
    negative next id [cid + 1]; further below, the list index raises
    [IndexError]. *)
Theorem get_next_question_below_minus_1 (cid : Z) :
  cid < -1 ->
  (- len PYTHON_QUESTION_LIST <= cid + 1 ->
   exists q,
     nth_error PYTHON_QUESTION_LIST (Z.to_nat (len PYTHON_QUESTION_LIST + cid + 1)) = Some q
     /\ get_next_question (Some cid) = Ok (Some (rendered_text q), cid + 1))
  /\ (cid + 1 < - len PYTHON_QUESTION_LIST ->
      get_next_question (Some cid) = Raise IndexError).
Proof. exact (get_next_question_negative cid). Qed.

(** X4. The message is ignored unless a question is pending: on the cold start
    and when the stored id is invalid, any two messages give the same
    responses and the same session. *)
Theorem message_ignored_unless_question_pending (m1 m2 : str) (s : Session) :
  (forall cid, current_question_id (data s) = IsInt cid ->
               cid < 0 \/ len PYTHON_QUESTION_LIST <= cid) ->
  generate_bot_responses m1 s = generate_bot_responses m2 s.
Proof.
  intros H.
  destruct (current_question_id (data s)) as [ | | cid ] eqn:Hs.
  - rewrite !cold_start_step by (left; exact Hs). reflexivity.
  - rewrite !cold_start_step by (right; exact Hs). reflexivity.
  - rewrite (failure_step m1 s cid Hs (H cid eq_refl)),
            (failure_step m2 s cid Hs (H cid eq_refl)). reflexivity.
Qed.

(** X5. The fetcher returns [None] only past the end of the list, and then
    with the sentinel -1; a text it returns is never empty, even for a question
    with an empty text and no options, so the dispatcher never takes a question
    for the end of the quiz. *)
Theorem get_next_question_text_never_empty (current : option Z) :
  match get_next_question current with
  | Ok (Some text, next_id) =>
      truthy (Some text) = true
      /\ next_id = match current with None => -1 | Some z => z end + 1
      /\ next_id < len PYTHON_QUESTION_LIST
  | Ok (None, next_id) =>
      next_id = -1
      /\ len PYTHON_QUESTION_LIST <= match current with None => -1 | Some z => z end + 1
  | Raise e =>
      e = IndexError
      /\ match current with None => -1 | Some z => z end + 1 < - len PYTHON_QUESTION_LIST
  end.
Proof.
  set (cid := match current with None => -1 | Some z => z end).
  assert (E : get_next_question current = get_next_question (Some cid)).
  { destruct current; reflexivity. }
  rewrite E.
  assert (Hlen : 0 <= len PYTHON_QUESTION_LIST) by (unfold len; lia).
  destruct (Z_lt_le_dec (cid + 1) (len PYTHON_QUESTION_LIST)) as [Hin | Hout].
  - destruct (Z_lt_le_dec (cid + 1) 0) as [Hneg | Hnn].
    + destruct (get_next_question_negative cid ltac:(lia)) as [H1 H2].
      destruct (Z_lt_le_dec (cid + 1) (- len PYTHON_QUESTION_LIST)) as [Hlow | Hok].
      * rewrite (H2 Hlow). split; [ reflexivity | assumption ].
      * destruct (H1 Hok) as (q & _ & Eq). rewrite Eq.
        split; [ apply truthy_rendered_text | split; [ reflexivity | assumption ] ].
    + destruct (list_getitem_in_range PYTHON_QUESTION_LIST (cid + 1) ltac:(lia))
        as (q & Hq & _).
      rewrite (get_next_question_within cid q ltac:(lia) Hq).
      split; [ apply truthy_rendered_text | split; [ reflexivity | assumption ] ].
  - rewrite get_next_question_exhausted by assumption.
    split; [ reflexivity | assumption ].
Qed.

(** *** Stripping *)

Lemma lstrip_spaces (ws x : str) :
  forallb isspace ws = true -> lstrip (ws ++ x) = lstrip x.
Proof.
  induction ws as [ | c ws IH ]; intros H; [ reflexivity | ].
  cbn [forallb] in H. apply andb_true_iff in H. destruct H as [Hc Hws].
  cbn [app lstrip]. rewrite Hc. apply IH, Hws.
Qed.

Lemma lstrip_app (a b : str) :
  lstrip (a ++ b) = match lstrip a with
                    | [] => lstrip b
                    | c :: l => (c :: l) ++ b
                    end.
Proof.
  induction a as [ | c a IH ]; [ cbn; destruct (lstrip b); reflexivity | ].
  cbn [app lstrip]. destruct (isspace c); [ exact IH | reflexivity ].
Qed.

Lemma forallb_rev {A : Type} (f : A -> bool) (l : list A) :
  forallb f l = true -> forallb f (rev l) = true.
Proof.
  rewrite !forallb_forall. intros H x Hx. apply H, in_rev, Hx.
Qed.

Lemma rstrip_spaces (x ws : str) :
  forallb isspace ws = true -> rstrip (x ++ ws) = rstrip x.
Proof.
  intros H. unfold rstrip. rewrite rev_app_distr, lstrip_spaces; [ reflexivity | ].
  apply forallb_rev, H.
Qed.

(** Whitespace around a string does not survive [strip]. *)
Lemma strip_padded (ws1 a ws2 : str) :
  forallb isspace ws1 = true -> forallb isspace ws2 = true ->
  strip (ws1 ++ a ++ ws2) = strip a.
Proof.
  intros H1 H2. unfold strip. rewrite lstrip_spaces by assumption.
  rewrite lstrip_app. destruct (lstrip a) as [ | c l ] eqn:E.
  - rewrite <- (app_nil_r ws2), lstrip_spaces by assumption. reflexivity.
  - apply rstrip_spaces, H2.
Qed.

(** X6. Whitespace around an answer does not change its mark: the record of
    an answer padded with whitespace on both sides keeps the padded text as
    [user_answer] and gets the [is_correct] of the answer without the padding;
    the canonical answer itself, padded or not, is marked correct. *)
Theorem is_correct_ignores_surrounding_whitespace
  (ws1 a ws2 : str) (cid : Z) (q : Question) (s : Session) :
  0 <= cid ->
  nth_error PYTHON_QUESTION_LIST (Z.to_nat cid) = Some q ->
  forallb isspace ws1 = true -> forallb isspace ws2 = true ->
  exists r s',
    record_current_answer (ws1 ++ a ++ ws2) (Some cid) s = (Ok (true, empty_str), s')
    /\ quiz_answers (data s') = Some (answers_of (data s) ++ [r])
    /\ user_answer r = ws1 ++ a ++ ws2
    /\ is_correct r = str_eqb (strip a) (strip (answer q))
    /\ (a = answer q -> is_correct r = true).
Proof.
  intros Hc Hq H1 H2.
  exists (answer_record cid q (ws1 ++ a ++ ws2)). eexists.
  split; [ apply (record_current_answer_in_range _ cid q s Hc Hq) | ].
  split; [ reflexivity | ]. split; [ reflexivity | ].
  cbn [answer_record is_correct]. rewrite strip_padded by assumption.
  split; [ reflexivity | ]. intros ->. apply str_eqb_eq. reflexivity.
Qed.

(** *** Invariants of the recorded answers *)

Lemma answer_record_consistent (cid : Z) (q : Question) (m : str) :
  0 <= cid ->
  nth_error PYTHON_QUESTION_LIST (Z.to_nat cid) = Some q ->
  record_consistent (answer_record cid q m).
Proof.
  intros Hc Hq. split; [ exact Hc | ]. exists q.
  split; [ exact Hq | split; reflexivity ].
Qed.

(** What a turn does to the dictionary: nothing, a new id, or one record of
    the pending question and a new id. *)
Lemma generate_bot_responses_data (message : str) (s : Session) :
  exists responses s',
    generate_bot_responses message s = (Ok responses, s')
    /\ (data s' = data s
        \/ (exists v, data s' = with_id v (data s)
                      /\ (current_question_id (data s) = Absent
                          \/ current_question_id (data s) = IsNone)
                      /\ (PYTHON_QUESTION_LIST <> [] -> v = IsInt 0))
        \/ (exists cid q,
              current_question_id (data s) = IsInt cid
              /\ 0 <= cid
              /\ nth_error PYTHON_QUESTION_LIST (Z.to_nat cid) = Some q
              /\ data s'
                 = with_id (if cid + 1 <? len PYTHON_QUESTION_LIST
                            then IsInt (cid + 1) else IsNone)
                     (with_answer (answer_record cid q message) (data s)))).
Proof.
  destruct (id_cases (current_question_id (data s)))
    as [ Hcold | [ (cid & Hs & Hc) | [ (cid & q & q' & Hs & Hc & Hq & Hq')
                                     | (cid & q & Hs & Hc & Hq & Hlen) ] ] ].
  - rewrite cold_start_step by assumption.
    destruct get_next_question_None_returns as (text & nid & E).
    rewrite E. eexists. eexists. split; [ reflexivity | ].
    right. left. exists (IsInt nid). split; [ reflexivity | ]. split; [ exact Hcold | ].
    intros Hne. destruct PYTHON_QUESTION_LIST as [ | q0 rest ] eqn:EL; [ congruence | ].
    rewrite <- EL in *. rewrite get_next_question_None in E.
    rewrite (get_next_question_within (-1) q0) in E; [ | lia | rewrite EL; reflexivity ].
    injection E as _ <-. reflexivity.
  - rewrite (failure_step message s cid) by assumption.
    eexists. eexists. split; [ reflexivity | ]. left. reflexivity.
  - rewrite (next_question_step message s cid q q') by assumption.
    eexists. eexists. split; [ reflexivity | ]. right. right.
    exists cid, q. repeat split; try assumption.
    pose proof (nth_error_in_range PYTHON_QUESTION_LIST (cid + 1) q' ltac:(lia) Hq').
    replace (cid + 1 <? len PYTHON_QUESTION_LIST) with true
      by (symmetry; apply Z.ltb_lt; lia).
    reflexivity.
  - destruct (completion_step message s cid q Hs Hc Hq Hlen) as (summary & _ & E).
    rewrite E. eexists. eexists. split; [ reflexivity | ]. right. right.
    exists cid, q. repeat split; try assumption.
    replace (cid + 1 <? len PYTHON_QUESTION_LIST) with false
      by (symmetry; apply Z.ltb_ge; lia).
    reflexivity.
Qed.

(** X7. Every record the dispatcher leaves agrees with the question list: in
    a session whose records are consistent (a fresh one has none), after any
    conversation every record has the index of a question as its id, the
    canonical answer of that question, and the mark that compares the stripped
    user answer with it. *)
Theorem recorded_answers_stay_consistent (messages : list str) (s : Session) :
  Forall record_consistent (answers_of (data s)) ->
  exists responses s',
    run_turns messages s = (Ok responses, s')
    /\ Forall record_consistent (answers_of (data s')).
Proof.
  revert s. induction messages as [ | m ms IH ]; intros s Hs.
  - exists [], s. split; [ reflexivity | exact Hs ].
  - destruct (generate_bot_responses_data m s) as (r & s1 & E1 & Hd).
    assert (H1 : Forall record_consistent (answers_of (data s1))).
    { destruct Hd as [ -> | [ (v & -> & _) | (cid & q & _ & Hc & Hq & ->) ] ];
        try exact Hs.
      unfold answers_of, with_id, with_answer. cbn [quiz_answers].
      apply Forall_app. split; [ exact Hs | ].
      constructor; [ | constructor ]. apply answer_record_consistent; assumption. }
    destruct (IH s1 H1) as (rs & s2 & E2 & H2).
    exists (r :: rs), s2. rewrite run_turns_cons, E1, E2.
    split; [ reflexivity | exact H2 ].
Qed.

(** X8. The records follow the questions in rounds. With at least one
    question, after any conversation on a fresh session, record number [i]
    (from 0) answers question [i mod N], and the number of records modulo [N]
    is the stored id (0 when none is stored): each pass records one answer per
    question, in order. *)
Theorem records_follow_question_order (messages : list str) :
  PYTHON_QUESTION_LIST <> [] ->
  exists responses s',
    run_turns messages fresh_session = (Ok responses, s')
    /\ (forall i r, nth_error (answers_of (data s')) i = Some r ->
                    question_id r = Z.of_nat i mod len PYTHON_QUESTION_LIST)
    /\ len (answers_of (data s')) mod len PYTHON_QUESTION_LIST
       = match current_question_id (data s') with
         | IsInt k => k
         | Absent | IsNone => 0
         end.
Proof.
  intros Hne.
  assert (HN : 0 < len PYTHON_QUESTION_LIST).
  { destruct PYTHON_QUESTION_LIST; [ congruence | unfold len; cbn [List.length]; lia ]. }
  assert (Hstep : forall m s, in_step (data s) ->
            exists r s1, generate_bot_responses m s = (Ok r, s1) /\ in_step (data s1)).
  { intros m s (Hrec & Hval & Hmod).
    destruct (generate_bot_responses_data m s) as (r & s1 & E1 & Hd).
    exists r, s1. split; [ exact E1 | ].
    destruct Hd as [ -> | [ (v & -> & Hcold & Hv) | (cid & q & Hs & Hc & Hq & ->) ] ].
    - repeat split; assumption.
    - rewrite (Hv Hne). unfold in_step, with_id, answers_of in *.
      cbn [quiz_answers current_question_id valid_id].
      split; [ exact Hrec | ]. split; [ lia | ].
      destruct Hcold as [E | E]; rewrite E in Hmod; exact Hmod.
    - rewrite Hs in Hval, Hmod. cbn [valid_id] in Hval.
      set (old := answers_of (data s)) in *.
      assert (Hans : answers_of
                       (with_id (if cid + 1 <? len PYTHON_QUESTION_LIST
                                 then IsInt (cid + 1) else IsNone)
                          (with_answer (answer_record cid q m) (data s)))
                     = old ++ [answer_record cid q m]) by reflexivity.
      unfold in_step. rewrite Hans.
      cbn [with_id current_question_id].
      split; [ | split ].
      + intros i r0 Hi.
        destruct (Nat.lt_ge_cases i (List.length old)) as [Hlt | Hge].
        * rewrite nth_error_app1 in Hi by assumption. apply Hrec, Hi.
        * rewrite nth_error_app2 in Hi by assumption.
          destruct (i - List.length old)%nat as [ | k ] eqn:Ek.
          -- cbn in Hi. injection Hi as <-. cbn [answer_record question_id].
             assert (i = List.length old) by lia. subst i. symmetry. exact Hmod.
          -- cbn in Hi. destruct k; discriminate Hi.
      + destruct (Z.ltb_spec (cid + 1) (len PYTHON_QUESTION_LIST)); cbn [valid_id]; lia.
      + assert (Hl : len (old ++ [answer_record cid q m]) = len old + 1).
        { unfold len. rewrite length_app. cbn [List.length]. lia. }
        rewrite Hl.
        pose proof (Z.div_mod (len old) (len PYTHON_QUESTION_LIST) ltac:(lia)) as Ed.
        rewrite Hmod in Ed.
        destruct (Z.ltb_spec (cid + 1) (len PYTHON_QUESTION_LIST)).
        * symmetry.
          apply (Z.mod_unique_pos _ _ (len old / len PYTHON_QUESTION_LIST)); lia.
        * symmetry.
          apply (Z.mod_unique_pos _ _ (len old / len PYTHON_QUESTION_LIST + 1)); lia. }
  assert (Hrun : forall ms s, in_step (data s) ->
            exists rs s', run_turns ms s = (Ok rs, s') /\ in_step (data s')).
  { induction ms as [ | m ms IH ]; intros s Hs.
    - exists [], s. split; [ reflexivity | exact Hs ].
    - destruct (Hstep m s Hs) as (r & s1 & E1 & H1).
      destruct (IH s1 H1) as (rs & s2 & E2 & H2).
      exists (r :: rs), s2. rewrite run_turns_cons, E1, E2.
      split; [ reflexivity | exact H2 ]. }
  destruct (Hrun messages fresh_session) as (rs & s' & E & Hrec & _ & Hmod).
  - unfold in_step, fresh_session, answers_of. cbn.
    split; [ intros [ | i ] r H; discriminate H | ].
    split; [ exact I | first [ reflexivity | apply Z.mod_0_l; lia ] ].
  - exists rs, s'. split; [ exact E | ]. split; [ exact Hrec | exact Hmod ].
Qed.

(** A turn on a session whose stored id is valid ends with a save. *)
Lemma generate_bot_responses_saved (message : str) (s : Session) :
  PYTHON_QUESTION_LIST <> [] ->
  valid_id (current_question_id (data s)) ->
  exists responses s',
    generate_bot_responses message s = (Ok responses, s')
    /\ valid_id (current_question_id (data s'))
    /\ saved s' = data s' :: saved s.
Proof.
  intros Hne Hv.
  destruct (id_cases (current_question_id (data s)))
    as [ Hcold | [ (cid & Hs & Hc) | [ (cid & q & q' & Hs & Hc & Hq & Hq')
                                     | (cid & q & Hs & Hc & Hq & Hlen) ] ] ].
  - rewrite cold_start_step by assumption.
    destruct PYTHON_QUESTION_LIST as [ | q0 rest ] eqn:EL; [ congruence | ].
    rewrite <- EL in *. rewrite get_next_question_None.
    rewrite (get_next_question_within (-1) q0); [ | lia | rewrite EL; reflexivity ].
    eexists. eexists. split; [ reflexivity | ]. split; [ | reflexivity ].
    cbn. rewrite EL. unfold len. cbn [List.length]. lia.
  - rewrite Hs in Hv. cbn in Hv. lia.
  - rewrite (next_question_step message s cid q q') by assumption.
    eexists. eexists. split; [ reflexivity | ]. split; [ | reflexivity ]. cbn.
    apply (nth_error_in_range PYTHON_QUESTION_LIST (cid + 1) q'); [ lia | assumption ].
  - destruct (completion_step message s cid q Hs Hc Hq Hlen) as (summary & _ & E).
    rewrite E. eexists. eexists. split; [ reflexivity | ]. split; [ exact I | reflexivity ].
Qed.

(** X9. The store follows the session turn by turn. With at least one
    question and a valid stored id (a fresh session in particular), a
    conversation writes exactly one snapshot per turn on top of the earlier
    ones, every snapshot holds a valid id, and the newest one is the dictionary
    as the last turn left it. *)
Theorem every_turn_writes_one_snapshot (messages : list str) (s : Session) :
  PYTHON_QUESTION_LIST <> [] ->
  valid_id (current_question_id (data s)) ->
  exists responses s' snapshots,
    run_turns messages s = (Ok responses, s')
    /\ saved s' = snapshots ++ saved s
    /\ List.length snapshots = List.length messages
    /\ Forall (fun d => valid_id (current_question_id d)) snapshots
    /\ (messages <> [] -> hd_error snapshots = Some (data s')).
Proof.
  intros Hne. revert s. induction messages as [ | m ms IH ]; intros s Hv.
  - exists [], s, []. split; [ reflexivity | ]. split; [ reflexivity | ].
    split; [ reflexivity | ]. split; [ constructor | congruence ].
  - destruct (generate_bot_responses_saved m s Hne Hv) as (r & s1 & E1 & Hv1 & Hs1).
    destruct (IH s1 Hv1) as (rs & s2 & snaps & E2 & Hs2 & Hl2 & Hf2 & Hh2).
    exists (r :: rs), s2, (snaps ++ [data s1]).
    rewrite run_turns_cons, E1, E2. split; [ reflexivity | ].
    split; [ rewrite Hs2, Hs1, <- app_assoc; reflexivity | ].
    split; [ rewrite length_app; cbn [List.length]; lia | ].
    split; [ apply Forall_app; split; [ exact Hf2 | constructor; [ exact Hv1 | constructor ] ] | ].
    intros _. destruct ms as [ | m' ms' ].
    + destruct snaps; [ | discriminate Hl2 ].
      cbn in E2. injection E2 as _ <-. reflexivity.
    + specialize (Hh2 ltac:(discriminate)).
      destruct snaps as [ | d snaps' ]; [ discriminate Hh2 | exact Hh2 ].
Qed.

(** ** Whole passes *)

(** A pass from a session without a current id, with one answer per
    question. *)
Lemma full_pass_run
  (first : str) (answers : list str) (s : Session) (q0 : Question) (rest : list Question) :
  PYTHON_QUESTION_LIST = q0 :: rest ->
  current_question_id (data s) = Absent \/ current_question_id (data s) = IsNone ->
  List.length answers = List.length PYTHON_QUESTION_LIST ->
  exists summary s',
    run_turns (first :: answers) s
    = (Ok ([Some BOT_WELCOME_MESSAGE; Some (rendered_text q0)]
             :: map (fun q => [Some (rendered_text q)]) rest
             ++ [[Some summary]]), s')
    /\ final_response
         (Some (answers_of (data s) ++ answer_records 0 PYTHON_QUESTION_LIST answers))
       = Ok summary
    /\ current_question_id (data s') = IsNone
    /\ quiz_answers (data s')
       = Some (answers_of (data s) ++ answer_records 0 PYTHON_QUESTION_LIST answers).
Proof.
  intros HL Hs Hlen.
  assert (Hq0 : nth_error PYTHON_QUESTION_LIST 0 = Some q0) by (rewrite HL; reflexivity).
  pose proof (cold_start_first_question first s q0 Hs Hq0) as E.
  set (s1 := saving (with_id (IsInt 0) (data s)) s) in *.
  destruct (run_turns_from [] PYTHON_QUESTION_LIST answers s1)
    as (summary & s' & E' & Ef & Hid & Hans).
  - reflexivity.
  - rewrite HL. discriminate.
  - assumption.
  - reflexivity.
  - exists summary, s'. rewrite run_turns_cons, E, E'.
    change (len []) with 0 in *.
    assert (Ha : answers_of (data s1) = answers_of (data s)) by reflexivity.
    rewrite Ha in *. rewrite HL in *. cbn [tl].
    split; [ reflexivity | ]. split; [ exact Ef | ]. split; assumption.
Qed.

Lemma Ok_inj {A : Type} (a b : A) : Ok a = Ok b -> a = b.
Proof. intros H. injection H as H. exact H. Qed.

Lemma length_answer_records (cid : Z) (qs : list Question) (ms : list str) :
  List.length ms = List.length qs ->
  List.length (answer_records cid qs ms) = List.length qs.
Proof.
  revert cid ms. induction qs as [ | q qs IH ]; intros cid [ | m ms ] H;
    try discriminate H; [ reflexivity | ].
  cbn [answer_records List.length]. f_equal. apply IH.
  cbn [List.length] in H. lia.
Qed.

Lemma answer_records_uniform (b : bool) (cid : Z) (qs : list Question) (ms : list str) :
  Forall2 (fun m q => str_eqb (strip m) (strip (answer q)) = b) ms qs ->
  Forall (fun r => is_correct r = b) (answer_records cid qs ms)
  /\ map user_answer (answer_records cid qs ms) = ms
  /\ List.length (answer_records cid qs ms) = List.length qs.
Proof.
  intros H. revert cid. induction H as [ | m q ms qs Hmq _ IH ]; intros cid.
  - split; [ constructor | split; reflexivity ].
  - destruct (IH (cid + 1)) as (Hf & Hm & Hl).
    cbn [answer_records map List.length]. split; [ | split ].
    + constructor; [ exact Hmq | exact Hf ].
    + rewrite Hm. reflexivity.
    + rewrite Hl. reflexivity.
Qed.

Lemma count_correct_uniform (b : bool) (l : list QuizAnswerRecord) :
  Forall (fun r => is_correct r = b) l ->
  count_correct l = if b then len l else 0.
Proof.
  intros H. unfold count_correct.
  induction H as [ | r l Hr _ IH ]; [ destruct b; reflexivity | ].
  cbn [filter]. rewrite Hr. destruct b.
  - unfold len in *. cbn [List.length]. lia.
  - exact IH.
Qed.

Lemma breakdown_uniform (b : bool) (i : Z) (l : list QuizAnswerRecord) :
  Forall (fun r => is_correct r = b) l ->
  map breakdown_line (enumerate i l)
  = map (marked_line b) (enumerate i (map user_answer l)).
Proof.
  intros H. revert i. induction H as [ | r l Hr _ IH ]; intros i; [ reflexivity | ].
  cbn [enumerate map]. rewrite IH. f_equal.
  unfold breakdown_line, marked_line. cbn [fst snd]. rewrite Hr. reflexivity.
Qed.

(** The summary of a non-empty list of records that all have the same mark. *)
Lemma final_response_uniform (b : bool) (l : list QuizAnswerRecord) :
  l <> [] ->
  Forall (fun r => is_correct r = b) l ->
  final_response (Some l)
  = Ok (uniform_summary b
          (if b
           then str_of_int (len l) ++ lit "/" ++ str_of_int (len l) ++ lit " (100.00%)"
           else lit "0/" ++ str_of_int (len l) ++ lit " (0.00%)")
          (if b
           then lit "Excellent! Perfect score!"
           else lit "Keep studying. There's room for improvement in your Python skills.")
          (map user_answer l)).
Proof.
  intros Hne Hf. destruct l as [ | a l ]; [ congruence | ].
  assert (Ht : 0 < len (a :: l)) by (unfold len; cbn [List.length]; lia).
  pose proof (count_correct_uniform b (a :: l) Hf) as Hc.
  pose proof (breakdown_uniform b 1 (a :: l) Hf) as Hb.
  destruct b.
  - rewrite (final_response_shape a l (float_of_int 100))
      by (rewrite Hc; apply score_percentage_all; exact Ht).
    rewrite Hc, Hb, format_2f_100, performance_100.
    unfold uniform_summary. rewrite <- !app_assoc. reflexivity.
  - rewrite (final_response_shape a l (float_of_int 0))
      by (rewrite Hc; apply score_percentage_none; exact Ht).
    rewrite Hc, Hb, format_2f_0, performance_0.
    unfold uniform_summary. rewrite <- !app_assoc. reflexivity.
Qed.

(** A pass on a session without records in which every answer has the same
    mark [b]. *)
Lemma uniform_pass
  (b : bool) (first : str) (answers : list str) (s : Session)
  (q0 : Question) (rest : list Question) :
  PYTHON_QUESTION_LIST = q0 :: rest ->
  current_question_id (data s) = Absent \/ current_question_id (data s) = IsNone ->
  answers_of (data s) = [] ->
  Forall2 (fun m q => str_eqb (strip m) (strip (answer q)) = b)
    answers PYTHON_QUESTION_LIST ->
  exists s',
    run_turns (first :: answers) s
    = (Ok ([Some BOT_WELCOME_MESSAGE; Some (rendered_text q0)]
             :: map (fun q => [Some (rendered_text q)]) rest
             ++ [[Some (uniform_summary b
                          (if b
                           then str_of_int (len PYTHON_QUESTION_LIST) ++ lit "/"
                                  ++ str_of_int (len PYTHON_QUESTION_LIST)
                                  ++ lit " (100.00%)"
                           else lit "0/" ++ str_of_int (len PYTHON_QUESTION_LIST)
                                  ++ lit " (0.00%)")
                          (if b
                           then lit "Excellent! Perfect score!"
                           else lit "Keep studying. There's room for improvement in your Python skills.")
                          answers)]]), s')
    /\ current_question_id (data s') = IsNone.
Proof.
  intros HL Hs Hprior HF.
  pose proof (Forall2_length HF) as Hlen.
  destruct (full_pass_run first answers s q0 rest HL Hs Hlen)
    as (summary & s' & E & Ef & Hid & _).
  destruct (answer_records_uniform b 0 PYTHON_QUESTION_LIST answers HF)
    as (Hu & Hm & Hl).
  rewrite Hprior in Ef. cbn [app] in Ef.
  assert (Hne : answer_records 0 PYTHON_QUESTION_LIST answers <> []).
  { intros Hnil. rewrite Hnil in Hl. rewrite HL in Hl. discriminate Hl. }
  rewrite (final_response_uniform b _ Hne Hu) in Ef.
  rewrite Hm in Ef. unfold len in Ef. rewrite Hl in Ef.
  fold (len PYTHON_QUESTION_LIST) in Ef.
  injection Ef as <-. exists s'. split; [ exact E | exact Hid ].
Qed.

(** X10. A pass with only right answers. From a session without a current id
    and without records, a welcome turn followed by one answer per question,
    each equal to the canonical answer up to surrounding whitespace, shows
    every question in order and ends with the summary "N/N (100.00%)", the
    remark for a perfect score, and one line with a check mark and the raw
    answer per question; the id is reset to [None]. *)
Theorem right_answers_give_perfect_score
  (first : str) (answers : list str) (s : Session)
  (q0 : Question) (rest : list Question) :
  PYTHON_QUESTION_LIST = q0 :: rest ->
  current_question_id (data s) = Absent \/ current_question_id (data s) = IsNone ->
  answers_of (data s) = [] ->
  Forall2 (fun m q => strip m = strip (answer q)) answers PYTHON_QUESTION_LIST ->
  exists s',
    run_turns (first :: answers) s
    = (Ok ([Some BOT_WELCOME_MESSAGE; Some (rendered_text q0)]
             :: map (fun q => [Some (rendered_text q)]) rest
             ++ [[Some (uniform_summary true
                          (str_of_int (len PYTHON_QUESTION_LIST) ++ lit "/"
                             ++ str_of_int (len PYTHON_QUESTION_LIST)
                             ++ lit " (100.00%)")
                          (lit "Excellent! Perfect score!")
                          answers)]]), s')
    /\ current_question_id (data s') = IsNone.
Proof.
  intros HL Hs Hprior HF.
  apply (uniform_pass true first answers s q0 rest HL Hs Hprior).
  eapply Forall2_impl; [ | exact HF ].
  intros m q H. apply str_eqb_eq. exact H.
Qed.

(** X11. A pass with only wrong answers. From a session without a current id
    and without records, a welcome turn followed by one answer per question,
    none equal to the canonical answer once both are stripped, ends with the
    summary "0/N (0.00%)", the remark of the lowest tier, and one line with a
    cross and the raw answer per question; the id is reset to [None]. *)
Theorem wrong_answers_give_zero_score
  (first : str) (answers : list str) (s : Session)
  (q0 : Question) (rest : list Question) :
  PYTHON_QUESTION_LIST = q0 :: rest ->
  current_question_id (data s) = Absent \/ current_question_id (data s) = IsNone ->
  answers_of (data s) = [] ->
  Forall2 (fun m q => strip m <> strip (answer q)) answers PYTHON_QUESTION_LIST ->
  exists s',
    run_turns (first :: answers) s
    = (Ok ([Some BOT_WELCOME_MESSAGE; Some (rendered_text q0)]
             :: map (fun q => [Some (rendered_text q)]) rest
             ++ [[Some (uniform_summary false
                          (lit "0/" ++ str_of_int (len PYTHON_QUESTION_LIST)
                             ++ lit " (0.00%)")
                          (lit "Keep studying. There's room for improvement in your Python skills.")
                          answers)]]), s')
    /\ current_question_id (data s') = IsNone.
Proof.
  intros HL Hs Hprior HF.
  apply (uniform_pass false first answers s q0 rest HL Hs Hprior).
  eapply Forall2_impl; [ | exact HF ].
  intros m q H.
  destruct (str_eqb (strip m) (strip (answer q))) eqn:E; [ | reflexivity ].
  apply str_eqb_eq in E. contradiction.
Qed.

(** X12. The records are never cleared, so a second pass is scored together
    with the first. From a session without a current id, two passes in a row
    (each a welcome turn and one answer per question) end with a summary whose
    total is the number of records held before plus twice the number of
    questions, whose count of correct answers runs over all those records, and
    the session then holds the earlier records followed by those of the first
    and of the second pass. *)
Theorem second_pass_scores_both_passes
  (first1 first2 : str) (answers1 answers2 : list str) (s : Session)
  (q0 : Question) (rest : list Question) :
  PYTHON_QUESTION_LIST = q0 :: rest ->
  current_question_id (data s) = Absent \/ current_question_id (data s) = IsNone ->
  List.length answers1 = List.length PYTHON_QUESTION_LIST ->
  List.length answers2 = List.length PYTHON_QUESTION_LIST ->
  exists responses p s',
    let all := answers_of (data s)
                 ++ answer_records 0 PYTHON_QUESTION_LIST answers1
                 ++ answer_records 0 PYTHON_QUESTION_LIST answers2 in
    run_turns ((first1 :: answers1) ++ first2 :: answers2) s
    = (Ok (responses
             ++ [[Some (lit "Quiz Completed!" ++ nl ++ nl
                          ++ lit "Your Score: " ++ str_of_int (count_correct all)
                          ++ lit "/"
                          ++ str_of_int (len (answers_of (data s))
                                         + 2 * len PYTHON_QUESTION_LIST)
                          ++ lit " (" ++ format_2f p ++ lit "%)" ++ nl ++ nl
                          ++ performance p
                          ++ nl ++ nl ++ lit "Detailed Breakdown:"
                          ++ List.concat (map breakdown_line (enumerate 1 all)))]]), s')
    /\ score_percentage (count_correct all)
         (len (answers_of (data s)) + 2 * len PYTHON_QUESTION_LIST) = Ok p
    /\ quiz_answers (data s') = Some all
    /\ current_question_id (data s') = IsNone.
Proof.
  intros HL Hs Hl1 Hl2.
  destruct (full_pass_run first1 answers1 s q0 rest HL Hs Hl1)
    as (sum1 & s1 & E1 & _ & Hid1 & Hans1).
  assert (Hs1 : current_question_id (data s1) = Absent
                \/ current_question_id (data s1) = IsNone) by (right; exact Hid1).
  destruct (full_pass_run first2 answers2 s1 q0 rest HL Hs1 Hl2)
    as (sum2 & s2 & E2 & Ef2 & Hid2 & Hans2).
  assert (Ha1 : answers_of (data s1)
                = answers_of (data s) ++ answer_records 0 PYTHON_QUESTION_LIST answers1)
    by (unfold answers_of at 1; rewrite Hans1; reflexivity).
  rewrite Ha1, <- app_assoc in Ef2, Hans2.
  set (all := answers_of (data s)
                ++ answer_records 0 PYTHON_QUESTION_LIST answers1
                ++ answer_records 0 PYTHON_QUESTION_LIST answers2) in *.
  assert (Hlen : len all = len (answers_of (data s)) + 2 * len PYTHON_QUESTION_LIST).
  { unfold all, len. rewrite !length_app, !length_answer_records by assumption. lia. }
  assert (Ht : 0 < len all).
  { rewrite Hlen, HL. unfold len. cbn [List.length]. lia. }
  destruct (score_percentage_range _ _ (count_correct_range all) Ht) as (p & Ep & _).
  destruct all as [ | a l ] eqn:Eall; [ unfold len in Ht; cbn in Ht; lia | ].
  rewrite (final_response_shape a l p Ep) in Ef2.
  apply Ok_inj in Ef2.
  exists (([Some BOT_WELCOME_MESSAGE; Some (rendered_text q0)]
            :: map (fun q => [Some (rendered_text q)]) rest ++ [[Some sum1]])
          ++ [Some BOT_WELCOME_MESSAGE; Some (rendered_text q0)]
            :: map (fun q => [Some (rendered_text q)]) rest), p, s2.
  cbv zeta. rewrite run_turns_app, E1, E2. rewrite <- Hlen, Ef2.
  split; [ | split; [ exact Ep | split; [ exact Hans2 | exact Hid2 ] ] ].
  f_equal. f_equal.
  exact (app_assoc
           ([Some BOT_WELCOME_MESSAGE; Some (rendered_text q0)]
              :: map (fun q => [Some (rendered_text q)]) rest ++ [[Some sum1]])
           ([Some BOT_WELCOME_MESSAGE; Some (rendered_text q0)]
              :: map (fun q => [Some (rendered_text q)]) rest)
           [[Some sum2]]).
Qed.

(** ** The remark, by exact arithmetic *)

(** The product by [100.0] of a canonical float [q <= 1], with the binade of
    the exact product: the result is a multiple of the unit of that binade and
    is within half a unit of [100 * q]. *)
Lemma float_mul_100_round (m : positive) (e : Z) :
  e = fexp prec emax (Zpos (digits2_pos m) + e) ->
  e <= -52 ->
  Zpos m <= Zpos mant_1 * 2 ^ (-52 - e) ->
  exists m2 d,
    2 ^ (d + 1119) <= 100 * (Zpos m * 2 ^ (e + 1120)) < 2 ^ (d + 1120)
    /\ scaled (float_mul (S754_finite false m e) (float_of_int 100))
       = m2 * 2 ^ (fexp prec emax d + 1120)
    /\ 2 * Z.abs (m2 * 2 ^ (fexp prec emax d + 1120)
                  - 100 * (Zpos m * 2 ^ (e + 1120)))
       <= 2 ^ (fexp prec emax d + 1120).
Proof.
  intros Hcan He Hm.
  assert (Hq : bounded_by mant_1 (-52) (S754_finite false m e)).
  { right. exists m, e. repeat split; assumption. }
  pose proof (float_mul_100_le_100 _ Hq) as Hp. clear Hq.
  rewrite float_of_int_100 in Hp |- *. unfold float_mul in *.
  cbn [SFmul xorb] in Hp |- *. change (Z.add e (-46)) with (e + -46) in *.
  set (mx := Zpos (m * mant_100)) in *. set (ex := e + -46) in *.
  set (e1 := fexp prec emax (Zdigits2 mx + ex)).
  assert (Hemin : -1074 <= e) by (rewrite Hcan, fexp_eq; lia).
  assert (Hp1 : 0 < 2 ^ (-52 - e)) by (apply Z.pow_pos_nonneg; lia).
  assert (E : Zpos mant_1 * 2 ^ (-52 - e) = 2 ^ (- e)).
  { change (Zpos mant_1) with (2 ^ 52). rewrite <- Z.pow_add_r by lia.
    f_equal. lia. }
  rewrite E in Hm.
  assert (Hmx : mx = 100 * Zpos m * 2 ^ 46).
  { unfold mx. rewrite Pos2Z.inj_mul. change (Zpos mant_100) with (100 * 2 ^ 46). ring. }
  assert (Hlow : ex <= e1).
  { pose proof (Zdigits2_pos (Zpos m) ltac:(lia)) as Mpos.
    pose proof (Zdigits2_bounds (Zpos m) ltac:(lia)) as [Mlo _].
    assert (Zdigits2 (Zpos m) + 51 < Zdigits2 mx).
    { apply Zdigits2_gt; [ lia | ].
      rewrite Z.pow_add_r by lia. rewrite Hmx.
      assert (0 < 2 ^ (Zdigits2 (Zpos m) - 1)) by (apply Z.pow_pos_nonneg; lia).
      replace (2 ^ Zdigits2 (Zpos m)) with (2 * 2 ^ (Zdigits2 (Zpos m) - 1)).
      - change (2 ^ 51) with 2251799813685248.
        change (2 ^ 46) with 70368744177664. nia.
      - rewrite <- Z.pow_succ_r by lia. f_equal. lia. }
    unfold e1, ex. rewrite fexp_eq. lia. }
  destruct (binary_round_aux_value mx ex loc_Exact 0 1 ltac:(lia) Hlow ltac:(lia) eq_refl)
    as (m2 & Hm2 & Herr & Hres).
  fold e1 in Herr, Hres.
  set (p := binary_round_aux prec emax false mx ex loc_Exact) in *.
  assert (Hval : scaled p = m2 * 2 ^ (e1 + 1120)).
  { destruct Hres as [[Hz ->] | (m3 & e3 & Hr & He3 & Hm3)].
    - rewrite Hz. reflexivity.
    - destruct Hr as [Hr | Hr].
      + rewrite Hr. cbn [scaled]. rewrite <- Hm3, <- Z.mul_assoc.
        rewrite <- Z.pow_add_r by lia. do 2 f_equal. lia.
      + destruct Hp as [Hp | (m' & e'' & Hp & _)]; rewrite Hr in Hp; discriminate. }
  exists m2, (Zdigits2 mx + ex). fold e1. rewrite Hval.
  set (n := e1 - ex) in *.
  assert (Hn : 0 <= n) by (unfold n; lia).
  set (w := 2 ^ (ex + 1120)).
  assert (Hw : 0 < w) by (apply Z.pow_pos_nonneg; unfold ex; lia).
  assert (E1 : 2 ^ (e1 + 1120) = 2 ^ n * w).
  { unfold w. rewrite <- Z.pow_add_r by (unfold ex; lia). f_equal. unfold n. lia. }
  assert (E2 : 100 * (Zpos m * 2 ^ (e + 1120)) = mx * w).
  { rewrite Hmx. unfold w, ex.
    replace (e + 1120) with (46 + (e + -46 + 1120)) by lia.
    rewrite Z.pow_add_r by lia. ring. }
  rewrite E2, E1.
  assert (Hmxpos : 0 < mx) by (unfold mx; lia).
  pose proof (Zdigits2_bounds mx Hmxpos) as [Dlo Dhi].
  pose proof (Zdigits2_pos mx Hmxpos) as Dpos.
  split; [ | split; [ reflexivity | ] ].
  - replace (Zdigits2 mx + ex + 1119) with ((Zdigits2 mx - 1) + (ex + 1120)) by lia.
    replace (Zdigits2 mx + ex + 1120) with (Zdigits2 mx + (ex + 1120)) by lia.
    rewrite (Z.pow_add_r 2 (Zdigits2 mx - 1) (ex + 1120)) by (unfold ex; lia).
    rewrite (Z.pow_add_r 2 (Zdigits2 mx) (ex + 1120)) by (unfold ex; lia).
    fold w.
    split.
    + apply Z.mul_le_mono_nonneg_r; lia.
    + apply (proj1 (Z.mul_lt_mono_pos_r w _ _ Hw)). exact Dhi.
  - replace (m2 * (2 ^ n * w) - mx * w) with ((m2 * (2 ^ n * 1) - (mx * 1 + 0)) * w) by ring.
    rewrite Z.abs_mul, (Z.abs_eq w) by lia.
    set (X := Z.abs (m2 * (2 ^ n * 1) - (mx * 1 + 0))) in *.
    assert (0 < 2 ^ n) by (apply Z.pow_pos_nonneg; lia).
    replace (2 * (X * w)) with ((2 * X) * w) by ring.
    apply Z.mul_le_mono_nonneg_r; lia.
Qed.

(** A quotient within [2 ^ -53] of [c / t] with [K / 5 <= c / t] is at least
    [K / 5 - 2 ^ -53]. *)
Lemma quotient_lower (K c t sq S : Z) :
  0 < t -> 0 < S -> K * t <= 5 * c ->
  Z.abs (sq * t - c * S) * 2 ^ 53 <= t * S ->
  (K * 2 ^ 53 - 5) * S <= 5 * 2 ^ 53 * sq.
Proof.
  intros Ht HS HK H.
  set (B := 2 ^ 53) in *.
  assert (HB : 0 < B) by (unfold B; apply Z.pow_pos_nonneg; lia).
  assert (H1 : (c * S - sq * t) * B <= t * S).
  { apply Z.le_trans with (Z.abs (sq * t - c * S) * B); [ | exact H ].
    apply Z.mul_le_mono_nonneg_r; lia. }
  assert (H2 : (K * t) * (B * S) <= (5 * c) * (B * S)).
  { apply Z.mul_le_mono_nonneg_r; [ | exact HK ]. apply Z.mul_nonneg_nonneg; lia. }
  apply (Z.mul_le_mono_pos_r _ _ t); [ exact Ht | ].
  replace ((K * B - 5) * S * t) with (K * t * (B * S) - 5 * (t * S)) by ring.
  replace (5 * B * sq * t) with (5 * (sq * t * B)) by ring.
  replace (5 * c * (B * S)) with (5 * (c * S * B)) in H2 by ring.
  replace ((c * S - sq * t) * B) with (c * S * B - sq * t * B) in H1 by ring.
  lia.
Qed.

(** The quotient and the product behind a percentage of at least 60: the
    product is at least [60.0], and at least [80.0] when [c / t >= 4 / 5]. *)
Lemma score_percentage_at_least (K c t : Z) (p : float) :
  K = 3 \/ K = 4 ->
  0 <= c <= t -> 0 < t ->
  K * t <= 5 * c ->
  score_percentage c t = Ok p ->
  20 * K * 2 ^ 1120 <= scaled p.
Proof.
  intros HK Hc Ht HKc Ep.
  destruct (int_truediv_le_1 c t Hc Ht) as (q & Eq & Hq).
  assert (Hp : p = float_mul q (float_of_int 100)).
  { unfold score_percentage in Ep. rewrite Eq in Ep. cbn [obind] in Ep. congruence. }
  rewrite Hp. clear Ep Hp p.
  pose proof (int_truediv_error c t q Hc Ht Eq) as H1.
  assert (HS : 2 ^ 1120 = 2 ^ 53 * 2 ^ 1067) by (rewrite <- Z.pow_add_r by lia; reflexivity).
  assert (HU : 0 < 2 ^ 1067) by (apply Z.pow_pos_nonneg; lia).
  assert (HS0 : 0 < 2 ^ 1120) by (apply Z.pow_pos_nonneg; lia).
  pose proof (quotient_lower K c t (scaled q) (2 ^ 1120) Ht HS0 HKc H1) as L1.
  rewrite HS in L1 |- *.
  set (U := 2 ^ 1067) in *.
  change (2 ^ 53) with 9007199254740992 in *.
  assert (L2 : (K * 9007199254740992 - 5) * U <= 5 * scaled q).
  { apply (Z.mul_le_mono_pos_l _ _ 9007199254740992); [ lia | ].
    replace (9007199254740992 * ((K * 9007199254740992 - 5) * U))
      with ((K * 9007199254740992 - 5) * (9007199254740992 * U)) by ring.
    replace (9007199254740992 * (5 * scaled q))
      with (5 * 9007199254740992 * scaled q) by ring.
    exact L1. }
  clear L1 H1 Eq.
  destruct Hq as [Hz | (m & e & Hf & Hcan & He & Hm)].
  { rewrite Hz in L2. cbn [scaled] in L2. exfalso. nia. }
  rewrite Hf in *. cbn [scaled] in L2.
  destruct (canonical_digits m e Hcan) as [Hlt _].
  change (2 ^ 53) with 9007199254740992 in Hlt.
  assert (Hemin : -1074 <= e) by (rewrite Hcan, fexp_eq; lia).
  (* the exponent of the quotient is -53 or -52 *)
  assert (He53 : -53 <= e).
  { destruct (Z_lt_le_dec e (-53)) as [Hlow | ]; [ exfalso | assumption ].
    assert (Hpw : 2 ^ (e + 1120) <= 2 ^ 1066) by (apply Z.pow_le_mono_r; lia).
    assert (HV : U = 2 * 2 ^ 1066) by (unfold U; rewrite <- Z.pow_succ_r by lia; reflexivity).
    assert (0 < 2 ^ 1066) by (apply Z.pow_pos_nonneg; lia).
    assert (0 < 2 ^ (e + 1120)) by (apply Z.pow_pos_nonneg; lia).
    set (V := 2 ^ 1066) in *. set (W := 2 ^ (e + 1120)) in *.
    assert (Zpos m * W <= 9007199254740992 * V) by nia.
    rewrite HV in L2. nia. }
  assert (Hk : exists k, Zpos m * 2 ^ (e + 1120) = k * U
                         /\ 0 < k <= 9007199254740992).
  { destruct (Z.eq_dec e (-53)) as [-> | Hne].
    - exists (Zpos m). split; [ reflexivity | lia ].
    - assert (e = -52) by lia. subst e. exists (2 * Zpos m). split.
      + change (-52 + 1120) with (Z.succ 1067). rewrite Z.pow_succ_r by lia.
        fold U. ring.
      + change (-52 - -52) with 0 in Hm. change (2 ^ 0) with 1 in Hm.
        change (Zpos mant_1) with 4503599627370496 in Hm. lia. }
  destruct Hk as (k & Ek & Hkr).
  rewrite Ek in L2.
  assert (L3 : K * 9007199254740992 - 5 <= 5 * k).
  { apply (Z.mul_le_mono_pos_r _ _ U); [ exact HU | ].
    replace (5 * k * U) with (5 * (k * U)) by ring. exact L2. }
  destruct (float_mul_100_round m e Hcan He Hm) as (m2 & d & Hd & Hval & Herr).
  rewrite Hval. rewrite Ek in Hd, Herr.
  (* the binade of the product *)
  assert (Hd6 : 6 <= d).
  { destruct (Z_lt_le_dec d 6) as [Hlow | ]; [ exfalso | assumption ].
    assert (2 ^ (d + 1120) <= 2 ^ 1125) by (apply Z.pow_le_mono_r; lia).
    assert (E58 : 2 ^ 1125 = 288230376151711744 * U)
      by (unfold U; change 288230376151711744 with (2 ^ 58);
          rewrite <- Z.pow_add_r by lia; reflexivity).
    assert (288230376151711744 * U <= 100 * (k * U)).
    { replace (100 * (k * U)) with ((100 * k) * U) by ring.
      apply Z.mul_le_mono_nonneg_r; lia. }
    lia. }
  assert (Hd7 : d <= 7).
  { destruct (Z_lt_le_dec 7 d) as [Hhigh | ]; [ exfalso | lia ].
    assert (2 ^ 1127 <= 2 ^ (d + 1119)) by (apply Z.pow_le_mono_r; lia).
    assert (E60 : 2 ^ 1127 = 1152921504606846976 * U)
      by (unfold U; change 1152921504606846976 with (2 ^ 60);
          rewrite <- Z.pow_add_r by lia; reflexivity).
    assert (100 * (k * U) < 1152921504606846976 * U).
    { replace (100 * (k * U)) with ((100 * k) * U) by ring.
      apply (proj1 (Z.mul_lt_mono_pos_r U _ _ HU)). lia. }
    lia. }
  assert (Hcases : d = 6 \/ d = 7) by lia.
  destruct Hcases as [-> | ->].
  - (* the product lies in [32, 64): K = 3 *)
    change (fexp prec emax 6 + 1120) with (Z.succ 6 + 1067 - 1) in *.
    assert (E64 : 2 ^ (Z.succ 6 + 1067 - 1) = 64 * U)
      by (unfold U; change 64 with (2 ^ 6); rewrite <- Z.pow_add_r by lia; reflexivity).
    rewrite E64 in *.
    assert (E59 : 2 ^ (6 + 1120) = 576460752303423488 * U)
      by (unfold U; change 576460752303423488 with (2 ^ 59);
          rewrite <- Z.pow_add_r by lia; reflexivity).
    destruct Hd as [_ Hd]. rewrite E59 in Hd.
    assert (Hk64 : 100 * k < 576460752303423488).
    { apply (proj2 (Z.mul_lt_mono_pos_r U _ _ HU)).
      replace (100 * k * U) with (100 * (k * U)) by ring. exact Hd. }
    assert (HK3 : K = 3) by lia. subst K.
    replace (m2 * (64 * U) - 100 * (k * U)) with ((64 * m2 - 100 * k) * U) in Herr by ring.
    rewrite Z.abs_mul, (Z.abs_eq U) in Herr by lia.
    assert (Herr' : 2 * Z.abs (64 * m2 - 100 * k) <= 64).
    { apply (Z.mul_le_mono_pos_r _ _ U); [ exact HU | ].
      replace (2 * Z.abs (64 * m2 - 100 * k) * U)
        with (2 * (Z.abs (64 * m2 - 100 * k) * U)) by ring.
      exact Herr. }
    replace (20 * 3 * (9007199254740992 * U)) with ((60 * 9007199254740992) * U) by ring.
    replace (m2 * (64 * U)) with ((64 * m2) * U) by ring.
    apply Z.mul_le_mono_nonneg_r; lia.
  - (* the product lies in [64, 128) *)
    change (fexp prec emax 7 + 1120) with (Z.succ 7 + 1067 - 1) in *.
    assert (E128 : 2 ^ (Z.succ 7 + 1067 - 1) = 128 * U)
      by (unfold U; change 128 with (2 ^ 7); rewrite <- Z.pow_add_r by lia; reflexivity).
    rewrite E128 in *.
    assert (E59 : 2 ^ (7 + 1119) = 576460752303423488 * U)
      by (unfold U; change 576460752303423488 with (2 ^ 59);
          rewrite <- Z.pow_add_r by lia; reflexivity).
    destruct Hd as [Hd _]. rewrite E59 in Hd.
    assert (Hk64 : 576460752303423488 <= 100 * k).
    { apply (Z.mul_le_mono_pos_r _ _ U); [ exact HU | ].
      replace (100 * k * U) with (100 * (k * U)) by ring. exact Hd. }
    replace (m2 * (128 * U) - 100 * (k * U)) with ((128 * m2 - 100 * k) * U) in Herr by ring.
    rewrite Z.abs_mul, (Z.abs_eq U) in Herr by lia.
    assert (Herr' : 2 * Z.abs (128 * m2 - 100 * k) <= 128).
    { apply (Z.mul_le_mono_pos_r _ _ U); [ exact HU | ].
      replace (2 * Z.abs (128 * m2 - 100 * k) * U)
        with (2 * (Z.abs (128 * m2 - 100 * k) * U)) by ring.
      exact Herr. }
    replace (20 * K * (9007199254740992 * U)) with ((20 * K * 9007199254740992) * U) by ring.
    replace (m2 * (128 * U)) with ((128 * m2) * U) by ring.
    apply Z.mul_le_mono_nonneg_r; [ lia | ].
    destruct HK as [-> | ->]; lia.
Qed.

(** On a percentage, the comparisons of the source with 100, 80 and 60, on
    the value times [2 ^ 1120]. *)
Lemma thresholds_on_scaled (p : float) :
  bounded_by mant_100 (-46) p ->
  (float_eqb p (float_of_int 100) = true <-> scaled p = 100 * 2 ^ 1120)
  /\ (float_leb (float_of_int 80) p = true <-> 80 * 2 ^ 1120 <= scaled p)
  /\ (float_leb (float_of_int 60) p = true <-> 60 * 2 ^ 1120 <= scaled p).
Proof.
  intros Hb. destruct (thresholds_on_value p Hb) as (H100 & H80 & H60).
  rewrite H100, H80, H60. clear H100 H80 H60.
  assert (HS : 0 < 2 ^ 1120) by (apply Z.pow_pos_nonneg; lia).
  destruct Hb as [Hz | (m & e & Hf & Hcan & He & _)].
  - rewrite Hz. cbn [float_value scaled].
    unfold Qeq, Qle, inject_Z; cbn [Qnum Qden].
    split; [ | split ]; lia.
  - rewrite Hf.
    assert (Hemin : -1074 <= e) by (rewrite Hcan, fexp_eq; lia).
    destruct e as [ | k | k ]; try lia.
    rewrite float_value_eq, !float_value_le. cbn [scaled].
    set (w := 2 ^ (Zneg k + 1120)).
    assert (Hw : 0 < w) by (apply Z.pow_pos_nonneg; lia).
    assert (E : 2 ^ 1120 = 2 ^ Zpos k * w).
    { unfold w. rewrite <- Z.pow_add_r by lia. f_equal. lia. }
    rewrite E. clear E HS.
    set (v := 2 ^ Zpos k) in *.
    split; [ | split ].
    + split; intros H.
      * rewrite H. ring.
      * apply (Z.mul_cancel_r _ _ w); [ lia | ]. rewrite H. ring.
    + replace (80 * (v * w)) with (80 * v * w) by ring.
      apply Z.mul_le_mono_pos_r. exact Hw.
    + replace (60 * (v * w)) with (60 * v * w) by ring.
      apply Z.mul_le_mono_pos_r. exact Hw.
Qed.

(** A percentage of at least [N] comes from a score of at least [N] percent,
    when there are fewer than [2 ^ 45] answers. *)
Lemma score_percentage_at_most (N c t : Z) (p : float) :
  0 <= c <= t -> 0 < t < 2 ^ 45 ->
  score_percentage c t = Ok p ->
  N * 2 ^ 1120 <= scaled p ->
  N * t <= 100 * c.
Proof.
  intros Hc Ht Ep HN.
  pose proof (score_percentage_error c t p Hc ltac:(lia) Ep) as Herr.
  assert (HS : 0 < 2 ^ 1120) by (apply Z.pow_pos_nonneg; lia).
  assert (HP : 0 < 2 ^ 45) by (apply Z.pow_pos_nonneg; lia).
  set (S := 2 ^ 1120) in *. set (P := 2 ^ 45) in *. set (sp := scaled p) in *.
  set (X := Z.abs (sp * t - 100 * c * S)) in *.
  assert (HX : X < S).
  { apply (proj2 (Z.mul_lt_mono_pos_r P _ _ HP)).
    apply Z.le_lt_trans with (t * S); [ exact Herr | ].
    rewrite (Z.mul_comm S P).
    apply (proj1 (Z.mul_lt_mono_pos_r S _ _ HS)). lia. }
  assert (H1 : N * S * t <= sp * t) by (apply Z.mul_le_mono_nonneg_r; lia).
  assert (H2 : sp * t - 100 * c * S <= X) by (unfold X; lia).
  destruct (Z_le_gt_dec (N * t) (100 * c)) as [ | Hgt ]; [ assumption | exfalso ].
  assert (H3 : 1 * S <= (N * t - 100 * c) * S) by (apply Z.mul_le_mono_nonneg_r; lia).
  replace ((N * t - 100 * c) * S) with (N * S * t - 100 * c * S) in H3 by ring.
  lia.
Qed.

(** X13. The remark is the one of the exact score. With [c] correct answers
    out of [t], fewer than [2 ^ 45], the two rounded float operations of the
    source never move the percentage across a threshold: the remark is the
    perfect one exactly when [c = t], else the "great" one exactly when
    [100 * c >= 80 * t], else the "good" one exactly when [100 * c >= 60 * t],
    else the lowest. *)
Theorem remark_follows_exact_score (c t : Z) (p : float) :
  0 <= c <= t -> 0 < t < 2 ^ 45 ->
  score_percentage c t = Ok p ->
  performance p
  = if c =? t then lit "Excellent! Perfect score!"
    else if 80 * t <=? 100 * c then
      lit "Great job! You have a strong understanding of Python."
    else if 60 * t <=? 100 * c then
      lit "Good effort. You're on the right track with Python."
    else
      lit "Keep studying. There's room for improvement in your Python skills.".
Proof.
  intros Hc Ht Ep.
  destruct (score_percentage_bounded c t Hc ltac:(lia)) as (p' & Ep' & Hb).
  assert (p' = p) by congruence. subst p'. clear Ep'.
  destruct (thresholds_on_scaled p Hb) as (T100 & T80 & T60).
  assert (A100 : float_eqb p (float_of_int 100) = (c =? t)).
  { apply eq_true_iff_eq. rewrite T100, Z.eqb_eq. split; intros H.
    - assert (H1 : 100 * t <= 100 * c).
      { apply (score_percentage_at_most 100 c t p Hc Ht Ep). rewrite H. lia. }
      lia.
    - subst c. rewrite score_percentage_all in Ep by lia.
      apply Ok_inj in Ep. subst p. rewrite float_of_int_100. reflexivity. }
  assert (A80 : float_leb (float_of_int 80) p = (80 * t <=? 100 * c)).
  { apply eq_true_iff_eq. rewrite T80, Z.leb_le. split; intros H.
    - exact (score_percentage_at_most 80 c t p Hc Ht Ep H).
    - apply (score_percentage_at_least 4 c t p); [ right; reflexivity | exact Hc | lia | lia | exact Ep ]. }
  assert (A60 : float_leb (float_of_int 60) p = (60 * t <=? 100 * c)).
  { apply eq_true_iff_eq. rewrite T60, Z.leb_le. split; intros H.
    - exact (score_percentage_at_most 60 c t p Hc Ht Ep H).
    - apply (score_percentage_at_least 3 c t p); [ left; reflexivity | exact Hc | lia | lia | exact Ep ]. }
  unfold performance. rewrite A100, A80, A60. reflexivity.
Qed.

(** ** What a turn shows *)

Lemma no_answers_message_one_line :
  ~ In 10%N (lit "No quiz answers found. Please complete the quiz.").
Proof.
  intros H. cbv in H.
  repeat (destruct H as [H | H]; [ discriminate H | ]). exact H.
Qed.

Lemma summary_is_not_the_guard (l : list QuizAnswerRecord) (summary : str) :
  l <> [] ->
  final_response (Some l) = Ok summary ->
  summary <> [] /\ summary <> lit "No quiz answers found. Please complete the quiz.".
Proof.
  intros Hne Ef. destruct l as [ | a l ]; [ congruence | ].
  assert (Ht : 0 < len (a :: l)) by (unfold len; cbn [List.length]; lia).
  destruct (score_percentage_range _ _ (count_correct_range (a :: l)) Ht)
    as (p & Ep & _).
  rewrite (final_response_shape a l p Ep) in Ef. apply Ok_inj in Ef.
  rewrite <- Ef.
  change (lit "Quiz Completed!") with (81%N :: lit "uiz Completed!").
  change (lit "No quiz answers found. Please complete the quiz.")
    with (78%N :: lit "o quiz answers found. Please complete the quiz.").
  cbn [app]. split; intros H; discriminate H.
Qed.

(** X14. Every turn replies. Whatever the session holds, a turn returns
    without an exception: on a session without a current id, the welcome
    message and one more entry; otherwise exactly one message, which is never
    empty and never the "no answers" guard of the scorer, since a summary is
    only asked for right after a record has been appended. *)
Theorem every_turn_replies (message : str) (s : Session) :
  exists responses s',
    generate_bot_responses message s = (Ok responses, s')
    /\ match current_question_id (data s) with
       | IsInt _ =>
           exists text,
             responses = [Some text]
             /\ text <> []
             /\ text <> lit "No quiz answers found. Please complete the quiz."
       | Absent | IsNone =>
           exists first, responses = [Some BOT_WELCOME_MESSAGE; first]
       end.
Proof.
  destruct (id_cases (current_question_id (data s)))
    as [ Hcold | [ (cid & Hs & Hc) | [ (cid & q & q' & Hs & Hc & Hq & Hq')
                                     | (cid & q & Hs & Hc & Hq & Hlen) ] ] ].
  - rewrite cold_start_step by assumption.
    destruct get_next_question_None_returns as (text & nid & E). rewrite E.
    eexists. eexists. split; [ reflexivity | ].
    destruct Hcold as [-> | ->]; exists text; reflexivity.
  - rewrite (failure_step message s cid) by assumption. rewrite Hs.
    eexists. eexists. split; [ reflexivity | ].
    eexists. split; [ reflexivity | ].
    destruct (cid <? 0); split; intros H; discriminate H.
  - rewrite (next_question_step message s cid q q') by assumption. rewrite Hs.
    eexists. eexists. split; [ reflexivity | ].
    eexists. split; [ reflexivity | ].
    assert (Hnl : In 10%N (rendered_text q')).
    { unfold rendered_text. apply in_or_app. right. left. reflexivity. }
    split; intros H; rewrite H in Hnl.
    + destruct Hnl.
    + exact (no_answers_message_one_line Hnl).
  - destruct (completion_step message s cid q Hs Hc Hq Hlen) as (summary & Ef & E).
    rewrite E, Hs. eexists. eexists. split; [ reflexivity | ].
    exists summary. split; [ reflexivity | ].
    apply (summary_is_not_the_guard _ summary) in Ef; [ exact Ef | ].
    intros Hnil. apply app_eq_nil in Hnil. destruct Hnil as [_ Hnil]. discriminate Hnil.
Qed.

End ReplyFactory.

(** ** The properties on the scenario of the specification *)

(** Turn 1 of the scenario: the welcome message and the rendered question. *)
Lemma cold_start_on_scenario :
  exists s',
    generate_bot_responses scenario_welcome scenario_questions (lit "hello") fresh_session
    = (Ok [Some scenario_welcome; Some (rendered_text scenario_question)], s')
    /\ current_question_id (data s') = IsInt 0
    /\ quiz_answers (data s') = quiz_answers (data fresh_session)
    /\ persisted_by_call fresh_session s'.
Proof.
  apply (cold_start_welcome_then_question_0
           scenario_welcome scenario_questions (lit "hello") fresh_session
           scenario_question).
  - left. reflexivity.
  - reflexivity.
Defined.

(** Turns 1 and 2 of the scenario, the answer being "4". *)
Lemma full_pass_on_scenario :
  exists summary s',
    run_turns scenario_welcome scenario_questions [lit "hello"; lit "4"] fresh_session
    = (Ok ([Some scenario_welcome; Some (rendered_text scenario_question)]
             :: map (fun q => [Some (rendered_text q)]) []
             ++ [[Some summary]]), s')
    /\ final_response
         (Some (answers_of (data fresh_session)
                  ++ answer_records 0 scenario_questions [lit "4"]))
       = Ok summary
    /\ current_question_id (data s') = IsNone
    /\ quiz_answers (data s')
       = Some (answers_of (data fresh_session)
                 ++ answer_records 0 scenario_questions [lit "4"]).
Proof.
  apply (full_pass_ends_with_summary
           scenario_welcome scenario_questions (lit "hello") [lit "4"] fresh_session
           scenario_question []).
  - reflexivity.
  - left. reflexivity.
  - reflexivity.
Defined.

(** Recording the answer " 4 " to the question of the scenario. *)
Lemma record_on_scenario :
  exists q s',
    nth_error scenario_questions (Z.to_nat 0) = Some q
    /\ record_current_answer scenario_questions (lit " 4 ") (Some 0) fresh_session
       = (Ok (true, empty_str), s')
    /\ quiz_answers (data s')
       = Some (answers_of (data fresh_session)
                 ++ [{| question_id := 0;
                        user_answer := lit " 4 ";
                        correct_answer := answer q;
                        is_correct := str_eqb (strip (lit " 4 ")) (strip (answer q)) |}])
    /\ (str_eqb (strip (lit " 4 ")) (strip (answer q)) = true
        <-> strip (lit " 4 ") = strip (answer q))
    /\ current_question_id (data s') = current_question_id (data fresh_session)
    /\ saved s' = saved fresh_session.
Proof.
  apply (record_current_answer_appends_one_record
           scenario_questions (lit " 4 ") 0 fresh_session).
  unfold len. simpl. lia.
Defined.

(** Fetching the first question of the scenario, and the end of its list. *)
Example get_next_question_on_scenario :
  get_next_question scenario_questions None
  = Ok (Some (lit "2+2?" ++ nl ++ nl ++ lit "Options:" ++ nl
                ++ lit "1. 3" ++ nl ++ lit "2. 4" ++ nl), 0)
  /\ get_next_question scenario_questions (Some 0) = Ok (None, -1).
Proof. split; reflexivity. Qed.

(** Any three messages on the scenario keep the stored id valid. *)
Lemma valid_id_on_scenario :
  exists responses s',
    run_turns scenario_welcome scenario_questions
      [lit "hello"; lit "4"; lit "again"] fresh_session
    = (Ok responses, s')
    /\ match current_question_id (data s') with
       | IsInt z => 0 <= z < len scenario_questions
       | Absent | IsNone => True
       end.
Proof.
  apply (current_question_id_stays_valid
           scenario_welcome scenario_questions [lit "hello"; lit "4"; lit "again"]).
  discriminate.
Defined.

(** An answer sent to a fresh session does not get "No active question": it
    starts the quiz. *)
Lemma answer_to_fresh_session_starts_quiz :
  fst (generate_bot_responses scenario_welcome scenario_questions (lit "4") fresh_session)
  = Ok [Some scenario_welcome; Some (rendered_text scenario_question)]
  /\ fst (generate_bot_responses scenario_welcome scenario_questions (lit "4") fresh_session)
     <> Ok [Some (lit "No active question")].
Proof.
  split.
  - reflexivity.
  - intros H. vm_compute in H. discriminate H.
Qed.

(** With a stored id past the end of the list, the turn returns the error
    message and nothing is saved. *)
Lemma stale_id_turn_is_not_saved :
  generate_bot_responses scenario_welcome scenario_questions (lit "4") stale_session
  = (Ok [Some (lit "Invalid question ID")], stale_session)
  /\ ~ persisted_by_call stale_session
         (snd (generate_bot_responses scenario_welcome scenario_questions (lit "4")
                 stale_session)).
Proof.
  split.
  - reflexivity.
  - unfold persisted_by_call. intros H. vm_compute in H. discriminate H.
Qed.

(** With 23 right answers out of 160 the percentage is not [100 * 23 / 160]:
    the exact value is 14.375, whose nearest number of hundredths (ties to
    even, as [.2f] rounds) is 14.38, while the float [(23 / 160) * 100] lies
    below it and the summary shows 14.37. *)
Lemma percentage_of_23_in_160_is_not_exact :
  spec_correct_count tied_answers = 23
  /\ len tied_answers = 160
  /\ (Qmake (100 * 23) 160 == Qmake 14375 1000)%Q
  /\ div_half_even (100 * (100 * 23)) 160 = 1438
  /\ score_percentage 23 160 = Ok (S754_finite false 8092405580431359 (-49))
  /\ (float_value (S754_finite false 8092405580431359 (-49)) < Qmake (100 * 23) 160)%Q
  /\ format_2f (S754_finite false 8092405580431359 (-49)) = lit "14.37"
  /\ exists rest,
       generate_final_response tied_session
       = (Ok (lit "Quiz Completed!" ++ nl ++ nl
                ++ lit "Your Score: 23/160 (14.37%)" ++ rest), tied_session).
Proof.
  split; [ reflexivity | ].
  split; [ reflexivity | ].
  split; [ reflexivity | ].
  split; [ reflexivity | ].
  split; [ vm_compute; reflexivity | ].
  split; [ vm_compute; reflexivity | ].
  split; [ vm_compute; reflexivity | ].
  eexists. vm_compute. reflexivity.
Qed.

(** The two summaries of the scenario: the right answer and a wrong one. *)
Example scenario_right_answer :
  exists text s',
    run_turns scenario_welcome scenario_questions [lit "hello"; lit "4"] fresh_session
    = (Ok [[Some scenario_welcome;
            Some (lit "2+2?" ++ nl ++ nl ++ lit "Options:" ++ nl
                    ++ lit "1. 3" ++ nl ++ lit "2. 4" ++ nl)];
           [Some (lit "Quiz Completed!" ++ nl ++ nl
                    ++ lit "Your Score: 1/1 (100.00%)" ++ nl ++ nl
                    ++ lit "Excellent! Perfect score!" ++ text)]], s')
    /\ current_question_id (data s') = IsNone.
Proof. eexists. eexists. split; vm_compute; reflexivity. Qed.

Example scenario_wrong_answer :
  exists text s',
    run_turns scenario_welcome scenario_questions [lit "hello"; lit "3"] fresh_session
    = (Ok [[Some scenario_welcome;
            Some (lit "2+2?" ++ nl ++ nl ++ lit "Options:" ++ nl
                    ++ lit "1. 3" ++ nl ++ lit "2. 4" ++ nl)];
           [Some (lit "Quiz Completed!" ++ nl ++ nl
                    ++ lit "Your Score: 0/1 (0.00%)" ++ nl ++ nl
                    ++ lit "Keep studying. There's room for improvement in your Python skills."
                    ++ text)]], s')
    /\ current_question_id (data s') = IsNone.
Proof. eexists. eexists. split; vm_compute; reflexivity. Qed.

(** Without any question the cold start stores the sentinel -1 of the fetcher,
    and the next turn is refused. *)
Example empty_question_list :
  run_turns scenario_welcome [] [lit "hello"; lit "4"] fresh_session
  = (Ok [[Some scenario_welcome; None]; [Some (lit "No active question")]],
     {| data := {| current_question_id := IsInt (-1); quiz_answers := None |};
        saved := [{| current_question_id := IsInt (-1); quiz_answers := None |}] |}).
Proof. reflexivity. Qed.

(** Below -1 the fetcher indexes the list from its end, as Python does. *)
Example get_next_question_negative_index :
  get_next_question scenario_questions (Some (-2))
  = Ok (Some (rendered_text scenario_question), -1)
  /\ get_next_question scenario_questions (Some (-3)) = Raise IndexError.
Proof. split; reflexivity. Qed.

(** Percentages are binary64 values: 57 out of 100 is not the float 57.0, and
    is printed as 57.00. *)
Example score_percentage_57 :
  score_percentage 57 100 = Ok (S754_finite false 8022036836253695 (-47))
  /\ format_2f (S754_finite false 8022036836253695 (-47)) = lit "57.00"
  /\ float_eqb (S754_finite false 8022036836253695 (-47)) (float_of_int 57) = false.
Proof. repeat split; vm_compute; reflexivity. Qed.

(** ** Further properties on the scenario *)

(** A stored id of 5 on the one-question list: both turns are refused. *)
Lemma invalid_id_on_scenario :
  run_turns scenario_welcome scenario_questions [lit "4"; lit "3"]
    {| data := {| current_question_id := IsInt 5; quiz_answers := None |};
       saved := [] |}
  = (Ok (map (fun _ => [Some (if 5 <? 0 then lit "No active question"
                              else lit "Invalid question ID")])
           [lit "4"; lit "3"]),
     {| data := {| current_question_id := IsInt 5; quiz_answers := None |};
        saved := [] |}).
Proof.
  apply (invalid_id_blocks_every_turn scenario_welcome scenario_questions
           [lit "4"; lit "3"]
           {| data := {| current_question_id := IsInt 5; quiz_answers := None |};
              saved := [] |} 5).
  - reflexivity.
  - right. unfold len. simpl. lia.
Defined.

(** Three turns without any question. *)
Lemma empty_list_on_fresh_session :
  run_turns scenario_welcome [] (lit "hello" :: [lit "4"; lit "again"]) fresh_session
  = (Ok ([Some scenario_welcome; None]
           :: map (fun _ => [Some (lit "No active question")]) [lit "4"; lit "again"]),
     {| data := {| current_question_id := IsInt (-1);
                   quiz_answers := quiz_answers (data fresh_session) |};
        saved := {| current_question_id := IsInt (-1);
                    quiz_answers := quiz_answers (data fresh_session) |}
                 :: saved fresh_session |}).
Proof.
  apply (empty_question_list_never_asks scenario_welcome []
           (lit "hello") [lit "4"; lit "again"] fresh_session).
  - reflexivity.
  - left. reflexivity.
Defined.

(** The fetcher at -2 on the one-question list. *)
Lemma fetcher_at_minus_2_on_scenario :
  (- len scenario_questions <= -2 + 1 ->
   exists q,
     nth_error scenario_questions (Z.to_nat (len scenario_questions + -2 + 1)) = Some q
     /\ get_next_question scenario_questions (Some (-2))
        = Ok (Some (rendered_text q), -2 + 1))
  /\ (-2 + 1 < - len scenario_questions ->
      get_next_question scenario_questions (Some (-2)) = Raise IndexError).
Proof.
  apply (get_next_question_below_minus_1 scenario_questions (-2)). lia.
Defined.

(** Two different first messages to a fresh session. *)
Lemma first_message_ignored_on_scenario :
  generate_bot_responses scenario_welcome scenario_questions (lit "hello") fresh_session
  = generate_bot_responses scenario_welcome scenario_questions (lit "4") fresh_session.
Proof.
  apply (message_ignored_unless_question_pending scenario_welcome scenario_questions
           (lit "hello") (lit "4") fresh_session).
  intros cid H. discriminate H.
Defined.

(** The answer "4" between a space and a space followed by a newline. *)
Lemma padded_answer_on_scenario :
  exists r s',
    record_current_answer scenario_questions (lit " " ++ lit "4" ++ [32%N; 10%N])
      (Some 0) fresh_session
    = (Ok (true, empty_str), s')
    /\ quiz_answers (data s') = Some (answers_of (data fresh_session) ++ [r])
    /\ user_answer r = lit " " ++ lit "4" ++ [32%N; 10%N]
    /\ is_correct r = str_eqb (strip (lit "4")) (strip (answer scenario_question))
    /\ (lit "4" = answer scenario_question -> is_correct r = true).
Proof.
  apply (is_correct_ignores_surrounding_whitespace scenario_questions
           (lit " ") (lit "4") [32%N; 10%N] 0 scenario_question fresh_session).
  - lia.
  - reflexivity.
  - reflexivity.
  - reflexivity.
Defined.

(** The records after three turns of the scenario. *)
Lemma consistent_records_on_scenario :
  exists responses s',
    run_turns scenario_welcome scenario_questions
      [lit "hello"; lit "4"; lit "again"] fresh_session
    = (Ok responses, s')
    /\ Forall (record_consistent scenario_questions) (answers_of (data s')).
Proof.
  apply (recorded_answers_stay_consistent scenario_welcome scenario_questions
           [lit "hello"; lit "4"; lit "again"] fresh_session).
  constructor.
Defined.

(** The order of the records after two passes of the scenario. *)
Lemma record_order_on_scenario :
  exists responses s',
    run_turns scenario_welcome scenario_questions
      [lit "hello"; lit "4"; lit "again"; lit "3"] fresh_session
    = (Ok responses, s')
    /\ (forall i r, nth_error (answers_of (data s')) i = Some r ->
                    question_id r = Z.of_nat i mod len scenario_questions)
    /\ len (answers_of (data s')) mod len scenario_questions
       = match current_question_id (data s') with
         | IsInt k => k
         | Absent | IsNone => 0
         end.
Proof.
  apply (records_follow_question_order scenario_welcome scenario_questions
           [lit "hello"; lit "4"; lit "again"; lit "3"]).
  discriminate.
Defined.

(** The snapshots of three turns of the scenario. *)
Lemma snapshots_on_scenario :
  exists responses s' snapshots,
    run_turns scenario_welcome scenario_questions
      [lit "hello"; lit "4"; lit "again"] fresh_session
    = (Ok responses, s')
    /\ saved s' = snapshots ++ saved fresh_session
    /\ List.length snapshots = List.length [lit "hello"; lit "4"; lit "again"]
    /\ Forall (fun d => valid_id scenario_questions (current_question_id d)) snapshots
    /\ ([lit "hello"; lit "4"; lit "again"] <> [] -> hd_error snapshots = Some (data s')).
Proof.
  apply (every_turn_writes_one_snapshot scenario_welcome scenario_questions
           [lit "hello"; lit "4"; lit "again"] fresh_session).
  - discriminate.
  - exact I.
Defined.

(** The scenario with the right answer, padded. *)
Lemma perfect_score_on_scenario :
  exists s',
    run_turns scenario_welcome scenario_questions (lit "hello" :: [lit " 4 "])
      fresh_session
    = (Ok ([Some scenario_welcome; Some (rendered_text scenario_question)]
             :: map (fun q => [Some (rendered_text q)]) []
             ++ [[Some (uniform_summary true
                          (str_of_int (len scenario_questions) ++ lit "/"
                             ++ str_of_int (len scenario_questions)
                             ++ lit " (100.00%)")
                          (lit "Excellent! Perfect score!")
                          [lit " 4 "])]]), s')
    /\ current_question_id (data s') = IsNone.
Proof.
  apply (right_answers_give_perfect_score scenario_welcome scenario_questions
           (lit "hello") [lit " 4 "] fresh_session scenario_question []).
  - reflexivity.
  - left. reflexivity.
  - reflexivity.
  - constructor; [ reflexivity | constructor ].
Defined.

(** The scenario with a wrong answer. *)
Lemma zero_score_on_scenario :
  exists s',
    run_turns scenario_welcome scenario_questions (lit "hello" :: [lit "3"])
      fresh_session
    = (Ok ([Some scenario_welcome; Some (rendered_text scenario_question)]
             :: map (fun q => [Some (rendered_text q)]) []
             ++ [[Some (uniform_summary false
                          (lit "0/" ++ str_of_int (len scenario_questions)
                             ++ lit " (0.00%)")
                          (lit "Keep studying. There's room for improvement in your Python skills.")
                          [lit "3"])]]), s')
    /\ current_question_id (data s') = IsNone.
Proof.
  apply (wrong_answers_give_zero_score scenario_welcome scenario_questions
           (lit "hello") [lit "3"] fresh_session scenario_question []).
  - reflexivity.
  - left. reflexivity.
  - reflexivity.
  - constructor; [ | constructor ]. intros H. vm_compute in H. discriminate H.
Defined.

(** Two passes of the scenario in a row: the second summary counts two
    answers. *)
Lemma two_passes_on_scenario :
  exists responses p s',
    let all := answers_of (data fresh_session)
                 ++ answer_records 0 scenario_questions [lit "4"]
                 ++ answer_records 0 scenario_questions [lit "3"] in
    run_turns scenario_welcome scenario_questions
      ((lit "hello" :: [lit "4"]) ++ lit "again" :: [lit "3"]) fresh_session
    = (Ok (responses
             ++ [[Some (lit "Quiz Completed!" ++ nl ++ nl
                          ++ lit "Your Score: " ++ str_of_int (count_correct all)
                          ++ lit "/"
                          ++ str_of_int (len (answers_of (data fresh_session))
                                         + 2 * len scenario_questions)
                          ++ lit " (" ++ format_2f p ++ lit "%)" ++ nl ++ nl
                          ++ performance p
                          ++ nl ++ nl ++ lit "Detailed Breakdown:"
                          ++ List.concat (map breakdown_line (enumerate 1 all)))]]), s')
    /\ score_percentage (count_correct all)
         (len (answers_of (data fresh_session)) + 2 * len scenario_questions) = Ok p
    /\ quiz_answers (data s') = Some all
    /\ current_question_id (data s') = IsNone.
Proof.
  apply (second_pass_scores_both_passes scenario_welcome scenario_questions
           (lit "hello") (lit "again") [lit "4"] [lit "3"] fresh_session
           scenario_question []).
  - reflexivity.
  - left. reflexivity.
  - reflexivity.
  - reflexivity.
Defined.

(** Three right answers out of five: exactly on the threshold of 60. *)
Lemma remark_for_3_of_5 :
  performance (float_of_int 60)
  = if 3 =? 5 then lit "Excellent! Perfect score!"
    else if 80 * 5 <=? 100 * 3 then
      lit "Great job! You have a strong understanding of Python."
    else if 60 * 5 <=? 100 * 3 then
      lit "Good effort. You're on the right track with Python."
    else
      lit "Keep studying. There's room for improvement in your Python skills.".
Proof.
  apply (remark_follows_exact_score 3 5 (float_of_int 60)).
  - lia.
  - split; [ lia | reflexivity ].
  - vm_compute. reflexivity.
Defined.
